(** * Wedding-invite generator: a shallow embedding of [src/App.vue]

    The single-file component keeps its settings in reactive references,
    seeds them from the query parameters of the page address, writes them
    back there after a quiet period, composes the card on a canvas and loads
    web fonts from pasted markup.  This development embeds the script part:

    - JavaScript numbers are IEEE-754 binary64 values ([spec_float] with a
      53-bit mantissa), with the standard library's executable operations;
    - JavaScript strings are byte strings ([string]); text outside ASCII is
      its UTF-8 encoding, and is decoded to UTF-16 code units where the
      script compares strings;
    - the exact value of a number is a rational ([value]), used where a
      statement speaks of the real product or quotient;
    - the page address is the ordered list of its decoded query pairs;
    - runtime functions the script calls ([parseFloat], [JSON.parse],
      [JSON.stringify], [String.prototype.match], lodash's [debounce]) are
      written out from their language or library definition. *)

From Stdlib Require Import ZArith Lia Bool List String Ascii DecimalString.
From Stdlib Require Import SpecFloat.
From Stdlib Require DecimalFacts DecimalPos.
From Stdlib Require Import QArith_base Qabs Qpower Qring.
From stdpp Require Import gmap strings list.

Open Scope string_scope.
Open Scope Z_scope.

(** ** Characters and text *)

Module Text.

Definition code (c : ascii) : N := N_of_ascii c.

(** The quotation mark, written by its code. *)
Definition dquote : ascii := "034"%char.
Definition LF : ascii := "010"%char.
Definition CR : ascii := "013"%char.

Definition quoted (s : string) : string :=
  String dquote (s ++ String dquote EmptyString).

Definition is_digit (c : ascii) : bool :=
  ((48 <=? code c) && (code c <=? 57))%N.

Definition digit_val (c : ascii) : N := (code c - 48)%N.

(** [s] starts with [p]: what is left of [s] after [p]. *)
Fixpoint strip_prefix (p s : string) : option string :=
  match p with
  | EmptyString => Some s
  | String a p' =>
      match s with
      | String b s' => if Ascii.eqb a b then strip_prefix p' s' else None
      | EmptyString => None
      end
  end.

(** Decimal digits at the head of [s], accumulated onto [acc]: the value,
    how many digits were read, and the rest. *)
Fixpoint read_digits (s : string) (acc : N) (cnt : nat) : N * nat * string :=
  match s with
  | String c r =>
      if is_digit c then read_digits r (10 * acc + digit_val c)%N (S cnt)
      else (acc, cnt, s)
  | EmptyString => (acc, cnt, s)
  end.

Definition string_of_N (n : N) : string :=
  NilZero.string_of_uint (N.to_uint n).

Fixpoint repeat_char (c : ascii) (n : nat) : string :=
  match n with
  | O => EmptyString
  | S k => String c (repeat_char c k)
  end.

Fixpoint take (n : nat) (s : string) : string :=
  match n, s with
  | S k, String c r => String c (take k r)
  | _, _ => EmptyString
  end.

Fixpoint drop (n : nat) (s : string) : string :=
  match n, s with
  | S k, String _ r => drop k r
  | _, _ => s
  end.

Definition continues (c : ascii) : bool :=
  ((128 <=? code c) && (code c <? 192))%N.

(** The UTF-16 code units of a text, from its UTF-8 bytes: one unit for a
    code point up to U+FFFF, a pair of surrogates for one above.  A byte
    that starts no sequence stands for itself. *)
Fixpoint code_units (s : string) : list N :=
  match s with
  | EmptyString => []
  | String a r =>
      let x := code a in
      match r with
      | String b r1 =>
          if ((194 <=? x) && (x <? 224))%N && continues b then
            ((x - 192) * 64 + (code b - 128))%N :: code_units r1
          else
            match r1 with
            | String c r2 =>
                if ((224 <=? x) && (x <? 240))%N && continues b && continues c
                then
                  ((x - 224) * 4096 + (code b - 128) * 64 + (code c - 128))%N
                  :: code_units r2
                else
                  match r2 with
                  | String d r3 =>
                      let cp :=
                        ((x - 240) * 262144 + (code b - 128) * 4096
                         + (code c - 128) * 64 + (code d - 128))%N in
                      if ((240 <=? x) && (x <? 245) && (65536 <=? cp))%N
                         && continues b && continues c && continues d
                      then
                        (55296 + (cp - 65536) / 1024)%N
                        :: (56320 + (cp - 65536) mod 1024)%N
                        :: code_units r3
                      else x :: code_units r
                  | EmptyString => x :: code_units r
                  end
            | EmptyString => x :: code_units r
            end
      | EmptyString => [x]
      end
  end.

End Text.

(** ** Numbers *)

Module Num.

Definition prec : Z := 53.
Definition emax : Z := 1024.

Definition number : Type := spec_float.

Definition nan : number := S754_nan.
Definition mul : number -> number -> number := SFmul prec emax.
Definition div : number -> number -> number := SFdiv prec emax.
Definition leb : number -> number -> bool := SFleb.
Definition ltb : number -> number -> bool := SFltb.

(** The number of an integer (exact below [2^53], rounded above). *)
Definition of_Z (z : Z) : number := binary_normalize prec emax z 0 false.
Definition of_N (n : N) : number := of_Z (Z.of_N n).

Definition zero : number := S754_zero false.
Definition one : number := of_Z 1.
Definition two : number := of_Z 2.
Definition half : number := S754_finite false 4503599627370496 (-53).

(** A well-formed binary64 datum: canonical mantissa, exponent in range. *)
Definition is_double (x : number) : bool := valid_binary prec emax x.

Definition is_finite (x : number) : bool :=
  match x with
  | S754_zero _ | S754_finite _ _ _ => true
  | _ => false
  end.

(** [ToBoolean] on numbers: [NaN], [+0] and [-0] are falsy. *)
Definition truthy (x : number) : bool :=
  match x with
  | S754_nan | S754_zero _ => false
  | _ => true
  end.

(** [a || b] on numbers. *)
Definition or_else (a b : number) : number := if truthy a then a else b.

(** The number nearest to [(-1)^neg * m * 10^e], ties to even. *)
Definition of_decimal (neg : bool) (m : N) (e : Z) : number :=
  match m with
  | N0 => S754_zero neg
  | Npos p =>
      if 0 <=? e then binary_round prec emax neg (p * Z.to_pos (10 ^ e)) 0
      else
        let '(q, e', l) :=
          SFdiv_core_binary prec emax (Zpos p) 0 (10 ^ (- e)) 0 in
        binary_round_aux prec emax neg q e' l
  end.

(** The number lies in the closed unit interval. *)
Definition in_unit (x : number) : bool := leb zero x && leb x one.

End Num.

Export Num (number).

(** ** [parseFloat] *)

Module ParseFloat.
Import Text.

(** White space and line terminators of the ASCII range: the tabs, the
    line feed, the form feed, the carriage return and the space. *)
Definition is_space (c : ascii) : bool :=
  ((9 <=? code c) && (code c <=? 13) || (code c =? 32))%N.

(** White space of two bytes: U+00A0. *)
Definition is_space2 (a b : ascii) : bool :=
  ((code a =? 194) && (code b =? 160))%N.

(** White space and line terminators of three bytes: U+1680, U+2000 to
    U+200A, U+2028, U+2029, U+202F, U+205F, U+3000 and U+FEFF. *)
Definition is_space3 (a b c : ascii) : bool :=
  let x := code a in
  let y := code b in
  let z := code c in
  ((x =? 225) && (y =? 154) && (z =? 128)
   || (x =? 226) && (y =? 128)
      && ((128 <=? z) && (z <=? 138) || (z =? 168) || (z =? 169) || (z =? 175))
   || (x =? 226) && (y =? 129) && (z =? 159)
   || (x =? 227) && (y =? 128) && (z =? 128)
   || (x =? 239) && (y =? 187) && (z =? 191))%N.

(** [TrimString] at the start: every [StrWhiteSpaceChar] at the head of
    the text goes. *)
Fixpoint trim_start (s : string) : string :=
  match s with
  | String a r =>
      if is_space a then trim_start r
      else
        match r with
        | String b r1 =>
            if is_space2 a b then trim_start r1
            else
              match r1 with
              | String c r2 => if is_space3 a b c then trim_start r2 else s
              | EmptyString => s
              end
        | EmptyString => s
        end
  | EmptyString => s
  end.

Definition read_sign (s : string) : bool * string :=
  match s with
  | String c r =>
      if Ascii.eqb c "-" then (true, r)
      else if Ascii.eqb c "+" then (false, r)
      else (false, s)
  | EmptyString => (false, s)
  end.

(** An exponent part, [e] or [E], an optional sign and at least one digit;
    without a digit there is no exponent part and nothing is consumed. *)
Definition read_exponent (s : string) : Z * string :=
  match s with
  | String c r =>
      if (Ascii.eqb c "e" || Ascii.eqb c "E")%bool then
        let '(neg, r') := read_sign r in
        let '(v, cnt, rest) := read_digits r' 0%N 0%nat in
        match cnt with
        | O => (0, s)
        | S _ => (if neg then - Z.of_N v else Z.of_N v, rest)
        end
      else (0, s)
  | EmptyString => (0, s)
  end.

(** The longest prefix of the trimmed input that is a decimal literal,
    rounded to a number; [NaN] when there is none. *)
Definition parseFloat (input : string) : number :=
  let '(neg, s) := read_sign (trim_start input) in
  match strip_prefix "Infinity" s with
  | Some _ => S754_infinity neg
  | None =>
      let '(ip, ni, s1) := read_digits s 0%N 0%nat in
      let '(m, nf, s2) :=
        match s1 with
        | String "." r => read_digits r ip 0%nat
        | _ => (ip, 0%nat, s1)
        end in
      match (ni + nf)%nat with
      | O => Num.nan
      | S _ =>
          let '(ex, _) := read_exponent s2 in
          Num.of_decimal neg m (ex - Z.of_nat nf)
      end
  end.

End ParseFloat.

Export ParseFloat (parseFloat).

(** ** JSON values, [JSON.parse] and [JSON.stringify] *)

#[warnings="-register-all"]
Inductive json : Type :=
| JNull
| JBool (b : bool)
| JNum (x : number)
| JStr (s : string)
| JArr (l : list json)
| JObj (l : list (string * json)).

(** What a call leaves behind: a value, or a thrown [SyntaxError]. *)
Inductive completion (A : Type) : Type :=
| Normal (a : A)
| Throw.

Arguments Normal {A} a.
Arguments Throw {A}.

Module JSON.
Import Text.

(** [ToBoolean] of a parsed value. *)
Definition truthy (v : json) : bool :=
  match v with
  | JNull => false
  | JBool b => b
  | JNum x => Num.truthy x
  | JStr s => match s with EmptyString => false | _ => true end
  | JArr _ | JObj _ => true
  end.

(** *** Reading *)

Definition is_ws (c : ascii) : bool :=
  ((code c =? 32) || (code c =? 9) || (code c =? 10) || (code c =? 13))%N.

Fixpoint skip_ws (s : string) : string :=
  match s with
  | String c r => if is_ws c then skip_ws r else s
  | EmptyString => s
  end.

Definition hex_val (c : ascii) : option N :=
  let n := code c in
  if ((48 <=? n) && (n <=? 57))%N then Some (n - 48)%N
  else if ((65 <=? n) && (n <=? 70))%N then Some (n - 55)%N
  else if ((97 <=? n) && (n <=? 102))%N then Some (n - 87)%N
  else None.

Definition hex4 (a b c d : ascii) : option N :=
  match hex_val a, hex_val b, hex_val c, hex_val d with
  | Some x, Some y, Some z, Some w => Some (((x * 16 + y) * 16 + z) * 16 + w)%N
  | _, _, _, _ => None
  end.

(** A code point as the bytes of its UTF-8 form. *)
Definition utf8 (u : N) : string :=
  let byte (n : N) := String (ascii_of_N n) EmptyString in
  if (u <? 128)%N then byte u
  else if (u <? 2048)%N then byte (192 + u / 64)%N ++ byte (128 + u mod 64)%N
  else if (u <? 65536)%N then
    byte (224 + u / 4096)%N ++ byte (128 + (u / 64) mod 64)%N
    ++ byte (128 + u mod 64)%N
  else
    byte (240 + u / 262144)%N ++ byte (128 + (u / 4096) mod 64)%N
    ++ byte (128 + (u / 64) mod 64)%N ++ byte (128 + u mod 64)%N.

(** The two halves of a surrogate pair and the code point they stand
    for. *)
Definition is_high (u : N) : bool := ((55296 <=? u) && (u <? 56320))%N.
Definition is_low (u : N) : bool := ((56320 <=? u) && (u <? 57344))%N.
Definition paired (hi lo : N) : N :=
  (65536 + (hi - 55296) * 1024 + (lo - 56320))%N.

(** [t0] in front of what was read. *)
Definition prepend (t0 : string) (o : option (string * string))
  : option (string * string) :=
  match o with
  | Some (t, rest) => Some (t0 ++ t, rest)
  | None => None
  end.

Definition unescape (c : ascii) : option ascii :=
  if Ascii.eqb c dquote then Some dquote
  else if Ascii.eqb c "\" then Some "\"%char
  else if Ascii.eqb c "/" then Some "/"%char
  else if Ascii.eqb c "b" then Some "008"%char
  else if Ascii.eqb c "f" then Some "012"%char
  else if Ascii.eqb c "n" then Some "010"%char
  else if Ascii.eqb c "r" then Some "013"%char
  else if Ascii.eqb c "t" then Some "009"%char
  else None.

(** The characters of a string literal after its opening quote, up to
    and including the closing quote.  An escaped high surrogate with an
    escaped low surrogate right after it is one code point. *)
Fixpoint read_string (s : string) : option (string * string) :=
  match s with
  | EmptyString => None
  | String c r =>
      if Ascii.eqb c dquote then Some (EmptyString, r)
      else if Ascii.eqb c "\" then
        match r with
        | String "u" (String h1 (String h2 (String h3 (String h4 r')))) =>
            match hex4 h1 h2 h3 h4 with
            | Some u =>
                match r' with
                | String b1 (String b2 (String l1 (String l2
                    (String l3 (String l4 r''))))) =>
                    match
                      (if Ascii.eqb b1 "\" && Ascii.eqb b2 "u" && is_high u
                       then hex4 l1 l2 l3 l4 else None)
                    with
                    | Some lo =>
                        if is_low lo
                        then prepend (utf8 (paired u lo)) (read_string r'')
                        else prepend (utf8 u) (read_string r')
                    | None => prepend (utf8 u) (read_string r')
                    end
                | _ => prepend (utf8 u) (read_string r')
                end
            | None => None
            end
        | String e r' =>
            match unescape e with
            | Some ch => prepend (String ch EmptyString) (read_string r')
            | None => None
            end
        | EmptyString => None
        end
      else if (code c <? 32)%N then None
      else prepend (String c EmptyString) (read_string r)
  end.

(** The integer part of a number literal: a zero, or digits that do not
    start with one. *)
Definition read_int (s : string) : option (N * string) :=
  match s with
  | String c r =>
      if Ascii.eqb c "0" then Some (0%N, r)
      else
        let '(v, cnt, rest) := read_digits s 0%N 0%nat in
        match cnt with
        | O => None
        | S _ => Some (v, rest)
        end
  | EmptyString => None
  end.

(** An optional fraction, a point and at least one digit: the digits are
    accumulated onto the integer part and counted. *)
Definition read_frac (ip : N) (s : string) : option (N * nat * string) :=
  match s with
  | String c r =>
      if Ascii.eqb c "." then
        let '(v, cnt, rest) := read_digits r ip 0%nat in
        match cnt with
        | O => None
        | S _ => Some (v, cnt, rest)
        end
      else Some (ip, 0%nat, s)
  | EmptyString => Some (ip, 0%nat, s)
  end.

(** An optional exponent: a mark, an optional sign, at least one digit. *)
Definition read_exp (s : string) : option (Z * string) :=
  match s with
  | String c r =>
      if (Ascii.eqb c "e" || Ascii.eqb c "E")%bool then
        let '(neg, r') := ParseFloat.read_sign r in
        let '(v, cnt, rest) := read_digits r' 0%N 0%nat in
        match cnt with
        | O => None
        | S _ => Some (if neg then - Z.of_N v else Z.of_N v, rest)
        end
      else Some (0, s)
  | EmptyString => Some (0, s)
  end.

(** A number literal: an optional minus sign, the integer part, an
    optional fraction and an optional exponent. *)
Definition read_number (s : string) : option (number * string) :=
  let '(neg, s0) :=
    match s with
    | String c r => if Ascii.eqb c "-" then (true, r) else (false, s)
    | EmptyString => (false, s)
    end in
  match read_int s0 with
  | None => None
  | Some (ip, s1) =>
      match read_frac ip s1 with
      | None => None
      | Some (m, nf, s2) =>
          match read_exp s2 with
          | None => None
          | Some (ex, rest) =>
              Some (Num.of_decimal neg m (ex - Z.of_nat nf), rest)
          end
      end
  end.

(** The character [c] after optional white space: what follows it. *)
Definition expect (c : ascii) (s : string) : option string :=
  match skip_ws s with
  | String d r => if Ascii.eqb d c then Some r else None
  | EmptyString => None
  end.

Definition read_literal (s : string) : option (json * string) :=
  match strip_prefix "null" s, strip_prefix "true" s,
        strip_prefix "false" s with
  | Some rest, _, _ => Some (JNull, rest)
  | _, Some rest, _ => Some (JBool true, rest)
  | _, _, Some rest => Some (JBool false, rest)
  | None, None, None =>
      match read_number s with
      | Some (x, rest) => Some (JNum x, rest)
      | None => None
      end
  end.

(** A property name that is an array index: the decimal text, without a
    leading zero, of an integer below [2^32 - 1]. *)
Definition array_index (k : string) : option N :=
  match k with
  | EmptyString => None
  | String c r =>
      let '(v, _, rest) := read_digits k 0%N 0%nat in
      match rest with
      | EmptyString =>
          if (negb (Ascii.eqb c "0") || (String.length r =? 0)%nat)
             && (v <? 4294967295)%N
          then Some v else None
      | String _ _ => None
      end
  end.

(** [k] is listed before [k']: array indices come first, in ascending
    order, the other names after them in the order of their creation. *)
Definition listed_before (k k' : string) : bool :=
  match array_index k, array_index k' with
  | Some i, Some j => (i <? j)%N
  | Some _, None => true
  | None, _ => false
  end.

(** [CreateDataProperty] on the object under construction: a name that is
    there already keeps its place and takes the new value. *)
Fixpoint put_member (k : string) (v : json) (l : list (string * json))
  : list (string * json) :=
  match l with
  | [] => [(k, v)]
  | (k', v') :: r =>
      if String.eqb k' k then (k, v) :: r
      else if listed_before k k' then (k, v) :: l
      else (k', v') :: put_member k v r
  end.

(** Recursive descent; every call spends one unit of [fuel] and every
    nested call follows at least one consumed character. *)
Fixpoint read_value (fuel : nat) (s : string) : option (json * string) :=
  match fuel with
  | O => None
  | S f =>
      match skip_ws s with
      | EmptyString => None
      | String c r =>
          if Ascii.eqb c "[" then
            match expect "]" r with
            | Some r' => Some (JArr [], r')
            | None => read_elements f r []
            end
          else if Ascii.eqb c "{" then
            match expect "}" r with
            | Some r' => Some (JObj [], r')
            | None => read_members f r []
            end
          else if Ascii.eqb c dquote then
            match read_string r with
            | Some (t, rest) => Some (JStr t, rest)
            | None => None
            end
          else read_literal (String c r)
      end
  end
with read_elements (fuel : nat) (s : string) (acc : list json)
  : option (json * string) :=
  match fuel with
  | O => None
  | S f =>
      match read_value f s with
      | Some (v, r) =>
          match expect "," r with
          | Some r' => read_elements f r' (v :: acc)
          | None =>
              match expect "]" r with
              | Some r' => Some (JArr (rev (v :: acc)), r')
              | None => None
              end
          end
      | None => None
      end
  end
with read_members (fuel : nat) (s : string) (acc : list (string * json))
  : option (json * string) :=
  match fuel with
  | O => None
  | S f =>
      match expect dquote s with
      | Some r =>
          match read_string r with
          | Some (k, r1) =>
              match expect ":" r1 with
              | Some r2 =>
                  match read_value f r2 with
                  | Some (v, r3) =>
                      match expect "," r3 with
                      | Some r4 => read_members f r4 (put_member k v acc)
                      | None =>
                          match expect "}" r3 with
                          | Some r4 => Some (JObj (put_member k v acc), r4)
                          | None => None
                          end
                      end
                  | None => None
                  end
              | None => None
              end
          | None => None
          end
      | None => None
      end
  end.

(** [JSON.parse]: one value, white space around it, nothing after. *)
Definition parse (text : string) : completion json :=
  match read_value (2 * String.length text + 2) text with
  | Some (v, rest) =>
      match skip_ws rest with
      | EmptyString => Normal v
      | _ => Throw
      end
  | None => Throw
  end.

End JSON.

(** ** [Number::toString] and [JSON.stringify] *)

Module NumberToString.
Import Text.

Definition number_eqb (x y : number) : bool :=
  match x, y with
  | S754_nan, S754_nan => true
  | S754_zero a, S754_zero b => Bool.eqb a b
  | S754_infinity a, S754_infinity b => Bool.eqb a b
  | S754_finite a m e, S754_finite b m' e' =>
      Bool.eqb a b && Pos.eqb m m' && Z.eqb e e'
  | _, _ => false
  end.

(** [m * 2^e] as a fraction of integers. *)
Definition ratio (m : positive) (e : Z) : Z * Z :=
  if 0 <=? e then (Zpos m * 2 ^ e, 1) else (Zpos m, 2 ^ (- e)).

(** [10^n <= num / den]. *)
Definition ge_pow10 (num den n : Z) : bool :=
  if 0 <=? n then den * 10 ^ n <=? num else den <=? num * 10 ^ (- n).

Fixpoint raise (fuel : nat) (num den n : Z) : Z :=
  match fuel with
  | O => n
  | S f => if ge_pow10 num den n then raise f num den (n + 1) else n
  end.

Fixpoint lower (fuel : nat) (num den n : Z) : Z :=
  match fuel with
  | O => n
  | S f => if ge_pow10 num den (n - 1) then n else lower f num den (n - 1)
  end.

(** The [n] with [10^(n-1) <= num / den < 10^n]. *)
Definition magnitude (m : positive) (e : Z) : Z :=
  let '(num, den) := ratio m e in
  let est := (Z.log2 (Zpos m) + e) * 30103 / 100000 in
  lower 700 num den (raise 700 num den est).

(** [num / den * 10^p] as a fraction of integers. *)
Definition scaled (num den p : Z) : Z * Z :=
  if 0 <=? p then (num * 10 ^ p, den) else (num, den * 10 ^ (- p)).

(** The digits [d] of [0.d * 10^n] with [k] digits: a [d] that has
    reached [10^k] is [10^(k-1)] one place higher. *)
Definition normal (d n k : Z) : Z * Z :=
  if d =? 10 ^ k then (10 ^ (k - 1), n + 1) else (d, n).

(** The decimal [0.d * 10^n] of [k] digits is read as [x]. *)
Definition reads_back (x : number) (k : Z) (dn : Z * Z) : bool :=
  number_eqb (Num.of_decimal false (Z.to_N (fst dn)) (snd dn - k)) x.

(** The [k]-digit decimals next to [num / den]: the one that is read as
    [x], the nearer one (the even one on a tie) if both are. *)
Definition candidate (x : number) (num den n k : Z) : option (Z * Z) :=
  let '(a, b) := scaled num den (k - n) in
  let lo := normal (a / b) n k in
  let hi := normal (a / b + 1) n k in
  let nearer_lo :=
    (2 * a <? (2 * (a / b) + 1) * b)
    || ((2 * a =? (2 * (a / b) + 1) * b) && Z.even (a / b)) in
  match reads_back x k lo, reads_back x k hi with
  | true, true => Some (if nearer_lo then lo else hi)
  | true, false => Some lo
  | false, true => Some hi
  | false, false => None
  end.

(** The fewest digits that are read as [x], from [k] digits on. *)
Fixpoint shortest (fuel : nat) (x : number) (num den n k : Z) : Z * Z :=
  match fuel with
  | O => let '(a, b) := scaled num den (k - n) in (a / b, n)
  | S f =>
      match candidate x num den n k with
      | Some dn => dn
      | None => shortest f x num den n (k + 1)
      end
  end.

(** How many digits the exact decimal expansion of [m * 2^e] has, given
    its magnitude [n]: no search for digits goes further. *)
Definition exact_digits (e n : Z) : Z := n + Z.max 0 (- e).

(** Decimal or exponent layout of the digit string [digits] for
    [0.digits * 10^n]. *)
Definition layout (digits : string) (n : Z) : string :=
  let k := Z.of_nat (String.length digits) in
  if (k <=? n) && (n <=? 21) then
    digits ++ repeat_char "0" (Z.to_nat (n - k))
  else if (0 <? n) && (n <=? 21) then
    take (Z.to_nat n) digits ++ "." ++ drop (Z.to_nat n) digits
  else if (-6 <? n) && (n <=? 0) then
    "0." ++ repeat_char "0" (Z.to_nat (- n)) ++ digits
  else
    let e := n - 1 in
    let es := (if 0 <=? e then "+" else "-") ++ string_of_N (Z.abs_N e) in
    match digits with
    | EmptyString => EmptyString
    | String d EmptyString => String d ("e" ++ es)
    | String d rest => String d ("." ++ rest ++ "e" ++ es)
    end.

Definition toString (x : number) : string :=
  match x with
  | S754_nan => "NaN"
  | S754_zero _ => "0"
  | S754_infinity s => if s then "-Infinity" else "Infinity"
  | S754_finite s m e =>
      let '(num, den) := ratio m e in
      let n := magnitude m e in
      let '(d, n') :=
        shortest (Z.to_nat (exact_digits e n)) (S754_finite false m e)
                 num den n 1 in
      (if s then "-" else EmptyString) ++ layout (string_of_N (Z.to_N d)) n'
  end.

End NumberToString.

Module Stringify.
Import Text.

Definition hex_digit (n : N) : ascii :=
  if (n <? 10)%N then ascii_of_N (48 + n) else ascii_of_N (87 + n).

(** One character of a string, escaped as [JSON.stringify] does. *)
Definition escape (c : ascii) : string :=
  let one (a : ascii) := String a EmptyString in
  if Ascii.eqb c dquote then String "\" (one dquote)
  else if Ascii.eqb c "\" then "\\"
  else if Ascii.eqb c "008" then "\b"
  else if Ascii.eqb c "012" then "\f"
  else if Ascii.eqb c "010" then "\n"
  else if Ascii.eqb c "013" then "\r"
  else if Ascii.eqb c "009" then "\t"
  else if (code c <? 32)%N then
    "\u00" ++ String (hex_digit (code c / 16)) (one (hex_digit (code c mod 16)))
  else one c.

Fixpoint escape_all (s : string) : string :=
  match s with
  | EmptyString => EmptyString
  | String c r => escape c ++ escape_all r
  end.

Definition join (sep : string) (l : list string) : string :=
  match l with
  | [] => EmptyString
  | x :: r => fold_left (fun acc y => acc ++ sep ++ y) r x
  end.

(** [JSON.stringify] without indentation; a number that is not finite
    is written [null]. *)
Fixpoint stringify (v : json) : string :=
  match v with
  | JNull => "null"
  | JBool b => if b then "true" else "false"
  | JNum x => if Num.is_finite x then NumberToString.toString x else "null"
  | JStr s => quoted (escape_all s)
  | JArr l => "[" ++ join "," (map stringify l) ++ "]"
  | JObj l =>
      "{" ++ join ","
               (map (fun kv => quoted (escape_all (fst kv)) ++ ":"
                               ++ stringify (snd kv)) l)
          ++ "}"
  end.

End Stringify.

(** ** The page address

    [new URL(window.location.href).searchParams]: the ordered list of the
    decoded query pairs.  [get] returns the first value under a name; [set]
    overwrites the first pair of that name, drops the others, and appends a
    pair when there is none. *)

Module SearchParams.

Definition t : Type := list (string * string).

Fixpoint get (key : string) (ps : t) : option string :=
  match ps with
  | [] => None
  | (k, v) :: r => if String.eqb k key then Some v else get key r
  end.

Fixpoint remove (key : string) (ps : t) : t :=
  match ps with
  | [] => []
  | (k, v) :: r =>
      if String.eqb k key then remove key r else (k, v) :: remove key r
  end.

Fixpoint set (key value : string) (ps : t) : t :=
  match ps with
  | [] => [(key, value)]
  | (k, v) :: r =>
      if String.eqb k key then (key, value) :: remove key r
      else (k, v) :: set key value r
  end.

End SearchParams.

(** ** Settings and their persistence *)

Record Settings : Type := {
  name : string;
  fontLoadingCode : string;
  fontFamily : string;
  isItalic : string;
  isBold : string;
  fontColor : string;
  fontSize : string;
  coordinates : number * number
}.

Definition is_empty (s : string) : bool :=
  match s with
  | EmptyString => true
  | String _ _ => false
  end.

(** [null] is [None]: a missing parameter and an empty one read alike. *)
Definition loadStringParam (url : SearchParams.t) (key : string)
  : option string :=
  match SearchParams.get key url with
  | None => None
  | Some value => if is_empty value then None else Some value
  end.

(** [null] is [JNull]; text that is not JSON makes [JSON.parse] throw. *)
Definition loadObjectParam (url : SearchParams.t) (key : string)
  : completion json :=
  match SearchParams.get key url with
  | None => Normal JNull
  | Some value => if is_empty value then Normal JNull else JSON.parse value
  end.

(** [a || d] where [a] is a string or [null]. *)
Definition string_or (a : option string) (d : string) : string :=
  match a with
  | Some v => if is_empty v then d else v
  | None => d
  end.

Definition json_or (a d : json) : json := if JSON.truthy a then a else d.

Definition pair_json (c : number * number) : json :=
  JArr [JNum (fst c); JNum (snd c)].

Definition default_coordinates : number * number := (Num.half, Num.half).

(** How the script's top level ends.  The reference [coordinates] is
    declared a pair of numbers and the parsed value is stored unchecked: a
    truthy value of another shape is [Mistyped], and the embedding follows
    the script no further from there. *)
Inductive startup : Type :=
| Started (s : Settings)
| SyntaxError
| Mistyped (v : json).

Definition loadSettings (url : SearchParams.t) : startup :=
  let name := string_or (loadStringParam url "name") "Tan Ah Kow" in
  let fontLoadingCode :=
    string_or (loadStringParam url "fontLoadingCode") EmptyString in
  let fontFamily := string_or (loadStringParam url "fontFamily") "sans-serif" in
  let isItalic := string_or (loadStringParam url "isItalic") EmptyString in
  let isBold := string_or (loadStringParam url "isBold") EmptyString in
  let fontColor := string_or (loadStringParam url "fontColor") "#000000" in
  let fontSize := string_or (loadStringParam url "fontSize") "14" in
  match loadObjectParam url "coordinates" with
  | Throw => SyntaxError
  | Normal v =>
      match json_or v (pair_json default_coordinates) with
      | JArr [JNum x; JNum y] =>
          Started {| name := name; fontLoadingCode := fontLoadingCode;
                     fontFamily := fontFamily; isItalic := isItalic;
                     isBold := isBold; fontColor := fontColor;
                     fontSize := fontSize; coordinates := (x, y) |}
      | other => Mistyped other
      end
  end.

(** The object literal of [saveSettings], in the order of its keys. *)
Definition settingsToSave (s : Settings) : list (string * json) :=
  [ ("fontFamily", JStr (fontFamily s));
    ("isBold", JStr (isBold s));
    ("isItalic", JStr (isItalic s));
    ("fontLoadingCode", JStr (fontLoadingCode s));
    ("fontSize", JStr (fontSize s));
    ("fontColor", JStr (fontColor s));
    ("name", JStr (name s));
    ("coordinates", pair_json (coordinates s)) ].

(** A string is stored as it is, anything else as its JSON text. *)
Definition param_text (v : json) : string :=
  match v with
  | JStr s => s
  | _ => Stringify.stringify v
  end.

(** The body of the debounced [saveSettings]: the address it installs with
    [replaceState], given the address it starts from. *)
Definition saveSettings (s : Settings) (url : SearchParams.t)
  : SearchParams.t :=
  fold_left (fun u kv => SearchParams.set (fst kv) (param_text (snd kv)) u)
            (settingsToSave s) url.

(** *** The references as the script holds them

    [coordinates] is declared a pair of numbers, yet the top level stores
    whatever [JSON.parse] gave, and [saveSettings] asks each value for its
    type.  [Refs] holds the value of [coordinates] as the JSON value it
    is; the text references are as in [Settings]. *)
Record Refs : Type := {
  ref_name : string;
  ref_fontLoadingCode : string;
  ref_fontFamily : string;
  ref_isItalic : string;
  ref_isBold : string;
  ref_fontColor : string;
  ref_fontSize : string;
  ref_coordinates : json
}.

(** The script's top level, lines 30 to 37. *)
Definition loadRefs (url : SearchParams.t) : completion Refs :=
  match loadObjectParam url "coordinates" with
  | Throw => Throw
  | Normal v =>
      Normal
        {| ref_name := string_or (loadStringParam url "name") "Tan Ah Kow";
           ref_fontLoadingCode :=
             string_or (loadStringParam url "fontLoadingCode") EmptyString;
           ref_fontFamily :=
             string_or (loadStringParam url "fontFamily") "sans-serif";
           ref_isItalic := string_or (loadStringParam url "isItalic") EmptyString;
           ref_isBold := string_or (loadStringParam url "isBold") EmptyString;
           ref_fontColor := string_or (loadStringParam url "fontColor") "#000000";
           ref_fontSize := string_or (loadStringParam url "fontSize") "14";
           ref_coordinates := json_or v (pair_json default_coordinates) |}
  end.

Definition refsToSave (r : Refs) : list (string * json) :=
  [ ("fontFamily", JStr (ref_fontFamily r));
    ("isBold", JStr (ref_isBold r));
    ("isItalic", JStr (ref_isItalic r));
    ("fontLoadingCode", JStr (ref_fontLoadingCode r));
    ("fontSize", JStr (ref_fontSize r));
    ("fontColor", JStr (ref_fontColor r));
    ("name", JStr (ref_name r));
    ("coordinates", ref_coordinates r) ].

(** The body of the debounced [saveSettings] on the references: a value
    of [coordinates] that is a string goes into the address as it is. *)
Definition saveRefs (r : Refs) (url : SearchParams.t) : SearchParams.t :=
  fold_left (fun u kv => SearchParams.set (fst kv) (param_text (snd kv)) u)
            (refsToSave r) url.

(** Settings, as references. *)
Definition held (s : Settings) : Refs :=
  {| ref_name := name s; ref_fontLoadingCode := fontLoadingCode s;
     ref_fontFamily := fontFamily s; ref_isItalic := isItalic s;
     ref_isBold := isBold s; ref_fontColor := fontColor s;
     ref_fontSize := fontSize s;
     ref_coordinates := pair_json (coordinates s) |}.

(** ** The card renderer *)

(** [imageSize]: the [width] and [height] of a decoded image element,
    unsigned integers in the DOM, numbers once the script multiplies by
    them. *)
Record ImageSize : Type := { width : N; height : N }.

Definition anchor (sz : ImageSize) (c : number * number) : number * number :=
  (Num.mul (Num.of_N (width sz)) (fst c),
   Num.mul (Num.of_N (height sz)) (snd c)).

Definition effectiveSize (fontSize : string) (sz : ImageSize) : number :=
  Num.mul (Num.div (Num.or_else (parseFloat fontSize) (Num.of_Z 14))
                   (Num.of_Z 600))
          (Num.of_N (height sz)).

(** What one run draws: the image at the origin and one centred text. *)
Record Card : Type := {
  card_image : string;
  card_size : ImageSize;
  card_font : string;
  card_fill : string;
  card_text : string;
  card_align : string;
  card_at : number * number
}.

Definition font_of (s : Settings) (size : number) : string :=
  (if is_empty (isItalic s) then EmptyString else "italic") ++ " "
  ++ (if is_empty (isBold s) then EmptyString else "bold") ++ " "
  ++ NumberToString.toString size ++ "px " ++ Text.quoted (fontFamily s).

(** The body of the debounced [generateInvitationCard], once the image
    behind [rawImageDataURL] has been decoded to [sz]. *)
Definition generateInvitationCard (raw : string) (sz : ImageSize)
           (s : Settings) : Card :=
  {| card_image := raw;
     card_size := sz;
     card_font := font_of s (effectiveSize (fontSize s) sz);
     card_fill := fontColor s;
     card_text := name s;
     card_align := "center";
     card_at := anchor sz (coordinates s) |}.

(** ** Repositioning by a click on the preview *)

(** What the handler reads of the mouse event and of its target. *)
Record Click : Type := {
  offsetX : number;
  offsetY : number;
  clientWidth : number;
  clientHeight : number
}.

Definition with_coordinates (c : number * number) (s : Settings) : Settings :=
  {| name := name s; fontLoadingCode := fontLoadingCode s;
     fontFamily := fontFamily s; isItalic := isItalic s; isBold := isBold s;
     fontColor := fontColor s; fontSize := fontSize s; coordinates := c |}.

Definition handleUpdatePosition (evt : Click) (s : Settings) : Settings :=
  with_coordinates (Num.div (offsetX evt) (clientWidth evt),
                    Num.div (offsetY evt) (clientHeight evt)) s.

(** ** Font loading *)

(** [code.match(re)] for the script's pattern: the text [<link href=], a
    quotation mark, a greedy capture of characters other than line
    terminators, and a closing quotation mark.  The leftmost position
    that matches wins; there the capture runs to the last quotation mark
    of the line. *)
Module Pattern.
Import Text.

Definition opening : string := "<link href=" ++ String dquote EmptyString.

(** A line terminator starts here: LF, CR, or the UTF-8 bytes of U+2028
    or U+2029. *)
Definition at_line_terminator (s : string) : bool :=
  match s with
  | String c r =>
      Ascii.eqb c LF || Ascii.eqb c CR
      || match c, r with
         | "226"%char, String "128"%char (String d _) =>
             Ascii.eqb d "168" || Ascii.eqb d "169"
         | _, _ => false
         end
  | EmptyString => false
  end.

(** The stretch the dot can cross. *)
Fixpoint line (s : string) : string :=
  match s with
  | EmptyString => EmptyString
  | String c r =>
      if at_line_terminator s then EmptyString else String c (line r)
  end.

(** What stands before the last quotation mark of [l]. *)
Fixpoint before_last_quote (l : string) : option string :=
  match l with
  | EmptyString => None
  | String c r =>
      match before_last_quote r with
      | Some t => Some (String c t)
      | None => if Ascii.eqb c dquote then Some EmptyString else None
      end
  end.

Definition match_here (s : string) : option string :=
  match strip_prefix opening s with
  | Some rest => before_last_quote (line rest)
  | None => None
  end.

(** The first capture group of the leftmost match, if the pattern
    matches at all. *)
Fixpoint match_link_href (s : string) : option string :=
  match match_here s with
  | Some captured => Some captured
  | None =>
      match s with
      | String _ r => match_link_href r
      | EmptyString => None
      end
  end.

End Pattern.

(** lodash's [uniq] keeps first occurrences; [sortBy] is a stable
    ascending sort by the language's [<] and [>], which on strings compare
    UTF-16 code units. *)
Module Lodash.

Fixpoint uniq (l : list string) : list string :=
  match l with
  | [] => []
  | x :: r => x :: List.filter (fun y => negb (String.eqb x y)) (uniq r)
  end.

(** The first difference decides; without one, the shorter comes first. *)
Fixpoint units_ltb (a b : list N) : bool :=
  match a, b with
  | _, [] => false
  | [], _ :: _ => true
  | x :: a', y :: b' => ((x <? y) || (x =? y) && units_ltb a' b')%N
  end.

(** [x < y] on strings. *)
Definition ltb (x y : string) : bool :=
  units_ltb (Text.code_units x) (Text.code_units y).

Fixpoint insert_sorted (x : string) (l : list string) : list string :=
  match l with
  | [] => [x]
  | y :: r => if ltb x y then x :: l else y :: insert_sorted x r
  end.

Definition sortBy (l : list string) : list string :=
  fold_left (fun acc x => insert_sorted x acc) l [].

End Lodash.

Record Link : Type := { href : string; rel : string }.

(** The references of the component and the two objects it shares with the
    page: the module-level map [loadedFonts] and the links appended to the
    document head.  [polling] counts the polling loops still running. *)
Record App : Type := {
  settings : Settings;
  errors : gmap string string;
  loadedFonts : gmap string bool;
  head_links : list Link;
  availableFontFaces : list string;
  polling : nat
}.

(** How many of the links point to [url]. *)
Definition links_to (url : string) (links : list Link) : nat :=
  length (List.filter (fun l => String.eqb (href l) url) links).

Definition not_found : string :=
  "Could not find the stylesheet URL in font loading code".

(** [handleFontLoadingCode] up to its first [await].  [url] is [undefined]
    when the pattern has no match; the test [!url] holds for [undefined]
    and for an empty capture alike. *)
Definition handleFontLoadingCode (st : App) : App :=
  let code := fontLoadingCode (settings st) in
  let url := string_or (Pattern.match_link_href code) EmptyString in
  if is_empty url then
    {| settings := settings st;
       errors := <["fontLoadingCode" := not_found]> (errors st);
       loadedFonts := loadedFonts st;
       head_links := head_links st;
       availableFontFaces := availableFontFaces st;
       polling := polling st |}
  else if bool_decide (is_Some (loadedFonts st !! url)) then st
  else
    {| settings := settings st;
       errors := errors st;
       loadedFonts := <[url := true]> (loadedFonts st);
       head_links := head_links st ++ [{| href := url; rel := "stylesheet" |}];
       availableFontFaces := availableFontFaces st;
       polling := S (polling st) |}.

Definition LIVES : Z := 5.
Definition POLL_MS : Z := 500.

(** The polling loop.  [size i] is [document.fonts.size] as the [i]-th
    pass reads it; every pass ends with a wait of [POLL_MS].  The result
    is the number of passes made when the loop is left; without enough
    [fuel] there is none. *)

Fixpoint poll (fuel : nat) (size : nat -> N) (i : nat)
         (lastSize livesRemaining : Z) : option nat :=
  if 0 <? livesRemaining then
    match fuel with
    | O => None
    | S f =>
        let sz := Z.of_N (size i) in
        if sz =? lastSize then poll f size (S i) lastSize (livesRemaining - 1)
        else poll f size (S i) sz LIVES
    end
  else Some i.

Definition polling_passes (fuel : nat) (size : nat -> N) : option nat :=
  poll fuel size 0%nat (-1) LIVES.

(** The end of [handleFontLoadingCode], after its loop: the families of
    [document.fonts] become the list of available faces. *)
Definition syncFonts (families : list string) (st : App) : App :=
  {| settings := settings st;
     errors := errors st;
     loadedFonts := loadedFonts st;
     head_links := head_links st;
     availableFontFaces := Lodash.sortBy (Lodash.uniq families);
     polling := Nat.pred (polling st) |}.

(** ** The component as a transition system *)

Definition with_settings (s : Settings) (st : App) : App :=
  {| settings := s;
     errors := errors st;
     loadedFonts := loadedFonts st;
     head_links := head_links st;
     availableFontFaces := availableFontFaces st;
     polling := polling st |}.

Definition with_fontLoadingCode (v : string) (s : Settings) : Settings :=
  {| name := name s; fontLoadingCode := v; fontFamily := fontFamily s;
     isItalic := isItalic s; isBold := isBold s; fontColor := fontColor s;
     fontSize := fontSize s; coordinates := coordinates s |}.

Definition with_name (v : string) (s : Settings) : Settings :=
  {| name := v; fontLoadingCode := fontLoadingCode s;
     fontFamily := fontFamily s; isItalic := isItalic s; isBold := isBold s;
     fontColor := fontColor s; fontSize := fontSize s;
     coordinates := coordinates s |}.

Definition with_fontFamily (v : string) (s : Settings) : Settings :=
  {| name := name s; fontLoadingCode := fontLoadingCode s; fontFamily := v;
     isItalic := isItalic s; isBold := isBold s; fontColor := fontColor s;
     fontSize := fontSize s; coordinates := coordinates s |}.

Definition with_isItalic (v : string) (s : Settings) : Settings :=
  {| name := name s; fontLoadingCode := fontLoadingCode s;
     fontFamily := fontFamily s; isItalic := v; isBold := isBold s;
     fontColor := fontColor s; fontSize := fontSize s;
     coordinates := coordinates s |}.

Definition with_isBold (v : string) (s : Settings) : Settings :=
  {| name := name s; fontLoadingCode := fontLoadingCode s;
     fontFamily := fontFamily s; isItalic := isItalic s; isBold := v;
     fontColor := fontColor s; fontSize := fontSize s;
     coordinates := coordinates s |}.

Definition with_fontColor (v : string) (s : Settings) : Settings :=
  {| name := name s; fontLoadingCode := fontLoadingCode s;
     fontFamily := fontFamily s; isItalic := isItalic s; isBold := isBold s;
     fontColor := v; fontSize := fontSize s; coordinates := coordinates s |}.

Definition with_fontSize (v : string) (s : Settings) : Settings :=
  {| name := name s; fontLoadingCode := fontLoadingCode s;
     fontFamily := fontFamily s; isItalic := isItalic s; isBold := isBold s;
     fontColor := fontColor s; fontSize := v; coordinates := coordinates s |}.

(** What the template wires to the script. *)
Inductive event : Type :=
| InputName (v : string)
| InputFontFamily (v : string)
| InputBold (checked : bool)
| InputItalic (checked : bool)
| InputFontSize (v : string)
| InputFontColor (v : string)
| InputFontLoadingCode (v : string)
| ChangeFontLoadingCode
| ClickPreview (evt : Click)
| PollingDone (families : list string).

Definition flag (checked : bool) : string :=
  if checked then "1" else EmptyString.

Definition step (st : App) (e : event) : App :=
  match e with
  | InputName v => with_settings (with_name v (settings st)) st
  | InputFontFamily v => with_settings (with_fontFamily v (settings st)) st
  | InputBold b => with_settings (with_isBold (flag b) (settings st)) st
  | InputItalic b => with_settings (with_isItalic (flag b) (settings st)) st
  | InputFontSize v => with_settings (with_fontSize v (settings st)) st
  | InputFontColor v => with_settings (with_fontColor v (settings st)) st
  | InputFontLoadingCode v =>
      with_settings (with_fontLoadingCode v (settings st)) st
  | ChangeFontLoadingCode => handleFontLoadingCode st
  | ClickPreview evt =>
      with_settings (handleUpdatePosition evt (settings st)) st
  | PollingDone families =>
      match polling st with
      | O => st
      | S _ => syncFonts families st
      end
  end.

Definition run (st : App) (es : list event) : App := fold_left step es st.

(** The state the script's top level leaves: the settings of the address,
    empty maps, and one call of [handleFontLoadingCode] when the address
    carries font loading code. *)
Definition mount (s : Settings) : App :=
  let st := {| settings := s; errors := ∅; loadedFonts := ∅;
               head_links := []; availableFontFaces := []; polling := 0 |} in
  if is_empty (fontLoadingCode s) then st else handleFontLoadingCode st.

(** ** The sync controller: [watch] and the two debounced functions *)

Module Sync.

Definition WAIT : Z := 1000.

(** What a debounced function did, when, and with which settings.  The
    renderer reads the settings once the image is decoded; decoding takes
    no time here. *)
Inductive action : Type :=
| Render (time : Z) (snapshot : Settings)
| Persist (time : Z) (snapshot : Settings).

(** lodash's [debounce(f, WAIT)] in its default, trailing mode holds at
    most one timer, due [WAIT] after the latest call; [f] runs when the
    timer is due and reads the references as they are then. *)
Record state : Type := {
  current : Settings;
  render_due : option Z;
  persist_due : option Z;
  performed : list action
}.

(** [Changed s]: one of the references listed in [watch] was assigned and
    the settings are now [s] (a newly picked image is such a change, with
    the settings as they were).  [Edited s]: the font loading code was
    edited and the settings are now [s]; [fontLoadingCode] is not in the
    list of [watch].  [LoadingDone]: [document.fonts] fired
    [loadingdone]. *)
Inductive trigger : Type :=
| Changed (s : Settings)
| Edited (s : Settings)
| LoadingDone.

(** Timers due by [now] run, the render timer first. *)
Definition advance (now : Z) (st : state) : state :=
  let st1 :=
    match render_due st with
    | Some t =>
        if t <=? now then
          {| current := current st; render_due := None;
             persist_due := persist_due st;
             performed := performed st ++ [Render t (current st)] |}
        else st
    | None => st
    end in
  match persist_due st1 with
  | Some t =>
      if t <=? now then
        {| current := current st1; render_due := render_due st1;
           persist_due := None;
           performed := performed st1 ++ [Persist t (current st1)] |}
      else st1
  | None => st1
  end.

(** The callback of [watch] calls both debounced functions; an edit of
    the font loading code calls neither; the [loadingdone] listener calls
    the renderer's only. *)
Definition occur (st : state) (ev : Z * trigger) : state :=
  let '(now, tr) := ev in
  let st' := advance now st in
  match tr with
  | Changed s =>
      {| current := s; render_due := Some (now + WAIT);
         persist_due := Some (now + WAIT); performed := performed st' |}
  | Edited s =>
      {| current := s; render_due := render_due st';
         persist_due := persist_due st'; performed := performed st' |}
  | LoadingDone =>
      {| current := current st'; render_due := Some (now + WAIT);
         persist_due := persist_due st'; performed := performed st' |}
  end.

Definition play (st : state) (evs : list (Z * trigger)) : state :=
  fold_left occur evs st.

(** Nothing more happens: the pending timers run when they are due. *)
Definition settle (st : state) : state :=
  let st1 :=
    match render_due st with
    | Some t =>
        {| current := current st; render_due := None;
           persist_due := persist_due st;
           performed := performed st ++ [Render t (current st)] |}
    | None => st
    end in
  match persist_due st1 with
  | Some t =>
      {| current := current st1; render_due := render_due st1;
         persist_due := None;
         performed := performed st1 ++ [Persist t (current st1)] |}
  | None => st1
  end.

Definition idle (s : Settings) : state :=
  {| current := s; render_due := None; persist_due := None;
     performed := [] |}.

(** Consecutive events less than [WAIT] apart, in time order. *)
Fixpoint close_together (t : Z) (evs : list (Z * Settings)) : Prop :=
  match evs with
  | [] => True
  | (t', _) :: r => t <= t' /\ t' - t < WAIT /\ close_together t' r
  end.

End Sync.

(** ** Exact values *)

(** The value of a finite number, as a fraction. *)
Definition value (x : number) : Q :=
  match x with
  | S754_finite s m e =>
      ((if s then -1 else 1) * inject_Z (Zpos m) * 2 ^ e)%Q
  | _ => 0%Q
  end.

(** ** The specification's wording, for comparison *)

Module Claimed.
Import Text.



(** Follows the specification: the numeric size, 14 if unparsable. *)
Definition sizePt (fontSize : string) : number :=
  match parseFloat fontSize with
  | S754_nan => Num.of_Z 14
  | x => x
  end.

Definition effectiveSize (fontSize : string) (sz : ImageSize) : number :=
  Num.mul (Num.div (sizePt fontSize) (Num.of_Z 600)) (Num.of_N (height sz)).

(** Follows the specification: the products of the relative position
    and the image dimensions, exactly. *)
Definition anchor (sz : ImageSize) (c : number * number) : Q * Q :=
  ((value (fst c) * inject_Z (Z.of_N (width sz)))%Q,
   (value (snd c) * inject_Z (Z.of_N (height sz)))%Q).

End Claimed.

(** ** Sample data *)

Module Sample.
Import Text.

Definition jane : Settings :=
  {| name := "Jane Doe"; fontLoadingCode := EmptyString;
     fontFamily := "sans-serif"; isItalic := EmptyString; isBold := "1";
     fontColor := "#000000"; fontSize := "30";
     coordinates := (Num.half, Num.of_decimal false 1 (-1)) |}.

Definition nameless : Settings := with_name EmptyString jane.

Definition photo : ImageSize := {| width := 1000; height := 800 |}.

(** The snippet in the order the pattern expects. *)
Definition href_first : string :=
  "<link href=" ++ quoted "https://fonts.example/css?family=Lobster"
  ++ " rel=" ++ quoted "stylesheet" ++ ">".

(** A link with its [href] alone. *)
Definition href_only : string :=
  "<link href=" ++ quoted "https://fonts.example/css?family=Lobster" ++ ">".


Definition fresh (code : string) : App :=
  {| settings := with_fontLoadingCode code jane; errors := ∅;
     loadedFonts := ∅; head_links := []; availableFontFaces := [];
     polling := 0 |}.

Definition inside : Click :=
  {| offsetX := Num.of_Z 150; offsetY := Num.of_Z 30;
     clientWidth := Num.of_Z 600; clientHeight := Num.of_Z 480 |}.

(** Jane's settings with the name a tenth of the way across and down. *)
Definition tenth : Settings :=
  with_coordinates (Num.of_decimal false 1 (-1), Num.of_decimal false 1 (-1))
                   jane.

End Sample.

(** ** Predicates of the statements *)

(** The pass [i] of the polling loop finds a size other than the one the
    pass before found; the first pass always does, the loop starts from
    [-1]. *)
Definition changed_at (size : nat -> N) (i : nat) : Prop :=
  match i with
  | O => True
  | S k => size (S k) <> size k
  end.

(** When pass [i] reads the size, counted from the start of the loop. *)
Definition pass_time (i : nat) : Z := POLL_MS * Z.of_nat i.

Definition as_changes (evs : list (Z * Settings)) : list (Z * Sync.trigger) :=
  map (fun ev => (fst ev, Sync.Changed (snd ev))) evs.

(** A finite number other than the negative zero. *)
Definition comes_back (x : number) : bool :=
  match x with
  | S754_zero s => negb s
  | S754_finite _ _ _ => true
  | _ => false
  end.

(** What a number saved by [JSON.stringify] is when [JSON.parse] has read
    it: a finite number is itself, but for the negative zero, written [0];
    an infinity and [NaN] are written [null]. *)
Definition reloaded (x : number) : json :=
  match x with
  | S754_zero _ => JNum (S754_zero false)
  | S754_finite _ _ _ => JNum x
  | _ => JNull
  end.

(** The references after a save and a reload that gives [position]: a
    text reference is itself, or its default where it was empty. *)
Definition resaved (r : Refs) (position : json) : Refs :=
  {| ref_name := string_or (Some (ref_name r)) "Tan Ah Kow";
     ref_fontLoadingCode := ref_fontLoadingCode r;
     ref_fontFamily := string_or (Some (ref_fontFamily r)) "sans-serif";
     ref_isItalic := ref_isItalic r;
     ref_isBold := ref_isBold r;
     ref_fontColor := string_or (Some (ref_fontColor r)) "#000000";
     ref_fontSize := string_or (Some (ref_fontSize r)) "14";
     ref_coordinates := position |}.

(** [x] is a double nearest to [q]: finite, and no finite double is
    nearer. *)
Definition nearest (q : Q) (x : number) : Prop :=
  Num.is_double x = true /\ Num.is_finite x = true
  /\ forall y, Num.is_double y = true -> Num.is_finite y = true ->
               (Qabs (value x - q) <= Qabs (value y - q))%Q.

(** The text has a quotation mark in it. *)
Definition has_quote (l : string) : Prop :=
  exists a b, l = a ++ String Text.dquote b.



(** Every link in the head was requested once, and every requested URL
    has its one link. *)
Definition links_match_requests (st : App) : Prop :=
  forall u, links_to u (head_links st)
            = if bool_decide (is_Some (loadedFonts st !! u)) then 1%nat else 0%nat.

(** Both timers wait for [t + WAIT]. *)
Definition waiting (t : Z) (s : Settings) (done : list Sync.action)
  : Sync.state :=
  {| Sync.current := s; Sync.render_due := Some (t + Sync.WAIT);
     Sync.persist_due := Some (t + Sync.WAIT); Sync.performed := done |}.

(** A click inside the preview: offsets from zero to the client size of
    the image, which is positive and finite. *)
Definition within (offset client : number) : bool :=
  Num.is_double offset && Num.is_double client && Num.is_finite client
  && Num.leb Num.zero offset && Num.leb offset client
  && Num.ltb Num.zero client.

Definition click_inside (evt : Click) : bool :=
  within (offsetX evt) (clientWidth evt)
  && within (offsetY evt) (clientHeight evt).

Definition clicks_inside (es : list event) : Prop :=
  Forall (fun e => match e with
                   | ClickPreview evt => click_inside evt = true
                   | _ => True
                   end) es.

Definition in_unit_square (c : number * number) : bool :=
  Num.in_unit (fst c) && Num.in_unit (snd c).

(** The size the renderer divides by 600: the parsed font size, or 14 when
    that is [NaN] or a zero. *)
Definition sizePt (fontSize : string) : number :=
  match parseFloat fontSize with
  | S754_nan | S754_zero _ => Num.of_Z 14
  | x => x
  end.

(** ** Further predicates *)

(** The names [saveSettings] writes, in the order of its object literal. *)
Definition saved_keys : list string :=
  ["fontFamily"; "isBold"; "isItalic"; "fontLoadingCode"; "fontSize";
   "fontColor"; "name"; "coordinates"].

Definition is_saved_key (k : string) : bool :=
  existsb (String.eqb k) saved_keys.

(** The pairs of an address under other names, in their order. *)
Definition foreign (url : SearchParams.t) : SearchParams.t :=
  List.filter (fun p => negb (is_saved_key (fst p))) url.

(** How many pairs of an address carry the name [k]. *)
Definition occurrences (k : string) (url : SearchParams.t) : nat :=
  length (List.filter (fun p => String.eqb (fst p) k) url).

(** One [set] after the other, as the loop of [saveSettings] makes them. *)
Definition set_all (kvs : list (string * string)) (url : SearchParams.t)
  : SearchParams.t :=
  fold_left (fun u kv => SearchParams.set (fst kv) (snd kv) u) kvs url.

(** What [saveSettings] writes under each name. *)
Definition saved_texts (s : Settings) : list (string * string) :=
  map (fun kv => (fst kv, param_text (snd kv))) (settingsToSave s).

(** The [coordinates] parameter is missing, empty, or JSON text of a falsy
    value ([null], [false], [0], an empty string). *)
Definition no_position (url : SearchParams.t) : Prop :=
  match SearchParams.get "coordinates" url with
  | None => True
  | Some v =>
      is_empty v = true
      \/ exists j, JSON.parse v = Normal j /\ JSON.truthy j = false
  end.

(** In ascending order of their UTF-16 code units, neighbour by
    neighbour: no text is less than the one before it. *)
Fixpoint ascending (l : list string) : bool :=
  match l with
  | x :: (y :: _) as r => negb (Lodash.ltb y x) && ascending r
  | _ => true
  end.

(** Six reads in a row, the passes [n - 6] to [n - 1], found the same
    size. *)
Definition steady_before (size : nat -> N) (n : nat) : Prop :=
  (6 <= n)%nat
  /\ forall t, (n - 6 < t < n)%nat -> size t = size (t - 1)%nat.

(** The variables of the polling loop before pass [i]: [lastSize] is the
    size the pass before read, the lives count down from the last pass
    [j] that saw a change, and the loop could not have stopped yet. *)
Definition loop_state (size : nat -> N) (i : nat) (lastSize lives : Z)
  : Prop :=
  0 <= lives <= LIVES
  /\ lastSize = match i with
                | O => -1
                | S k => Z.of_N (size k)
                end
  /\ (forall m, (m < i)%nat -> ~ steady_before size m)
  /\ (i = 0%nat /\ lives = LIVES
      \/ exists j, Z.of_nat i = Z.of_nat j + 1 + (LIVES - lives)
                   /\ changed_at size j
                   /\ forall t, (j < t < i)%nat -> size t = size (t - 1)%nat).

(** [loadingdone] events at the times [ts]. *)
Definition loadingdone_at (ts : list Z) : list (Z * Sync.trigger) :=
  map (fun t => (t, Sync.LoadingDone)) ts.

(** A render of the settings [s]. *)
Definition is_render_of (s : Settings) (a : Sync.action) : Prop :=
  match a with
  | Sync.Render _ s' => s' = s
  | Sync.Persist _ _ => False
  end.

(** Only the render timer is in use: no persist is pending or done. *)
Definition rendering_only (s : Settings) (st : Sync.state) : Prop :=
  Sync.current st = s /\ Sync.persist_due st = None
  /\ Forall (is_render_of s) (Sync.performed st).

(** The component before the script's top level looks at the font
    loading code: the settings, and nothing requested, shown or running. *)
Definition unmounted (s : Settings) : App :=
  {| settings := s; errors := ∅; loadedFonts := ∅; head_links := [];
     availableFontFaces := []; polling := 0 |}.

(** The state after [handleFontLoadingCode] has requested [url]. *)
Definition requested (url : string) (st : App) : App :=
  {| settings := settings st;
     errors := errors st;
     loadedFonts := <[url := true]> (loadedFonts st);
     head_links := head_links st ++ [{| href := url; rel := "stylesheet" |}];
     availableFontFaces := availableFontFaces st;
     polling := S (polling st) |}.

Fixpoint has_char (c : ascii) (s : string) : bool :=
  match s with
  | EmptyString => false
  | String d r => Ascii.eqb d c || has_char c r
  end.

(** No line terminator in the text. *)
Definition single_line (s : string) : bool := String.eqb (Pattern.line s) s.

(** A link of the head as the script makes them: a stylesheet, with an
    address that is not empty and is among the requested ones. *)
Definition well_formed_link (st : App) (l : Link) : Prop :=
  rel l = "stylesheet" /\ is_empty (href l) = false
  /\ loadedFonts st !! href l = Some true.

Fixpoint all_digits (s : string) : bool :=
  match s with
  | EmptyString => true
  | String c r => Text.is_digit c && all_digits r
  end.

(** Text that cannot continue a decimal literal: empty, or starting with
    a character that is no digit, point or exponent mark. *)
Definition ends_number (tail : string) : bool :=
  match tail with
  | EmptyString => true
  | String c _ =>
      negb (Text.is_digit c || Ascii.eqb c "." || Ascii.eqb c "e"
            || Ascii.eqb c "E")
  end.

(** No digit comes next. *)
Definition no_digit_ahead (tail : string) : bool :=
  match tail with
  | EmptyString => true
  | String c _ => negb (Text.is_digit c)
  end.

(** The digits of a positive integer: at least one, the first not a
    zero. *)
Definition numeral (ds : string) : bool :=
  all_digits ds
  && match ds with
     | String c _ => negb (Ascii.eqb c "0")
     | EmptyString => false
     end.

(** What [JSON.stringify] writes for a number. *)
Definition number_text (x : number) : string :=
  if Num.is_finite x then NumberToString.toString x else "null".

(** The value of a text of digits, read onto [acc]. *)
Fixpoint digits_value (ds : string) (acc : N) : N :=
  match ds with
  | EmptyString => acc
  | String c r => digits_value r (10 * acc + Text.digit_val c)%N
  end.

(** The text [t], wherever it stands as an element of an array, is read
    to its end, as the value [v]. *)
Definition reads_as (v : json) (t : string) : Prop :=
  (forall f tail,
     ends_number tail = true ->
     JSON.read_value (S f) (t ++ tail) = Some (v, tail))
  /\ (forall tail, JSON.expect "]" (t ++ tail) = None).

(** A point of the image: from the origin to the width and the height. *)
Definition inside_image (sz : ImageSize) (p : number * number) : bool :=
  Num.leb Num.zero (fst p) && Num.leb (fst p) (Num.of_N (width sz))
  && Num.leb Num.zero (snd p) && Num.leb (snd p) (Num.of_N (height sz)).

(** Edits of the font loading code at the given times, each with the
    settings it leaves. *)
Definition as_edits (evs : list (Z * Settings)) : list (Z * Sync.trigger) :=
  map (fun ev => (fst ev, Sync.Edited (snd ev))) evs.

(** The writes of the address among what was done, and the times at
    which the renderer was started. *)
Definition persists (done : list Sync.action) : list (Z * Settings) :=
  flat_map (fun a => match a with
                     | Sync.Persist t s => [(t, s)]
                     | Sync.Render _ _ => []
                     end) done.

Definition render_times (done : list Sync.action) : list Z :=
  flat_map (fun a => match a with
                     | Sync.Render t _ => [t]
                     | Sync.Persist _ _ => []
                     end) done.

(** No timer is pending and nothing was done. *)
Definition untouched (st : Sync.state) : Prop :=
  Sync.render_due st = None /\ Sync.persist_due st = None
  /\ Sync.performed st = [].

(** ** Rounding, taken apart

    The standard library's [binary_round_aux] aligns the mantissa, rounds
    it to nearest even and aligns once more; the two alignments and the
    final case analysis are named here for the proofs below. *)

(** A record with no bits shifted out. *)
Definition exact_record (m : Z) : shr_record :=
  {| shr_m := m; shr_r := false; shr_s := false |}.

Definition finish (s : bool) (r : shr_record * Z) : number :=
  match shr_m (fst r) with
  | Z0 => S754_zero s
  | Zpos p =>
      if snd r <=? Num.emax - Num.prec then S754_finite s p (snd r)
      else S754_infinity s
  | Zneg _ => S754_nan
  end.

Definition second_alignment (r : shr_record * Z) : shr_record * Z :=
  shr_fexp Num.prec Num.emax
           (round_nearest_even (shr_m (fst r)) (loc_of_shr_record (fst r)))
           (snd r) loc_Exact.

(** * Properties *)

(** ** Binary64 arithmetic *)

Section Digits.

Lemma digits2_size (p : positive) : digits2_pos p = Pos.size p.
Proof. induction p; simpl; congruence. Qed.

Lemma digits_log2 (p : positive) : Zdigits2 (Zpos p) = Z.log2 (Zpos p) + 1.
Proof.
  unfold Zdigits2. rewrite digits2_size.
  destruct p; simpl; lia.
Qed.

Lemma digits_bounds (p : positive) :
  2 ^ (Zdigits2 (Zpos p) - 1) <= Zpos p < 2 ^ Zdigits2 (Zpos p).
Proof.
  rewrite digits_log2.
  replace (Z.log2 (Zpos p) + 1 - 1) with (Z.log2 (Zpos p)) by lia.
  apply Z.log2_spec. reflexivity.
Qed.

Lemma digits_pos (p : positive) : 0 < Zdigits2 (Zpos p).
Proof. rewrite digits_log2. pose proof (Z.log2_nonneg (Zpos p)). lia. Qed.

Lemma digits_unique (m d : Z) :
  0 < d -> 2 ^ (d - 1) <= m < 2 ^ d -> Zdigits2 m = d.
Proof.
  intros Hd Hm.
  assert (0 < m) by (pose proof (Z.pow_pos_nonneg 2 (d - 1)); lia).
  destruct m as [|p|p]; try lia.
  rewrite digits_log2.
  rewrite (Z.log2_unique (Zpos p) (d - 1)); try lia.
  replace (Z.succ (d - 1)) with d by lia. exact Hm.
Qed.

Lemma digits_nonneg (m : Z) : 0 <= Zdigits2 m.
Proof. destruct m; simpl; lia. Qed.

(** A positive number below [2^a] has at most [a] digits. *)
Lemma digits_le (m a : Z) : 0 <= m < 2 ^ a -> 0 <= a -> Zdigits2 m <= a.
Proof.
  intros Hm Ha. destruct m as [|p|p]; simpl; try lia.
  pose proof (digits_bounds p) as [Hlo _].
  destruct (Z.le_gt_cases (Zdigits2 (Zpos p)) a) as [|Hgt]; [assumption|].
  exfalso.
  assert (2 ^ a <= 2 ^ (Zdigits2 (Zpos p) - 1))
    by (apply Z.pow_le_mono_r; lia).
  lia.
Qed.

(** A number from [2^a] on has more than [a] digits. *)
Lemma digits_gt (m a : Z) : 2 ^ a <= m -> 0 <= a -> a < Zdigits2 m.
Proof.
  intros Hm Ha.
  assert (0 < m) by (pose proof (Z.pow_pos_nonneg 2 a); lia).
  destruct m as [|p|p]; try lia.
  pose proof (digits_bounds p) as [_ Hhi].
  destruct (Z.lt_ge_cases a (Zdigits2 (Zpos p))) as [|Hge]; [assumption|].
  exfalso.
  assert (2 ^ Zdigits2 (Zpos p) <= 2 ^ a)
    by (apply Z.pow_le_mono_r; lia).
  lia.
Qed.

End Digits.

Section Shifting.

Lemma iter_pos_nat {A : Type} (f : A -> A) (p : positive) (x : A) :
  SpecFloat.iter_pos f p x = Nat.iter (Pos.to_nat p) f x.
Proof.
  revert x. induction p as [p IH|p IH|]; intros x; cbn [SpecFloat.iter_pos].
  - rewrite !IH, Pos2Nat.inj_xI.
    replace (S (2 * Pos.to_nat p)) with (S (Pos.to_nat p + Pos.to_nat p)) by lia.
    rewrite Nat.iter_succ_r, Nat.iter_add. reflexivity.
  - rewrite !IH, Pos2Nat.inj_xO.
    replace (2 * Pos.to_nat p)%nat with (Pos.to_nat p + Pos.to_nat p)%nat by lia.
    rewrite Nat.iter_add. reflexivity.
  - reflexivity.
Qed.

Lemma shr_1_m (mrs : shr_record) :
  0 <= shr_m mrs -> shr_m (shr_1 mrs) = shr_m mrs / 2.
Proof.
  destruct mrs as [m r s]. simpl. intros Hm.
  rewrite <- Z.div2_div.
  destruct m as [|[p|p|]|p]; try reflexivity; lia.
Qed.

Lemma shr_iter_m (n : nat) (mrs : shr_record) :
  0 <= shr_m mrs ->
  shr_m (Nat.iter n shr_1 mrs) = shr_m mrs / 2 ^ Z.of_nat n.
Proof.
  intros Hm. induction n as [|n IH].
  - simpl. rewrite Z.div_1_r. reflexivity.
  - simpl Nat.iter. rewrite shr_1_m.
    + rewrite IH, Z.div_div by lia.
      rewrite Nat2Z.inj_succ, Z.pow_succ_r by lia.
      f_equal. lia.
    + rewrite IH. apply Z.div_pos; lia.
Qed.

(** The mantissa and the exponent after [shr]. *)
Lemma shr_spec (mrs : shr_record) (e n : Z) :
  0 <= shr_m mrs ->
  shr_m (fst (shr mrs e n)) = shr_m mrs / 2 ^ Z.max 0 n
  /\ snd (shr mrs e n) = e + Z.max 0 n.
Proof.
  intros Hm. destruct n as [|p|p]; simpl.
  - rewrite Z.div_1_r. split; [reflexivity | lia].
  - rewrite iter_pos_nat, shr_iter_m, positive_nat_Z by exact Hm.
    split; reflexivity.
  - rewrite Z.div_1_r. split; [reflexivity | lia].
Qed.


Lemma shr_1_exact (m : Z) :
  0 <= m -> shr_1 (exact_record (2 * m)) = exact_record m.
Proof. destruct m as [|p|p]; intros H; try reflexivity; lia. Qed.

Lemma shr_iter_exact (n : nat) (m : Z) :
  0 <= m ->
  Nat.iter n shr_1 (exact_record (m * 2 ^ Z.of_nat n)) = exact_record m.
Proof.
  intros Hm. induction n as [|n IH].
  - simpl. rewrite Z.mul_1_r. reflexivity.
  - rewrite Nat.iter_succ_r.
    rewrite Nat2Z.inj_succ, Z.pow_succ_r by lia.
    replace (m * (2 * 2 ^ Z.of_nat n)) with (2 * (m * 2 ^ Z.of_nat n)) by lia.
    rewrite shr_1_exact; [exact IH|].
    apply Z.mul_nonneg_nonneg; [exact Hm|]. apply Z.pow_nonneg. lia.
Qed.

(** Shifting out zeros loses nothing. *)
Lemma shr_exact (m e n : Z) :
  0 <= m -> 0 <= n ->
  shr (exact_record (m * 2 ^ n)) e n = (exact_record m, e + n).
Proof.
  intros Hm Hn. destruct n as [|p|p]; simpl; try lia.
  - rewrite Z.mul_1_r, Z.add_0_r. reflexivity.
  - rewrite iter_pos_nat.
    rewrite <- (positive_nat_Z p) at 1.
    rewrite shr_iter_exact by exact Hm. reflexivity.
Qed.

Lemma rne_bounds (m : Z) (l : location) :
  m <= round_nearest_even m l <= m + 1.
Proof.
  destruct l as [|[| |]]; simpl; try lia.
  destruct (Z.even m); lia.
Qed.

Lemma shr_fexp_exact_eq (m e : Z) :
  shr_fexp Num.prec Num.emax m e loc_Exact =
  shr (exact_record m) e (fexp Num.prec Num.emax (Zdigits2 m + e) - e).
Proof. reflexivity. Qed.

End Shifting.

Section Rounding.

Lemma fexp_eq (e : Z) :
  fexp Num.prec Num.emax e = Z.max (e - 53) (-1074).
Proof. reflexivity. Qed.

Lemma shr_nonpos (mrs : shr_record) (e n : Z) :
  n <= 0 -> shr mrs e n = (mrs, e).
Proof. destruct n; intros H; try reflexivity; lia. Qed.

Lemma digits_shift (m n : Z) :
  0 < m -> 0 <= n -> Zdigits2 (m * 2 ^ n) = Zdigits2 m + n.
Proof.
  intros Hm Hn. destruct m as [|p|p]; try lia.
  pose proof (digits_bounds p) as [Hlo Hhi].
  pose proof (digits_pos p) as Hd.
  assert (H2 : 0 < 2 ^ n) by (apply Z.pow_pos_nonneg; lia).
  apply digits_unique; [lia|].
  replace (Zdigits2 (Zpos p) + n - 1) with (Zdigits2 (Zpos p) - 1 + n) by lia.
  rewrite !Z.pow_add_r by lia. split; nia.
Qed.


Lemma round_unfold (s : bool) (m e : Z) (l : location) :
  binary_round_aux Num.prec Num.emax s m e l =
  finish s (second_alignment (shr_fexp Num.prec Num.emax m e l)).
Proof.
  unfold binary_round_aux, finish, second_alignment.
  destruct (shr_fexp Num.prec Num.emax m e l) as [r1 e1]. simpl fst. simpl snd.
  destruct (shr_fexp Num.prec Num.emax _ e1 loc_Exact) as [r2 e2]. reflexivity.
Qed.

(** Rounding a mantissa whose low [n] bits are zero and are exactly the
    bits to drop. *)
Lemma round_exact (s : bool) (m n e : Z) :
  0 < m -> 0 <= n ->
  Z.max 0 (fexp Num.prec Num.emax (Zdigits2 (m * 2 ^ n) + e) - e) = n ->
  binary_round_aux Num.prec Num.emax s (m * 2 ^ n) e loc_Exact =
  if e + n <=? 971 then S754_finite s (Z.to_pos m) (e + n)
  else S754_infinity s.
Proof.
  intros Hm Hn Hshift.
  rewrite round_unfold, shr_fexp_exact_eq.
  remember (fexp Num.prec Num.emax (Zdigits2 (m * 2 ^ n) + e) - e) as a eqn:Ea.
  assert (H1 : shr (exact_record (m * 2 ^ n)) e a = (exact_record m, e + n)).
  { destruct (Z.le_gt_cases a 0) as [Ha|Ha].
    - rewrite shr_nonpos by exact Ha.
      assert (Hn0 : n = 0) by lia. rewrite Hn0.
      rewrite Z.mul_1_r, Z.add_0_r. reflexivity.
    - assert (Han : a = n) by lia. rewrite Han. apply shr_exact; lia. }
  rewrite H1. unfold second_alignment.
  cbn [fst snd exact_record shr_m shr_r shr_s loc_of_shr_record
       round_nearest_even].
  rewrite shr_fexp_exact_eq, shr_nonpos.
  - unfold finish. simpl fst. simpl snd.
    destruct m as [|p|p]; try lia. reflexivity.
  - rewrite digits_shift in Ea by lia.
    replace (Zdigits2 m + (e + n)) with (Zdigits2 m + n + e) by lia.
    lia.
Qed.

End Rounding.

Section Integers.

Lemma iter_xO (p d : positive) :
  Zpos (Pos.iter xO p d) = Zpos p * 2 ^ Zpos d.
Proof.
  induction d as [|d IH] using Pos.peano_ind.
  - simpl. lia.
  - rewrite Pos.iter_succ, Pos2Z.inj_xO, IH, Pos2Z.inj_succ, Z.pow_succ_r by lia.
    lia.
Qed.

(** The number of a positive integer below [2^53]: the integer itself,
    shifted up to 53 digits. *)
Lemma of_Z_pos (n : Z) :
  0 < n < 2 ^ 53 ->
  Num.of_Z n =
  S754_finite false (Z.to_pos (n * 2 ^ (53 - Zdigits2 n))) (Zdigits2 n - 53).
Proof.
  intros [Hpos Hlt]. destruct n as [|p|p]; try lia.
  pose proof (digits_pos p) as Hd.
  assert (Hd53 : Zdigits2 (Zpos p) <= 53) by (apply digits_le; lia).
  unfold Num.of_Z, binary_normalize, binary_round.
  change (Zpos (digits2_pos p)) with (Zdigits2 (Zpos p)).
  rewrite fexp_eq.
  replace (Z.max (Zdigits2 (Zpos p) + 0 - 53) (-1074))
    with (Zdigits2 (Zpos p) - 53) by lia.
  unfold shl_align.
  remember (Zdigits2 (Zpos p)) as d eqn:Ed.
  destruct (d - 53 - 0) as [|q|q] eqn:Eq; try lia.
  - assert (Hd' : d = 53) by lia. rewrite Hd'.
    change (2 ^ (53 - 53)) with 1. rewrite Z.mul_1_r.
    pose proof (round_exact false (Zpos p) 0 0) as H.
    change (2 ^ 0) with 1 in H. rewrite Z.mul_1_r in H.
    rewrite H; [reflexivity | lia | lia |].
    rewrite <- Ed, fexp_eq. lia.
  - assert (Hq : Zpos q = 53 - d) by lia.
    rewrite iter_xO, Hq.
    pose proof (round_exact false (Zpos p * 2 ^ (53 - d)) 0 (d - 53)) as H.
    change (2 ^ 0) with 1 in H. rewrite Z.mul_1_r in H.
    assert (Hm : 0 < Zpos p * 2 ^ (53 - d)).
    { apply Z.mul_pos_pos; [lia|]. apply Z.pow_pos_nonneg; lia. }
    rewrite H; [| exact Hm | lia |].
    + replace (d - 53 + 0) with (d - 53) by lia.
      replace (d - 53 <=? 971) with true by (symmetry; apply Z.leb_le; lia).
      reflexivity.
    + rewrite digits_shift, <- Ed, fexp_eq by lia. lia.
Qed.

Lemma two_eq : Num.two = S754_finite false 4503599627370496 (-51).
Proof. reflexivity. Qed.

Lemma one_eq : Num.one = S754_finite false 4503599627370496 (-52).
Proof. reflexivity. Qed.

Lemma pow52 : 2 ^ 52 = 4503599627370496.
Proof. reflexivity. Qed.

Lemma mul_two_finite (s : bool) (m : positive) (e : Z) :
  Num.mul Num.two (S754_finite s m e) =
  binary_round_aux Num.prec Num.emax s (Zpos m * 2 ^ 52) (e - 51) loc_Exact.
Proof.
  rewrite two_eq. unfold Num.mul, SFmul.
  rewrite Pos2Z.inj_mul, pow52. f_equal; [lia | lia].
Qed.

(** Twice a normal number. *)
Lemma mul_two_normal (s : bool) (m : positive) (e : Z) :
  Zdigits2 (Zpos m) = 53 -> -1074 <= e ->
  Num.mul Num.two (S754_finite s m e) =
  if e + 1 <=? 971 then S754_finite s m (e + 1) else S754_infinity s.
Proof.
  intros Hd He. rewrite mul_two_finite, round_exact; try lia.
  - replace (e - 51 + 52) with (e + 1) by lia. reflexivity.
  - rewrite digits_shift, Hd, fexp_eq by lia. lia.
Qed.

(** Twice a subnormal number. *)
Lemma mul_two_subnormal (s : bool) (m : positive) :
  Zdigits2 (Zpos m) <= 52 ->
  Num.mul Num.two (S754_finite s m (-1074)) = S754_finite s (m~0) (-1074).
Proof.
  intros Hd. rewrite mul_two_finite.
  replace (Zpos m * 2 ^ 52) with (Zpos m~0 * 2 ^ 51)
    by (rewrite Pos2Z.inj_xO; change (2 ^ 52) with (2 * 2 ^ 51); lia).
  rewrite round_exact; try lia.
  - reflexivity.
  - rewrite digits_shift by lia.
    assert (Zdigits2 (Zpos m~0) = Zdigits2 (Zpos m) + 1).
    { simpl. lia. }
    rewrite fexp_eq. lia.
Qed.

End Integers.

Section NormalRange.

Lemma shr_succ (mrs : shr_record) (e n : Z) :
  shr mrs (e + 1) n = (fst (shr mrs e n), snd (shr mrs e n) + 1).
Proof. destruct n; simpl; f_equal; lia. Qed.

Lemma shr_snd (mrs : shr_record) (e n : Z) :
  snd (shr mrs e n) = e + Z.max 0 n.
Proof. destruct n; simpl; lia. Qed.

Lemma digits_div (m n : Z) :
  0 < m -> 0 <= n < Zdigits2 m -> Zdigits2 (m / 2 ^ n) = Zdigits2 m - n.
Proof.
  intros Hm Hn. destruct m as [|p|p]; try lia.
  pose proof (digits_bounds p) as [Hlo Hhi].
  assert (H2 : 0 < 2 ^ n) by (apply Z.pow_pos_nonneg; lia).
  apply digits_unique; [lia|]. split.
  - apply Z.div_le_lower_bound; [exact H2|].
    rewrite <- Z.pow_add_r by lia.
    replace (n + (Zdigits2 (Zpos p) - n - 1)) with (Zdigits2 (Zpos p) - 1) by lia.
    exact Hlo.
  - apply Z.div_lt_upper_bound; [exact H2|].
    rewrite <- Z.pow_add_r by lia.
    replace (n + (Zdigits2 (Zpos p) - n)) with (Zdigits2 (Zpos p)) by lia.
    exact Hhi.
Qed.

Lemma digits_53 (m : Z) :
  0 <= m -> Zdigits2 m = 53 -> 2 ^ 52 <= m < 2 ^ 53.
Proof.
  intros Hm H. destruct m as [|p|p]; simpl in H; try lia.
  pose proof (digits_bounds p) as Hb. simpl Zdigits2 in Hb.
  rewrite H in Hb. exact Hb.
Qed.

(** In the normal range the alignment drops all but 53 digits, whatever
    the exponent. *)
Lemma normal_alignment (m e : Z) :
  0 < m -> 53 <= Zdigits2 m -> -1074 <= Zdigits2 m + e - 53 ->
  shr_fexp Num.prec Num.emax m (e + 1) loc_Exact
  = (fst (shr_fexp Num.prec Num.emax m e loc_Exact),
     snd (shr_fexp Num.prec Num.emax m e loc_Exact) + 1)
  /\ snd (shr_fexp Num.prec Num.emax m e loc_Exact) = Zdigits2 m + e - 53
  /\ 2 ^ 52 <= shr_m (fst (shr_fexp Num.prec Num.emax m e loc_Exact)) < 2 ^ 53.
Proof.
  intros Hm Hd He. rewrite !shr_fexp_exact_eq, !fexp_eq.
  replace (Z.max (Zdigits2 m + (e + 1) - 53) (-1074) - (e + 1))
    with (Zdigits2 m - 53) by lia.
  replace (Z.max (Zdigits2 m + e - 53) (-1074) - e)
    with (Zdigits2 m - 53) by lia.
  split; [apply shr_succ|]. split.
  - rewrite shr_snd. lia.
  - destruct (shr_spec (exact_record m) e (Zdigits2 m - 53)) as [Hs _];
      [simpl; lia|].
    rewrite Hs. simpl shr_m.
    replace (Z.max 0 (Zdigits2 m - 53)) with (Zdigits2 m - 53) by lia.
    apply digits_53.
    + apply Z.div_pos; [lia|]. apply Z.pow_pos_nonneg; lia.
    + rewrite digits_div; lia.
Qed.

(** Rounding in the normal range: the same mantissa for [e] and [e + 1],
    exponents one apart. *)
Lemma round_normal (s : bool) (m e : Z) :
  0 < m -> 53 <= Zdigits2 m -> -1074 <= Zdigits2 m + e - 53 ->
  exists p f,
    Zdigits2 (Zpos p) = 53 /\ -1074 <= f
    /\ binary_round_aux Num.prec Num.emax s m e loc_Exact
       = (if f <=? 971 then S754_finite s p f else S754_infinity s)
    /\ binary_round_aux Num.prec Num.emax s m (e + 1) loc_Exact
       = (if f + 1 <=? 971 then S754_finite s p (f + 1) else S754_infinity s).
Proof.
  intros Hm Hd He.
  destruct (normal_alignment m e Hm Hd He) as (H1 & Hs1 & Hb).
  rewrite !round_unfold, H1.
  remember (shr_fexp Num.prec Num.emax m e loc_Exact) as A eqn:EA.
  unfold second_alignment. cbn [fst snd].
  remember (round_nearest_even (shr_m (fst A)) (loc_of_shr_record (fst A)))
    as r eqn:Er.
  pose proof (rne_bounds (shr_m (fst A)) (loc_of_shr_record (fst A))) as Hr.
  rewrite <- Er in Hr.
  assert (Hr0 : 0 < r) by lia.
  assert (Hrd : 53 <= Zdigits2 r).
  { assert (52 < Zdigits2 r) by (apply digits_gt; lia). lia. }
  destruct (normal_alignment r (snd A) Hr0 Hrd ltac:(lia)) as (H2 & Hs2 & Hb2).
  rewrite H2.
  remember (shr_fexp Num.prec Num.emax r (snd A) loc_Exact) as B eqn:EB.
  unfold finish. cbn [fst snd].
  destruct (shr_m (fst B)) as [|p|p] eqn:Ep; try lia.
  exists p, (snd B). repeat split; try reflexivity; [|lia].
  apply digits_unique; lia.
Qed.

Lemma shr_fexp_snd (m e : Z) (l : location) :
  -1074 <= snd (shr_fexp Num.prec Num.emax m e l).
Proof. unfold shr_fexp. rewrite shr_snd, fexp_eq. lia. Qed.

(** A finite result of rounding has an exponent of at least [-1074]. *)
Lemma round_exponent (s s' : bool) (m e : Z) (l : location)
      (p : positive) (f : Z) :
  binary_round_aux Num.prec Num.emax s m e l = S754_finite s' p f ->
  -1074 <= f.
Proof.
  rewrite round_unfold. unfold finish, second_alignment.
  set (A := shr_fexp Num.prec Num.emax m e l).
  set (B := shr_fexp Num.prec Num.emax _ (snd A) loc_Exact).
  pose proof (shr_fexp_snd
                (round_nearest_even (shr_m (fst A)) (loc_of_shr_record (fst A)))
                (snd A) loc_Exact) as HB.
  fold B in HB.
  destruct (shr_m (fst B)); try discriminate.
  destruct (snd B <=? Num.emax - Num.prec); try discriminate.
  intros H. injection H as _ _ <-. exact HB.
Qed.

Lemma div_exponent (x y : number) (s : bool) (p : positive) (f : Z) :
  Num.div x y = S754_finite s p f -> -1074 <= f.
Proof.
  unfold Num.div, SFdiv.
  destruct x as [sx|sx| |sx mx ex], y as [sy|sy| |sy my ey]; try discriminate.
  destruct (SFdiv_core_binary _ _ _ _ _ _) as [[q e'] l].
  apply round_exponent.
Qed.

End NormalRange.

Section Doubling.

Lemma of_Z_double (n : Z) :
  0 < n < 2 ^ 52 ->
  exists mh eh,
    Num.of_Z n = S754_finite false mh eh
    /\ Num.of_Z (2 * n) = S754_finite false mh (eh + 1)
    /\ -52 <= eh <= 0
    /\ Zpos mh = n * 2 ^ (- eh)
    /\ 2 ^ 52 <= Zpos mh.
Proof.
  intros [Hpos Hlt].
  assert (Hd : 0 < Zdigits2 n <= 52).
  { split; [destruct n; simpl; lia | apply digits_le; lia]. }
  assert (Hd2 : Zdigits2 (2 * n) = Zdigits2 n + 1).
  { replace (2 * n) with (n * 2 ^ 1) by (change (2 ^ 1) with 2; lia).
    apply digits_shift; lia. }
  assert (Hm : 0 < n * 2 ^ (53 - Zdigits2 n)).
  { apply Z.mul_pos_pos; [lia|]. apply Z.pow_pos_nonneg; lia. }
  exists (Z.to_pos (n * 2 ^ (53 - Zdigits2 n))), (Zdigits2 n - 53).
  split; [apply of_Z_pos; change (2 ^ 53) with (2 * 2 ^ 52); lia|].
  split.
  { rewrite of_Z_pos by (change (2 ^ 53) with (2 * 2 ^ 52); lia).
    rewrite Hd2. f_equal; [|lia]. f_equal.
    replace (53 - Zdigits2 n) with (Z.succ (53 - (Zdigits2 n + 1))) by lia.
    rewrite Z.pow_succ_r by lia. lia. }
  split; [lia|]. split.
  { rewrite Z2Pos.id by exact Hm. f_equal. f_equal. lia. }
  rewrite Z2Pos.id by exact Hm.
  destruct n as [|p|p]; try lia.
  pose proof (digits_bounds p) as [Hlo _].
  replace 52 with (Zdigits2 (Zpos p) - 1 + (53 - Zdigits2 (Zpos p))) at 1 by lia.
  rewrite Z.pow_add_r by lia.
  apply Z.mul_le_mono_nonneg_r; [|exact Hlo].
  apply Z.pow_nonneg. lia.
Qed.

Lemma mul_finite (sa sb : bool) (ma mb : positive) (ea eb : Z) :
  Num.mul (S754_finite sa ma ea) (S754_finite sb mb eb) =
  binary_round_aux Num.prec Num.emax (xorb sa sb) (Zpos ma * Zpos mb)
                   (ea + eb) loc_Exact.
Proof. reflexivity. Qed.

Lemma mul_two_infinity (s : bool) :
  Num.mul Num.two (S754_infinity s) = S754_infinity s.
Proof. reflexivity. Qed.

(** Doubling an integer factor doubles the product. *)
Lemma mul_doubles (a : number) (n : Z) :
  (forall s p f, a = S754_finite s p f -> -1074 <= f) ->
  0 <= n < 2 ^ 52 ->
  Num.mul a (Num.of_Z (2 * n)) = Num.mul Num.two (Num.mul a (Num.of_Z n)).
Proof.
  intros Ha [Hn0 Hn].
  destruct (Z.eq_dec n 0) as [->|Hnz].
  { destruct a as [[|]|[|]| |[|] m e]; reflexivity. }
  destruct (of_Z_double n ltac:(lia)) as (mh & eh & -> & -> & Heh & Hmh & Hbig).
  destruct a as [s|s| |s m e].
  - destruct s; reflexivity.
  - destruct s; reflexivity.
  - reflexivity.
  - specialize (Ha s m e eq_refl).
    rewrite !mul_finite.
    set (sg := xorb s false).
    set (M := Zpos m * Zpos mh).
    assert (HM : 0 < M) by (unfold M; lia).
    assert (HdM : 53 <= Zdigits2 M).
    { assert (52 < Zdigits2 M); [|lia].
      apply digits_gt; [|lia]. unfold M. nia. }
    replace (e + (eh + 1)) with (e + eh + 1) by lia.
    destruct (Z.le_gt_cases (-1074) (Zdigits2 M + (e + eh) - 53)) as [Hnorm|Hsub].
    + destruct (round_normal sg M (e + eh) HM HdM Hnorm)
        as (p & f & Hp & Hf & -> & ->).
      destruct (f <=? 971) eqn:Hf971.
      * rewrite mul_two_normal by assumption. reflexivity.
      * rewrite mul_two_infinity.
        replace (f + 1 <=? 971) with false; [reflexivity|].
        symmetry. apply Z.leb_gt. apply Z.leb_gt in Hf971. lia.
    + set (n1 := -1074 - (e + eh)).
      assert (Hn1 : 0 < n1 <= - eh) by (unfold n1; lia).
      set (m' := Zpos m * n * 2 ^ (- eh - n1)).
      assert (Hm' : 0 < m').
      { unfold m'. apply Z.mul_pos_pos; [lia|]. apply Z.pow_pos_nonneg; lia. }
      assert (HMm : M = m' * 2 ^ n1).
      { unfold M, m'. rewrite Hmh.
        rewrite <- !Z.mul_assoc. f_equal. f_equal.
        rewrite <- Z.pow_add_r by lia. f_equal. lia. }
      assert (HMm2 : M = (2 * m') * 2 ^ (n1 - 1)).
      { rewrite HMm.
        replace n1 with (Z.succ (n1 - 1)) at 1 by lia.
        rewrite Z.pow_succ_r by lia. lia. }
      assert (Hdm' : Zdigits2 m' <= 52).
      { assert (Zdigits2 M = Zdigits2 m' + n1)
          by (rewrite HMm; apply digits_shift; lia).
        unfold n1 in *. lia. }
      rewrite HMm at 2.
      rewrite (round_exact sg m' n1 (e + eh)); try lia.
      2:{ rewrite <- HMm, fexp_eq. unfold n1. lia. }
      rewrite HMm2.
      rewrite (round_exact sg (2 * m') (n1 - 1) (e + eh + 1)); try lia.
      2:{ rewrite <- HMm2, fexp_eq. unfold n1. lia. }
      replace (e + eh + n1) with (-1074) by (unfold n1; lia).
      replace (e + eh + 1 + (n1 - 1)) with (-1074) by (unfold n1; lia).
      change (-1074 <=? 971) with true. cbv iota.
      destruct m' as [|q|q]; try lia.
      rewrite mul_two_subnormal by exact Hdm'. reflexivity.
Qed.

End Doubling.

Section Division.

Lemma leb_finite (p q : positive) (e f : Z) :
  Num.leb (S754_finite false p e) (S754_finite false q f) = true
  <-> e < f \/ (e = f /\ Zpos p <= Zpos q).
Proof.
  unfold Num.leb, SFleb, SFcompare.
  destruct (Z.compare_spec e f) as [Hef|Hef|Hef].
  - change (Pos.compare_cont Eq p q) with (Pos.compare p q).
    destruct (Pos.compare_spec p q) as [Hpq|Hpq|Hpq]; split; intros H;
      try discriminate; try reflexivity; try lia.
  - split; intros H; [lia | reflexivity].
  - split; intros H; [discriminate | lia].
Qed.

Lemma canonical_bounds (s : bool) (p : positive) (e : Z) :
  Num.is_double (S754_finite s p e) = true ->
  Zdigits2 (Zpos p) <= 53 /\ -1074 <= e
  /\ (-1074 < e -> Zdigits2 (Zpos p) = 53).
Proof.
  unfold Num.is_double, valid_binary, bounded, canonical_mantissa.
  intros H. apply andb_prop in H as [H _]. apply Z.eqb_eq in H.
  change (Zpos (digits2_pos p)) with (Zdigits2 (Zpos p)) in H.
  rewrite fexp_eq in H. lia.
Qed.

Lemma div_eucl_eq (a b : Z) : Z.div_eucl a b = (a / b, a mod b).
Proof. unfold Z.div, Z.modulo. destruct (Z.div_eucl a b). reflexivity. Qed.

(** The quotient the division rounds: enough bits of [mx / my]. *)
Lemma div_core_eq (mx my : positive) (ex ey : Z) :
  let e' := Z.min (fexp Num.prec Num.emax
                        (Zdigits2 (Zpos mx) + ex - (Zdigits2 (Zpos my) + ey)))
                  (ex - ey) in
  SFdiv_core_binary Num.prec Num.emax (Zpos mx) ex (Zpos my) ey =
  (Zpos mx * 2 ^ (ex - ey - e') / Zpos my, e',
   new_location (Zpos my) ((Zpos mx * 2 ^ (ex - ey - e')) mod Zpos my)).
Proof.
  intros e'. unfold SFdiv_core_binary. fold e'.
  assert (Hs : 0 <= ex - ey - e') by (unfold e'; lia).
  assert (Hm : match ex - ey - e' with
               | Z0 => Zpos mx
               | Zpos _ => Z.shiftl (Zpos mx) (ex - ey - e')
               | Zneg _ => 0
               end = Zpos mx * 2 ^ (ex - ey - e')).
  { destruct (ex - ey - e') as [|k|k] eqn:Ek; try lia.
    apply Z.shiftl_mul_pow2. lia. }
  rewrite Hm, div_eucl_eq. reflexivity.
Qed.

Lemma new_location_exact (n : Z) : new_location n 0 = loc_Exact.
Proof.
  unfold new_location, new_location_even, new_location_odd.
  destruct (Z.even n); reflexivity.
Qed.

Lemma shr_record_of_loc_m (m : Z) (l : location) :
  shr_m (shr_record_of_loc m l) = m.
Proof. destruct l as [|[| |]]; reflexivity. Qed.

(** An alignment keeps a mantissa under the bound [2 ^ - e]. *)
Lemma alignment_le (mrs : shr_record) (e : Z) :
  0 <= shr_m mrs <= 2 ^ (- e) -> e <= -52 ->
  let A := shr mrs e (fexp Num.prec Num.emax (Zdigits2 (shr_m mrs) + e) - e) in
  0 <= shr_m (fst A) <= 2 ^ (- snd A) /\ snd A <= -52.
Proof.
  intros [Hq0 Hq] He A.
  set (n := fexp Num.prec Num.emax (Zdigits2 (shr_m mrs) + e) - e) in *.
  destruct (shr_spec mrs e n Hq0) as [Hm Hs]. fold A in Hm, Hs.
  rewrite Hm, Hs.
  assert (Hk : 0 < 2 ^ Z.max 0 n) by (apply Z.pow_pos_nonneg; lia).
  assert (Hd : Zdigits2 (shr_m mrs) <= - e + 1).
  { apply digits_le; [|lia]. split; [exact Hq0|].
    replace (- e + 1) with (Z.succ (- e)) by lia.
    rewrite Z.pow_succ_r by lia.
    assert (0 < 2 ^ (- e)) by (apply Z.pow_pos_nonneg; lia). lia. }
  assert (Hs52 : e + Z.max 0 n <= -52).
  { unfold n. rewrite fexp_eq. lia. }
  split; [|exact Hs52]. split.
  - apply Z.div_pos; lia.
  - apply Z.div_le_upper_bound; [exact Hk|].
    rewrite <- Z.pow_add_r by lia.
    replace (Z.max 0 n + - (e + Z.max 0 n)) with (- e) by lia. exact Hq.
Qed.

(** Rounding after the first alignment stays under the bound: the bound
    is reached only by an exact quotient. *)
Lemma first_rounding_le (q e : Z) (l : location) :
  0 <= q <= 2 ^ (- e) -> e <= -52 ->
  (q = 2 ^ (- e) -> l = loc_Exact) ->
  let A := shr_fexp Num.prec Num.emax q e l in
  0 <= round_nearest_even (shr_m (fst A)) (loc_of_shr_record (fst A))
    <= 2 ^ (- snd A)
  /\ snd A <= -52.
Proof.
  intros Hq He Hex A.
  pose proof (alignment_le (shr_record_of_loc q l) e) as Hal.
  rewrite shr_record_of_loc_m in Hal.
  specialize (Hal Hq He). cbv zeta in Hal.
  change (shr (shr_record_of_loc q l) e
              (fexp Num.prec Num.emax (Zdigits2 q + e) - e)) with A in Hal.
  destruct Hal as [[Hm0 Hm] Hs]. split; [|exact Hs].
  pose proof (rne_bounds (shr_m (fst A)) (loc_of_shr_record (fst A))) as Hr.
  split; [lia|].
  destruct (Z.eq_dec (shr_m (fst A)) (2 ^ (- snd A))) as [Heq|Hne]; [|lia].
  (* the bound is reached: the quotient is the power of two itself *)
  set (n := fexp Num.prec Num.emax (Zdigits2 q + e) - e) in *.
  assert (HA : A = shr (shr_record_of_loc q l) e n) by reflexivity.
  destruct (shr_spec (shr_record_of_loc q l) e n) as [Hsm Hss];
    [rewrite shr_record_of_loc_m; lia|].
  rewrite <- HA, shr_record_of_loc_m in Hsm. rewrite <- HA in Hss.
  assert (Hk : 0 < 2 ^ Z.max 0 n) by (apply Z.pow_pos_nonneg; lia).
  assert (Hqe : q = 2 ^ (- e)).
  { pose proof (Z.mul_div_le q (2 ^ Z.max 0 n) Hk) as Hle.
    rewrite <- Hsm, Heq, Hss in Hle.
    rewrite <- Z.pow_add_r in Hle by lia.
    replace (Z.max 0 n + - (e + Z.max 0 n)) with (- e) in Hle by lia. lia. }
  specialize (Hex Hqe). subst l.
  assert (Hfst : fst A = exact_record (2 ^ (- snd A))).
  { rewrite Hss, HA.
    change (shr_record_of_loc q loc_Exact) with (exact_record q).
    destruct (Z.le_gt_cases n 0) as [Hn|Hn].
    - rewrite shr_nonpos by exact Hn. simpl fst.
      replace (Z.max 0 n) with 0 by lia.
      rewrite Z.add_0_r, Hqe. reflexivity.
    - replace (Z.max 0 n) with n by lia.
      assert (Hq' : q = 2 ^ (- (e + n)) * 2 ^ n).
      { rewrite <- Z.pow_add_r by lia. rewrite Hqe. f_equal. lia. }
      rewrite Hq' at 1. rewrite shr_exact; [reflexivity| |lia].
      apply Z.pow_nonneg. lia. }
  rewrite Hfst. simpl. lia.
Qed.

End Division.

Section UnitInterval.

(** Rounding a quotient that is at most one gives at most one. *)
Lemma round_in_unit (q e : Z) (l : location) :
  0 <= q <= 2 ^ (- e) -> e <= -52 ->
  (q = 2 ^ (- e) -> l = loc_Exact) ->
  Num.in_unit (binary_round_aux Num.prec Num.emax false q e l) = true.
Proof.
  intros Hq He Hex. rewrite round_unfold.
  destruct (first_rounding_le q e l Hq He Hex) as [Hr Hs].
  set (A := shr_fexp Num.prec Num.emax q e l) in *.
  unfold second_alignment.
  set (r := round_nearest_even (shr_m (fst A)) (loc_of_shr_record (fst A))) in *.
  rewrite shr_fexp_exact_eq.
  destruct (alignment_le (exact_record r) (snd A) Hr Hs) as [Hm Hs2].
  cbn [exact_record shr_m] in Hm, Hs2.
  set (B := shr (exact_record r) (snd A)
                (fexp Num.prec Num.emax (Zdigits2 r + snd A) - snd A)) in *.
  unfold finish.
  destruct (shr_m (fst B)) as [|p|p] eqn:Ep; [reflexivity| |lia].
  replace (snd B <=? Num.emax - Num.prec) with true
    by (symmetry; apply Z.leb_le; unfold Num.emax, Num.prec; lia).
  unfold Num.in_unit. apply andb_true_intro. split; [reflexivity|].
  rewrite one_eq. apply leb_finite.
  destruct (Z.eq_dec (snd B) (-52)) as [H52|H52]; [right|left; lia].
  split; [exact H52|]. rewrite H52 in Hm. rewrite <- pow52. exact (proj2 Hm).
Qed.

(** A canonical [x] that compares below a canonical [y] is below it in
    value. *)
Lemma leb_value (mx my : positive) (ex ey : Z) :
  Num.is_double (S754_finite false mx ex) = true ->
  Num.is_double (S754_finite false my ey) = true ->
  Num.leb (S754_finite false mx ex) (S754_finite false my ey) = true ->
  ex <= ey /\ Zpos mx <= Zpos my * 2 ^ (ey - ex)
  /\ (Zpos mx = Zpos my * 2 ^ (ey - ex) -> ex = ey).
Proof.
  intros Hx Hy Hle.
  apply canonical_bounds in Hx as (Hdx & Hex & _).
  apply canonical_bounds in Hy as (Hdy & Hey & Hny).
  apply leb_finite in Hle as [Hlt|[-> Hm]].
  - pose proof (digits_bounds mx) as [_ Hhi].
    pose proof (digits_bounds my) as [Hlo _].
    rewrite (Hny ltac:(lia)) in Hlo.
    assert (H53 : 2 ^ Zdigits2 (Zpos mx) <= 2 ^ 53)
      by (apply Z.pow_le_mono_r; lia).
    assert (H1 : 2 ^ 1 <= 2 ^ (ey - ex)) by (apply Z.pow_le_mono_r; lia).
    change (2 ^ 1) with 2 in H1. change (2 ^ (53 - 1)) with (2 ^ 52) in Hlo.
    change (2 ^ 53) with (2 ^ 52 * 2) in H53.
    assert (2 ^ 52 * 2 <= Zpos my * 2 ^ (ey - ex)) by nia.
    split; [lia|]. split; lia.
  - rewrite Z.sub_diag. change (2 ^ 0) with 1. split; [lia|]. split; lia.
Qed.

(** A non-negative number divided by a larger positive one lies in the
    unit interval. *)
Lemma div_in_unit (x y : number) :
  Num.is_double x = true -> Num.is_double y = true ->
  Num.is_finite y = true ->
  Num.leb Num.zero x = true -> Num.leb x y = true ->
  Num.ltb Num.zero y = true ->
  Num.in_unit (Num.div x y) = true.
Proof.
  intros Hx Hy Hfin H0x Hxy H0y.
  destruct y as [sy|sy| |[|] my ey]; try discriminate.
  destruct x as [sx|[|]| |[|] mx ex]; try discriminate.
  - destruct sx; reflexivity.
  - destruct (leb_value mx my ex ey Hx Hy Hxy) as (Hee & Hval & Heq).
    unfold Num.div, SFdiv. rewrite div_core_eq.
    set (e' := Z.min _ (ex - ey)).
    assert (Hd : Zdigits2 (Zpos mx) + ex <= Zdigits2 (Zpos my) + ey).
    { pose proof (digits_bounds mx) as [Hlo _].
      pose proof (digits_bounds my) as [_ Hhi].
      pose proof (digits_pos mx). pose proof (digits_pos my).
      assert (Hp : 0 < 2 ^ (ey - ex)) by (apply Z.pow_pos_nonneg; lia).
      assert (Hlt : 2 ^ (Zdigits2 (Zpos mx) - 1)
                    < 2 ^ (Zdigits2 (Zpos my) + (ey - ex))).
      { rewrite Z.pow_add_r by lia. nia. }
      apply Z.pow_lt_mono_r_iff in Hlt; lia. }
    assert (He' : e' <= -53) by (unfold e'; rewrite fexp_eq; lia).
    assert (Hs : 0 <= ex - ey - e') by (unfold e'; lia).
    assert (Hnum : Zpos mx * 2 ^ (ex - ey - e') <= Zpos my * 2 ^ (- e')).
    { replace (- e') with ((ey - ex) + (ex - ey - e')) by lia.
      rewrite Z.pow_add_r by lia.
      rewrite Z.mul_assoc. apply Z.mul_le_mono_nonneg_r; [|exact Hval].
      apply Z.pow_nonneg. lia. }
    assert (Hk : 0 < 2 ^ (- e')) by (apply Z.pow_pos_nonneg; lia).
    apply round_in_unit; [split| lia |].
    + apply Z.div_pos; [|lia].
      apply Z.mul_nonneg_nonneg; [lia|]. apply Z.pow_nonneg. lia.
    + apply Z.div_le_upper_bound; [lia|]. exact Hnum.
    + intros Hq.
      assert (Hexact : Zpos mx * 2 ^ (ex - ey - e') = Zpos my * 2 ^ (- e')).
      { pose proof (Z.mul_div_le (Zpos mx * 2 ^ (ex - ey - e')) (Zpos my)
                                 ltac:(lia)) as Hle.
        rewrite Hq in Hle. lia. }
      rewrite Hexact, Z.mul_comm, Z.mod_mul by lia.
      apply new_location_exact.
Qed.

End UnitInterval.


(** ** The page address *)

Section SearchParamsFacts.
Import SearchParams.

Lemma get_remove_other (k k' : string) (ps : t) :
  k <> k' -> get k (remove k' ps) = get k ps.
Proof.
  intros Hne. induction ps as [|[a v] r IH]; simpl; [reflexivity|].
  destruct (String.eqb a k') eqn:Ha.
  - apply String.eqb_eq in Ha. subst a.
    destruct (String.eqb k' k) eqn:Hk; [|exact IH].
    apply String.eqb_eq in Hk. congruence.
  - simpl. rewrite IH. reflexivity.
Qed.

Lemma get_set_same (k v : string) (ps : t) : get k (set k v ps) = Some v.
Proof.
  induction ps as [|[a w] r IH]; simpl.
  - rewrite String.eqb_refl. reflexivity.
  - destruct (String.eqb a k) eqn:Ha; simpl.
    + rewrite String.eqb_refl. reflexivity.
    + rewrite Ha. exact IH.
Qed.

Lemma get_set_other (k k' v : string) (ps : t) :
  k <> k' -> get k (set k' v ps) = get k ps.
Proof.
  intros Hne. induction ps as [|[a w] r IH]; simpl.
  - destruct (String.eqb k' k) eqn:Hk; [|reflexivity].
    apply String.eqb_eq in Hk. congruence.
  - destruct (String.eqb a k') eqn:Ha; simpl.
    + apply String.eqb_eq in Ha. subst a.
      destruct (String.eqb k' k) eqn:Hk.
      * apply String.eqb_eq in Hk. congruence.
      * apply get_remove_other. exact Hne.
    + rewrite IH. reflexivity.
Qed.

End SearchParamsFacts.

Lemma saveSettings_sets (s : Settings) (url : SearchParams.t) :
  saveSettings s url =
  SearchParams.set "coordinates" (Stringify.stringify (pair_json (coordinates s)))
    (SearchParams.set "name" (name s)
      (SearchParams.set "fontColor" (fontColor s)
        (SearchParams.set "fontSize" (fontSize s)
          (SearchParams.set "fontLoadingCode" (fontLoadingCode s)
            (SearchParams.set "isItalic" (isItalic s)
              (SearchParams.set "isBold" (isBold s)
                (SearchParams.set "fontFamily" (fontFamily s) url))))))).
Proof. reflexivity. Qed.

(** Reading one saved key back. *)
Ltac read_back :=
  rewrite saveSettings_sets;
  repeat (rewrite get_set_other by discriminate);
  rewrite get_set_same.

Lemma string_or_nonempty (v d : string) :
  is_empty v = false -> string_or (Some v) d = v.
Proof. intros H. unfold string_or. rewrite H. reflexivity. Qed.

Lemma loadStringParam_saved (key v d : string) (url : SearchParams.t) :
  SearchParams.get key url = Some v ->
  (is_empty v = true -> v = d) ->
  string_or (loadStringParam url key) d = v.
Proof.
  intros Hg Hd. unfold loadStringParam. rewrite Hg.
  destruct (is_empty v) eqn:He; simpl.
  - symmetry. apply Hd. reflexivity.
  - rewrite He. reflexivity.
Qed.

Lemma is_empty_true (v : string) : is_empty v = true -> v = EmptyString.
Proof. destruct v; [reflexivity | discriminate]. Qed.


Lemma stringify_pair_nonempty (c : number * number) :
  is_empty (Stringify.stringify (pair_json c)) = false.
Proof. reflexivity. Qed.

Lemma loadStringParam_or (key v d : string) (url : SearchParams.t) :
  SearchParams.get key url = Some v ->
  string_or (loadStringParam url key) d = string_or (Some v) d.
Proof.
  intros Hg. unfold loadStringParam. rewrite Hg.
  destruct v; reflexivity.
Qed.

(** What comes back whatever was saved: every text field as it was, or as
    its default if it was empty. *)
Lemma saved_text_comes_back (s s' : Settings) (url : SearchParams.t) :
  loadSettings (saveSettings s url) = Started s' ->
  name s' = string_or (Some (name s)) "Tan Ah Kow"
  /\ fontLoadingCode s' = fontLoadingCode s
  /\ fontFamily s' = string_or (Some (fontFamily s)) "sans-serif"
  /\ isItalic s' = isItalic s
  /\ isBold s' = isBold s
  /\ fontColor s' = string_or (Some (fontColor s)) "#000000"
  /\ fontSize s' = string_or (Some (fontSize s)) "14".
Proof.
  unfold loadSettings.
  destruct (loadObjectParam (saveSettings s url) "coordinates") as [v|];
    [|discriminate].
  destruct (json_or v (pair_json default_coordinates))
    as [| | | |[|[| | x| | |] [|[| | y| | |] [|]]]|]; try discriminate.
  intros H. injection H as <-. cbn [name fontLoadingCode fontFamily isItalic
                                    isBold fontColor fontSize].
  rewrite (loadStringParam_or "name" (name s)) by (read_back; reflexivity).
  rewrite (loadStringParam_or "fontLoadingCode" (fontLoadingCode s))
    by (read_back; reflexivity).
  rewrite (loadStringParam_or "fontFamily" (fontFamily s))
    by (read_back; reflexivity).
  rewrite (loadStringParam_or "isItalic" (isItalic s))
    by (read_back; reflexivity).
  rewrite (loadStringParam_or "isBold" (isBold s)) by (read_back; reflexivity).
  rewrite (loadStringParam_or "fontColor" (fontColor s))
    by (read_back; reflexivity).
  rewrite (loadStringParam_or "fontSize" (fontSize s))
    by (read_back; reflexivity).
  repeat split; try reflexivity.
  - destruct (fontLoadingCode s); reflexivity.
  - destruct (isItalic s); reflexivity.
  - destruct (isBold s); reflexivity.
Qed.

(** ** The JSON reader and its fuel *)

Section ReaderFuel.
Import Text.
Local Open Scope nat_scope.

Lemma skip_ws_length (s : string) :
  String.length (JSON.skip_ws s) <= String.length s.
Proof.
  induction s as [|c r IH]; simpl; [lia|].
  destruct (JSON.is_ws c); simpl; lia.
Qed.

Lemma strip_prefix_length (p s r : string) :
  strip_prefix p s = Some r ->
  String.length s = String.length p + String.length r.
Proof.
  revert s. induction p as [|a p IH]; intros s; simpl.
  - intros H. injection H as ->. reflexivity.
  - destruct s as [|b s]; [discriminate|].
    destruct (Ascii.eqb a b); [|discriminate].
    intros H. simpl. rewrite (IH s H). reflexivity.
Qed.

Lemma read_digits_length (s : string) :
  forall acc cnt v c r,
    read_digits s acc cnt = (v, c, r) ->
    String.length r + c = String.length s + cnt.
Proof.
  induction s as [|a s IH]; intros acc cnt v c r; simpl.
  - intros H. injection H as <- <- <-. reflexivity.
  - destruct (is_digit a).
    + intros H. apply IH in H. lia.
    + intros H. injection H as <- <- <-. reflexivity.
Qed.

Lemma read_string_length_upto (n : nat) :
  forall s t r,
    String.length s <= n ->
    JSON.read_string s = Some (t, r) -> String.length r < String.length s.
Proof.
  induction n as [|n IHn]; intros s t r Hn.
  { destruct s; [discriminate | simpl in Hn; lia]. }
  assert (IH : forall t0 s' t' r',
             String.length s' < String.length s ->
             JSON.prepend t0 (JSON.read_string s') = Some (t', r') ->
             String.length r' < String.length s).
  { intros t0 s' t' r' Hlt.
    destruct (JSON.read_string s') as [[t1 r1]|] eqn:Hr; [|discriminate].
    intros H. injection H as <- <-.
    apply IHn in Hr; lia. }
  clear IHn. revert t r.
  intros t r. destruct s as [|c s]; [discriminate|].
  cbn [JSON.read_string].
  destruct (Ascii.eqb c dquote).
  { intros H. injection H as <- <-. simpl. lia. }
  destruct (Ascii.eqb c "\").
  { destruct s as [|e s']; [discriminate|].
    assert (Hesc : forall t r,
               match JSON.unescape e with
               | Some ch =>
                   JSON.prepend (String ch EmptyString) (JSON.read_string s')
               | None => None
               end = Some (t, r) ->
               String.length r < String.length (String c (String e s'))).
    { intros t0 r0. destruct (JSON.unescape e); [|discriminate].
      apply IH. simpl. lia. }
    destruct (Ascii.eqb e "u") eqn:Heu.
    - apply Ascii.eqb_eq in Heu. subst e.
      destruct s' as [|h1 [|h2 [|h3 [|h4 s4]]]]; try apply Hesc.
      destruct (JSON.hex4 h1 h2 h3 h4) as [u|]; [|discriminate].
      destruct s4 as [|b1 [|b2 [|l1 [|l2 [|l3 [|l4 s6]]]]]];
        try (apply IH; simpl; lia).
      destruct (if (Ascii.eqb b1 "\" && Ascii.eqb b2 "u" && JSON.is_high u)%bool
                then JSON.hex4 l1 l2 l3 l4 else None) as [lo|];
        [destruct (JSON.is_low lo)|]; apply IH; simpl; lia.
    - assert (He : e <> "u"%char) by (apply Ascii.eqb_neq; exact Heu).
      destruct e as [[|] [|] [|] [|] [|] [|] [|] [|]]; try apply Hesc.
      congruence. }
  destruct (code c <? 32)%N; [discriminate|].
  apply IH. simpl. lia.
Qed.

Lemma read_string_length (s t r : string) :
  JSON.read_string s = Some (t, r) -> String.length r < String.length s.
Proof. apply (read_string_length_upto (String.length s)). lia. Qed.


Lemma expect_length (c : ascii) (s r : string) :
  JSON.expect c s = Some r -> String.length r < String.length s.
Proof.
  unfold JSON.expect. pose proof (skip_ws_length s) as Hs.
  destruct (JSON.skip_ws s) as [|d r']; [discriminate|].
  destruct (Ascii.eqb d c); [|discriminate].
  intros H. injection H as <-. simpl in Hs. lia.
Qed.

Lemma read_int_length (s : string) (v : N) (r : string) :
  JSON.read_int s = Some (v, r) -> String.length r < String.length s.
Proof.
  unfold JSON.read_int. destruct s as [|c s]; [discriminate|].
  destruct (Ascii.eqb c "0").
  - intros H. injection H as <- <-. simpl. lia.
  - destruct (read_digits (String c s) 0%N 0) as [[v' cnt] rest] eqn:Hd.
    apply read_digits_length in Hd.
    destruct cnt; [discriminate|].
    intros H. injection H as <- <-. lia.
Qed.

Lemma read_frac_length (ip : N) (s : string) (v : N) (n : nat) (r : string) :
  JSON.read_frac ip s = Some (v, n, r) -> String.length r <= String.length s.
Proof.
  unfold JSON.read_frac. destruct s as [|c s].
  - intros H. injection H as <- <- <-. lia.
  - destruct (Ascii.eqb c ".").
    + destruct (read_digits s ip 0) as [[v' cnt] rest] eqn:Hd.
      apply read_digits_length in Hd.
      destruct cnt; [discriminate|].
      intros H. injection H as <- <- <-. simpl. lia.
    + intros H. injection H as <- <- <-. lia.
Qed.

Lemma read_sign_length (s : string) :
  String.length (snd (ParseFloat.read_sign s)) <= String.length s.
Proof.
  unfold ParseFloat.read_sign. destruct s as [|c s]; [simpl; lia|].
  destruct (Ascii.eqb c "-"); [simpl; lia|].
  destruct (Ascii.eqb c "+"); simpl; lia.
Qed.

Lemma read_exp_length (s : string) (e : Z) (r : string) :
  JSON.read_exp s = Some (e, r) -> String.length r <= String.length s.
Proof.
  unfold JSON.read_exp. destruct s as [|c s].
  - intros H. injection H as <- <-. lia.
  - destruct (Ascii.eqb c "e" || Ascii.eqb c "E")%bool.
    + pose proof (read_sign_length s) as Hs.
      destruct (ParseFloat.read_sign s) as [neg r'].
      destruct (read_digits r' 0%N 0) as [[v' cnt] rest] eqn:Hd.
      apply read_digits_length in Hd.
      destruct cnt; [discriminate|].
      intros H. injection H as <- <-. simpl in *. lia.
    + intros H. injection H as <- <-. lia.
Qed.

Lemma read_number_length (s : string) (x : number) (r : string) :
  JSON.read_number s = Some (x, r) -> String.length r < String.length s.
Proof.
  unfold JSON.read_number.
  set (p := match s with
            | String c r0 => if Ascii.eqb c "-" then (true, r0) else (false, s)
            | EmptyString => (false, s)
            end).
  assert (Hp : String.length (snd p) <= String.length s).
  { subst p. destruct s as [|c s]; [simpl; lia|].
    destruct (Ascii.eqb c "-"); simpl; lia. }
  destruct p as [neg s0]. simpl in Hp.
  destruct (JSON.read_int s0) as [[ip s1]|] eqn:Hi; [|discriminate].
  destruct (JSON.read_frac ip s1) as [[[m nf] s2]|] eqn:Hf; [|discriminate].
  destruct (JSON.read_exp s2) as [[ex rest]|] eqn:He; [|discriminate].
  intros H. injection H as <- <-.
  apply read_int_length in Hi. apply read_frac_length in Hf.
  apply read_exp_length in He. lia.
Qed.

Lemma read_literal_length (s : string) (v : json) (r : string) :
  JSON.read_literal s = Some (v, r) -> String.length r < String.length s.
Proof.
  unfold JSON.read_literal.
  destruct (strip_prefix "null" s) as [r0|] eqn:H0.
  { intros H. injection H as <- <-.
    apply strip_prefix_length in H0. simpl in H0. lia. }
  destruct (strip_prefix "true" s) as [r1|] eqn:H1.
  { intros H. injection H as <- <-.
    apply strip_prefix_length in H1. simpl in H1. lia. }
  destruct (strip_prefix "false" s) as [r2|] eqn:H2.
  { intros H. injection H as <- <-.
    apply strip_prefix_length in H2. simpl in H2. lia. }
  destruct (JSON.read_number s) as [[x rest]|] eqn:Hn; [|discriminate].
  intros H. injection H as <- <-. exact (read_number_length _ _ _ Hn).
Qed.

(** Every reader that returns a value has consumed at least one
    character. *)
Lemma readers_consume (fuel : nat) :
  (forall s v r, JSON.read_value fuel s = Some (v, r) ->
                 String.length r < String.length s)
  /\ (forall s acc v r, JSON.read_elements fuel s acc = Some (v, r) ->
                        String.length r < String.length s)
  /\ (forall s acc v r, JSON.read_members fuel s acc = Some (v, r) ->
                        String.length r < String.length s).
Proof.
  induction fuel as [|f (IHv & IHe & IHm)].
  { repeat split; intros; discriminate. }
  assert (Hv : forall s v r, JSON.read_value (S f) s = Some (v, r) ->
                             String.length r < String.length s).
  { intros s v r. cbn [JSON.read_value].
    pose proof (skip_ws_length s) as Hs.
    destruct (JSON.skip_ws s) as [|c t]; [discriminate|]. simpl in Hs.
    destruct (Ascii.eqb c "[").
    { destruct (JSON.expect "]" t) as [r'|] eqn:Hx.
      - intros H. injection H as <- <-. apply expect_length in Hx. lia.
      - intros H. apply IHe in H. lia. }
    destruct (Ascii.eqb c "{").
    { destruct (JSON.expect "}" t) as [r'|] eqn:Hx.
      - intros H. injection H as <- <-. apply expect_length in Hx. lia.
      - intros H. apply IHm in H. lia. }
    destruct (Ascii.eqb c dquote).
    { destruct (JSON.read_string t) as [[k rest]|] eqn:Hr; [|discriminate].
      intros H. injection H as <- <-. apply read_string_length in Hr. lia. }
    intros H. apply read_literal_length in H. simpl in H. lia. }
  split; [exact Hv|]. split.
  - intros s acc v r. cbn [JSON.read_elements].
    destruct (JSON.read_value f s) as [[v0 r0]|] eqn:H0; [|discriminate].
    apply IHv in H0.
    destruct (JSON.expect "," r0) as [r1|] eqn:H1.
    { apply expect_length in H1. intros H. apply IHe in H. lia. }
    destruct (JSON.expect "]" r0) as [r2|] eqn:H2; [|discriminate].
    apply expect_length in H2. intros H. injection H as <- <-. lia.
  - intros s acc v r. cbn [JSON.read_members].
    destruct (JSON.expect dquote s) as [r0|] eqn:H0; [|discriminate].
    apply expect_length in H0.
    destruct (JSON.read_string r0) as [[k r1]|] eqn:H1; [|discriminate].
    apply read_string_length in H1.
    destruct (JSON.expect ":" r1) as [r2|] eqn:H2; [|discriminate].
    apply expect_length in H2.
    destruct (JSON.read_value f r2) as [[v0 r3]|] eqn:H3; [|discriminate].
    apply IHv in H3.
    destruct (JSON.expect "," r3) as [r4|] eqn:H4.
    { apply expect_length in H4. intros H. apply IHm in H. lia. }
    destruct (JSON.expect "}" r3) as [r5|] eqn:H5; [|discriminate].
    apply expect_length in H5. intros H. injection H as <- <-. lia.
Qed.

(** Fuel beyond twice the length of the text changes nothing: with
    [2 n + 1] units for a value and [2 n + 2] for a list of elements or
    of members, on a text of at most [n] characters, every reader gives
    what it gives with any larger fuel. *)
Lemma readers_fuel (n : nat) :
  (forall s f g, String.length s <= n -> 2 * n + 1 <= f -> 2 * n + 1 <= g ->
                 JSON.read_value f s = JSON.read_value g s)
  /\ (forall s acc f g,
        String.length s <= n -> 2 * n + 2 <= f -> 2 * n + 2 <= g ->
        JSON.read_elements f s acc = JSON.read_elements g s acc)
  /\ (forall s acc f g,
        String.length s <= n -> 2 * n + 2 <= f -> 2 * n + 2 <= g ->
        JSON.read_members f s acc = JSON.read_members g s acc).
Proof.
  induction n as [|n (IHv & IHe & IHm)].
  - assert (Hv : forall s f, String.length s <= 0 ->
                             JSON.read_value f s = None).
    { intros [|c s] f Hs; [|simpl in Hs; lia]. destruct f; reflexivity. }
    repeat split.
    + intros s f g Hs _ _. rewrite !Hv by exact Hs. reflexivity.
    + intros s acc f g Hs Hf Hg.
      destruct f as [|f]; [lia|]. destruct g as [|g]; [lia|].
      cbn [JSON.read_elements]. rewrite !Hv by exact Hs. reflexivity.
    + intros [|c s] acc f g Hs Hf Hg; [|simpl in Hs; lia].
      destruct f as [|f]; [lia|]. destruct g as [|g]; [lia|]. reflexivity.
  - assert (Hv : forall s f g,
               String.length s <= S n -> 2 * S n + 1 <= f -> 2 * S n + 1 <= g ->
               JSON.read_value f s = JSON.read_value g s).
    { intros s f g Hs Hf Hg.
      destruct f as [|f]; [lia|]. destruct g as [|g]; [lia|].
      cbn [JSON.read_value].
      pose proof (skip_ws_length s) as Hw.
      destruct (JSON.skip_ws s) as [|c t]; [reflexivity|]. simpl in Hw.
      rewrite (IHe t [] f g) by lia.
      rewrite (IHm t [] f g) by lia. reflexivity. }
    split; [exact Hv|]. split.
    + intros s acc f g Hs Hf Hg.
      destruct f as [|f]; [lia|]. destruct g as [|g]; [lia|].
      cbn [JSON.read_elements].
      rewrite (Hv s f g) by lia.
      destruct (JSON.read_value g s) as [[v r]|] eqn:H0; [|reflexivity].
      apply (proj1 (readers_consume g)) in H0.
      destruct (JSON.expect "," r) as [r1|] eqn:H1; [|reflexivity].
      apply expect_length in H1. apply IHe; lia.
    + intros s acc f g Hs Hf Hg.
      destruct f as [|f]; [lia|]. destruct g as [|g]; [lia|].
      cbn [JSON.read_members].
      destruct (JSON.expect dquote s) as [r0|] eqn:H0; [|reflexivity].
      apply expect_length in H0.
      destruct (JSON.read_string r0) as [[k r1]|] eqn:H1; [|reflexivity].
      apply read_string_length in H1.
      destruct (JSON.expect ":" r1) as [r2|] eqn:H2; [|reflexivity].
      apply expect_length in H2.
      rewrite (IHv r2 f g) by lia.
      destruct (JSON.read_value g r2) as [[v r3]|] eqn:H3; [|reflexivity].
      apply (proj1 (readers_consume g)) in H3.
      destruct (JSON.expect "," r3) as [r4|] eqn:H4; [|reflexivity].
      apply expect_length in H4. apply IHm; lia.
Qed.

(** The fuel [JSON.parse] gives its reader is enough: more of it reads
    the same value. *)
Lemma parse_fuel (text : string) (fuel : nat) :
  2 * String.length text + 1 <= fuel ->
  JSON.read_value fuel text
  = JSON.read_value (2 * String.length text + 2) text.
Proof.
  intros Hf. apply (proj1 (readers_fuel (String.length text))); lia.
Qed.

End ReaderFuel.

(** ** Numbers as text *)

Section Digits10.
Import NumberToString.

Lemma pow10_pos (n : Z) : 0 <= n -> 0 < 10 ^ n.
Proof. intros H. apply Z.pow_pos_nonneg; lia. Qed.

Lemma pow10_le (a b : Z) : 0 <= a <= b -> 10 ^ a <= 10 ^ b.
Proof. intros H. apply Z.pow_le_mono_r; lia. Qed.

(** A smaller power of ten is below the number too. *)
Lemma ge_pow10_mono (num den a b : Z) :
  0 < num -> 0 < den -> b <= a ->
  ge_pow10 num den a = true -> ge_pow10 num den b = true.
Proof.
  intros Hn Hd Hba. unfold ge_pow10.
  destruct (0 <=? a) eqn:Ha, (0 <=? b) eqn:Hb;
    rewrite ?Z.leb_le, ?Z.leb_gt in *; intros H.
  - pose proof (pow10_le b a ltac:(lia)). nia.
  - pose proof (pow10_pos a ltac:(lia)).
    pose proof (pow10_pos (- b) ltac:(lia)). nia.
  - lia.
  - pose proof (pow10_le (- a) (- b) ltac:(lia)).
    pose proof (pow10_pos (- a) ltac:(lia)). nia.
Qed.

Lemma lower_spec (num den : Z) (fuel : nat) :
  forall n,
    ge_pow10 num den (lower fuel num den n - 1) = true
    \/ lower fuel num den n = n - Z.of_nat fuel.
Proof.
  induction fuel as [|f IH]; intros n; simpl.
  - right. lia.
  - destruct (ge_pow10 num den (n - 1)) eqn:H; [left; exact H|].
    destruct (IH (n - 1)) as [H1|H1]; [left; exact H1 | right; lia].
Qed.

Lemma lower_keeps (num den : Z) (fuel : nat) :
  forall n,
    ge_pow10 num den n = false ->
    ge_pow10 num den (lower fuel num den n) = false.
Proof.
  induction fuel as [|f IH]; intros n Hn; simpl; [exact Hn|].
  destruct (ge_pow10 num den (n - 1)) eqn:H; [exact Hn|].
  apply IH. exact H.
Qed.

Lemma raise_bound (num den B : Z) (fuel : nat) :
  (forall j, B <= j -> ge_pow10 num den j = false) ->
  forall n, n <= B -> raise fuel num den n <= B.
Proof.
  intros HB. induction fuel as [|f IH]; intros n Hn; simpl; [exact Hn|].
  destruct (ge_pow10 num den n) eqn:H; [|exact Hn].
  apply IH. destruct (Z.eq_dec n B) as [->|Hne]; [|lia].
  rewrite HB in H by lia. discriminate.
Qed.

Lemma raise_spec (num den : Z) (fuel : nat) :
  forall n,
    ge_pow10 num den (raise fuel num den n) = false
    \/ raise fuel num den n = n + Z.of_nat fuel.
Proof.
  induction fuel as [|f IH]; intros n; simpl.
  - right. lia.
  - destruct (ge_pow10 num den n) eqn:H; [|left; exact H].
    destruct (IH (n + 1)) as [H1|H1]; [left; exact H1 | right; lia].
Qed.

Lemma double_range (s : bool) (m : positive) (e : Z) :
  Num.is_double (S754_finite s m e) = true ->
  Zpos m < 2 ^ 53 /\ -1074 <= e <= 971.
Proof.
  intros H. pose proof (canonical_bounds s m e H) as (Hd & He & _).
  unfold Num.is_double, valid_binary, bounded in H.
  apply andb_prop in H as [_ H]. apply Z.leb_le in H.
  unfold Num.emax, Num.prec in H.
  pose proof (digits_bounds m) as [_ Hm].
  split; [|lia].
  apply Z.lt_le_trans with (1 := Hm).
  apply Z.pow_le_mono_r; lia.
Qed.

Lemma ratio_pos (m : positive) (e : Z) :
  0 < fst (ratio m e) /\ 0 < snd (ratio m e).
Proof.
  unfold ratio. destruct (0 <=? e) eqn:He; simpl.
  - apply Z.leb_le in He. split; [|lia].
    pose proof (Z.pow_pos_nonneg 2 e). nia.
  - apply Z.leb_gt in He. split; [lia|].
    apply Z.pow_pos_nonneg; lia.
Qed.

Lemma pow2_1074 : 2 ^ 1074 <= 10 ^ 324.
Proof. apply Z.leb_le. vm_compute. reflexivity. Qed.

Lemma pow2_1024 : 2 ^ 1024 < 10 ^ 309.
Proof. apply Z.ltb_lt. vm_compute. reflexivity. Qed.

(** Every double is at least [10^-324] ... *)
Lemma ratio_lower (s : bool) (m : positive) (e : Z) :
  Num.is_double (S754_finite s m e) = true ->
  ge_pow10 (fst (ratio m e)) (snd (ratio m e)) (-324) = true.
Proof.
  intros H. apply double_range in H as [Hm He].
  unfold ratio, ge_pow10. simpl (0 <=? -324). cbn iota.
  change (- -324) with 324.
  destruct (0 <=? e) eqn:H0; simpl; apply Z.leb_le.
  - apply Z.leb_le in H0. pose proof (Z.pow_pos_nonneg 2 e).
    pose proof (pow10_pos 324). nia.
  - apply Z.leb_gt in H0.
    assert (2 ^ (- e) <= 2 ^ 1074) by (apply Z.pow_le_mono_r; lia).
    pose proof pow2_1074. nia.
Qed.

(** ... and below [10^309]. *)
Lemma ratio_upper (s : bool) (m : positive) (e : Z) (j : Z) :
  Num.is_double (S754_finite s m e) = true -> 309 <= j ->
  ge_pow10 (fst (ratio m e)) (snd (ratio m e)) j = false.
Proof.
  intros H Hj. apply double_range in H as [Hm He].
  unfold ratio, ge_pow10.
  replace (0 <=? j) with true by (symmetry; apply Z.leb_le; lia).
  pose proof (pow10_le 309 j ltac:(lia)) as Hp.
  pose proof pow2_1024 as Hq.
  destruct (0 <=? e) eqn:H0; simpl; apply Z.leb_gt.
  - apply Z.leb_le in H0.
    assert (2 ^ e <= 2 ^ 971) by (apply Z.pow_le_mono_r; lia).
    assert (Zpos m * 2 ^ e < 2 ^ 53 * 2 ^ 971).
    { pose proof (Z.pow_pos_nonneg 2 e). nia. }
    replace (2 ^ 53 * 2 ^ 971) with (2 ^ 1024) in *
      by (rewrite <- Z.pow_add_r by lia; reflexivity).
    lia.
  - apply Z.leb_gt in H0.
    assert (1 <= 2 ^ (- e)) by (pose proof (Z.pow_pos_nonneg 2 (- e)); lia).
    assert (2 ^ 53 < 2 ^ 1024) by (apply Z.pow_lt_mono_r; lia).
    nia.
Qed.

Lemma estimate_bound (s : bool) (m : positive) (e : Z) :
  Num.is_double (S754_finite s m e) = true ->
  -324 <= (Z.log2 (Zpos m) + e) * 30103 / 100000 <= 309.
Proof.
  intros H. apply double_range in H as [Hm He].
  assert (Z.log2 (Zpos m) < 53) by (apply Z.log2_lt_pow2; lia).
  pose proof (Z.log2_nonneg (Zpos m)).
  split.
  - apply Z.div_le_lower_bound; lia.
  - apply Z.div_le_upper_bound; lia.
Qed.

(** The magnitude [n] of a double: [10 ^ (n - 1)] is at most the number,
    and [10 ^ n] is above it. *)
Lemma magnitude_lower (s : bool) (m : positive) (e : Z) :
  Num.is_double (S754_finite s m e) = true ->
  ge_pow10 (fst (ratio m e)) (snd (ratio m e)) (magnitude m e - 1) = true.
Proof.
  intros H. unfold magnitude.
  pose proof (ratio_pos m e) as [Hn Hd].
  destruct (ratio m e) as [num den] eqn:Hr. cbn [fst snd] in *.
  set (est := (Z.log2 (Zpos m) + e) * 30103 / 100000).
  assert (Hraise : raise 700 num den est <= 309).
  { apply raise_bound.
    - intros j Hj. pose proof (ratio_upper s m e j H Hj) as Hu.
      rewrite Hr in Hu. exact Hu.
    - exact (proj2 (estimate_bound s m e H)). }
  destruct (lower_spec num den 700 (raise 700 num den est)) as [Hl|Hl];
    [exact Hl|].
  pose proof (ratio_lower s m e H) as Hlow. rewrite Hr in Hlow.
  cbn [fst snd] in Hlow.
  apply (ge_pow10_mono num den (-324)); try assumption.
  rewrite Hl. lia.
Qed.

Lemma magnitude_upper (s : bool) (m : positive) (e : Z) :
  Num.is_double (S754_finite s m e) = true ->
  ge_pow10 (fst (ratio m e)) (snd (ratio m e)) (magnitude m e) = false.
Proof.
  intros H. unfold magnitude.
  destruct (ratio m e) as [num den] eqn:Hr. cbn [fst snd] in *.
  set (est := (Z.log2 (Zpos m) + e) * 30103 / 100000).
  apply lower_keeps.
  destruct (raise_spec num den 700 est) as [Hl|Hl]; [exact Hl|].
  rewrite Hl.
  pose proof (ratio_upper s m e (est + Z.of_nat 700) H) as Hu.
  rewrite Hr in Hu. apply Hu.
  pose proof (proj1 (estimate_bound s m e H)). fold est in H0. lia.
Qed.

Lemma pow10_add (a b : Z) : 0 <= a -> 0 <= b -> 10 ^ (a + b) = 10 ^ a * 10 ^ b.
Proof. intros. apply Z.pow_add_r; assumption. Qed.

(** With [n] the magnitude, the number scaled to [k] digits lies between
    [10^(k-1)] and [10^k]. *)
Lemma scaled_bounds (num den n k : Z) :
  0 < num -> 0 < den -> 1 <= k ->
  ge_pow10 num den (n - 1) = true -> ge_pow10 num den n = false ->
  10 ^ (k - 1) <= fst (scaled num den (k - n)) / snd (scaled num den (k - n))
               < 10 ^ k.
Proof.
  intros Hn Hd Hk Hlo Hhi. unfold scaled, ge_pow10 in *.
  destruct (0 <=? k - n) eqn:Hp; cbn [fst snd];
    rewrite ?Z.leb_le, ?Z.leb_gt in Hp.
  - pose proof (pow10_pos (k - n) Hp) as Pp.
    pose proof (pow10_pos (k - 1) ltac:(lia)) as Pk.
    split.
    + apply Z.div_le_lower_bound; [exact Hd|].
      destruct (0 <=? n - 1) eqn:H1;
        rewrite ?Z.leb_le, ?Z.leb_gt in H1; apply Z.leb_le in Hlo.
      * replace (k - 1) with ((n - 1) + (k - n)) by lia.
        rewrite pow10_add by lia. nia.
      * replace (k - n) with ((k - 1) + (- (n - 1))) by lia.
        rewrite pow10_add by lia.
        pose proof (pow10_pos (- (n - 1)) ltac:(lia)). nia.
    + apply Z.div_lt_upper_bound; [exact Hd|].
      destruct (0 <=? n) eqn:H1;
        rewrite ?Z.leb_le, ?Z.leb_gt in H1; apply Z.leb_gt in Hhi.
      * assert (E : 10 ^ k = 10 ^ n * 10 ^ (k - n))
          by (rewrite <- pow10_add by lia; f_equal; lia).
        rewrite E. nia.
      * replace (k - n) with (k + (- n)) by lia.
        rewrite pow10_add by lia.
        pose proof (pow10_pos k ltac:(lia)). nia.
  - assert (H1 : 0 <= n - 1) by lia.
    assert (H2 : 0 <= n) by lia.
    apply Z.leb_le in H1, H2. rewrite H1 in Hlo. rewrite H2 in Hhi.
    apply Z.leb_le in H1, H2, Hlo. apply Z.leb_gt in Hhi.
    pose proof (pow10_pos (- (k - n)) ltac:(lia)) as Pp.
    pose proof (pow10_pos (k - 1) ltac:(lia)) as Pk.
    split.
    + apply Z.div_le_lower_bound; [nia|].
      replace (n - 1) with ((k - 1) + (- (k - n))) in Hlo by lia.
      rewrite pow10_add in Hlo by lia. nia.
    + apply Z.div_lt_upper_bound; [nia|].
      assert (E : 10 ^ n = 10 ^ k * 10 ^ (- (k - n)))
        by (rewrite <- pow10_add by lia; f_equal; lia).
      rewrite E in Hhi. nia.
Qed.

Lemma number_eqb_eq (x y : number) : number_eqb x y = true -> x = y.
Proof.
  destruct x as [a|a| |a m e], y as [b|b| |b m' e']; simpl; try discriminate;
    try reflexivity.
  - intros H. apply Bool.eqb_prop in H. congruence.
  - intros H. apply Bool.eqb_prop in H. congruence.
  - intros H. apply andb_prop in H as [H He]. apply andb_prop in H as [Hs Hm].
    apply Bool.eqb_prop in Hs. apply Pos.eqb_eq in Hm. apply Z.eqb_eq in He.
    congruence.
Qed.

Lemma number_eqb_refl (x : number) : number_eqb x x = true.
Proof.
  destruct x as [a|a| |a m e]; simpl; rewrite ?Bool.eqb_reflx; try reflexivity.
  rewrite Pos.eqb_refl, Z.eqb_refl. reflexivity.
Qed.

(** What a candidate is: [k] digits, read as the number. *)
Lemma candidate_spec (x : number) (num den n k d n' : Z) :
  0 < num -> 0 < den -> 1 <= k ->
  ge_pow10 num den (n - 1) = true -> ge_pow10 num den n = false ->
  candidate x num den n k = Some (d, n') ->
  10 ^ (k - 1) <= d < 10 ^ k
  /\ Num.of_decimal false (Z.to_N d) (n' - k) = x.
Proof.
  intros Hn Hd Hk Hlo Hhi.
  pose proof (scaled_bounds num den n k Hn Hd Hk Hlo Hhi) as Hq.
  unfold candidate. destruct (scaled num den (k - n)) as [a b].
  cbn [fst snd] in Hq. set (q := a / b) in *.
  assert (Hpow : 10 ^ (k - 1) < 10 ^ k)
    by (apply Z.pow_lt_mono_r; lia).
  assert (Hnorm : forall z, q <= z <= q + 1 ->
            10 ^ (k - 1) <= fst (normal z n k) < 10 ^ k).
  { intros z Hz. unfold normal.
    destruct (Z.eqb_spec z (10 ^ k)); cbn [fst]; lia. }
  assert (Hread : forall dn, reads_back x k dn = true ->
            Num.of_decimal false (Z.to_N (fst dn)) (snd dn - k) = x).
  { intros dn H. apply number_eqb_eq. exact H. }
  pose proof (Hnorm q ltac:(lia)) as Nlo.
  pose proof (Hnorm (q + 1) ltac:(lia)) as Nhi.
  destruct (reads_back x k (normal q n k)) eqn:Rlo,
           (reads_back x k (normal (q + 1) n k)) eqn:Rhi;
    intros H; try discriminate; injection H as H.
  - destruct (_ || _).
    + rewrite H in *. split; [exact Nlo | exact (Hread _ Rlo)].
    + rewrite H in *. split; [exact Nhi | exact (Hread _ Rhi)].
  - rewrite H in *. split; [exact Nlo | exact (Hread _ Rlo)].
  - rewrite H in *. split; [exact Nhi | exact (Hread _ Rhi)].
Qed.

(** The search ends where a candidate is, at the latest. *)
Lemma shortest_found (x : number) (num den n K : Z) :
  candidate x num den n K <> None ->
  forall fuel k,
    k <= K < k + Z.of_nat fuel ->
    exists k', k <= k' <= K
               /\ candidate x num den n k'
                  = Some (shortest fuel x num den n k).
Proof.
  intros HK. induction fuel as [|f IH]; intros k Hk; [lia|].
  cbn [shortest].
  destruct (candidate x num den n k) as [dn|] eqn:Hc.
  - exists k. split; [lia | exact Hc].
  - assert (k <> K) by (intros ->; contradiction).
    destruct (IH (k + 1) ltac:(lia)) as (k' & Hk' & Hc').
    exists k'. split; [lia | exact Hc'].
Qed.

Lemma canonical_exponent (s : bool) (m : positive) (e : Z) :
  Num.is_double (S754_finite s m e) = true ->
  fexp Num.prec Num.emax (Zdigits2 (Zpos m) + e) = e.
Proof.
  unfold Num.is_double, valid_binary, bounded, canonical_mantissa.
  intros H. apply andb_prop in H as [H _]. apply Z.eqb_eq in H. exact H.
Qed.

Lemma digits_mul (a b : positive) :
  Zdigits2 (Zpos a * Zpos b) <= Zdigits2 (Zpos a) + Zdigits2 (Zpos b).
Proof.
  pose proof (digits_bounds a) as [_ Ha].
  pose proof (digits_bounds b) as [_ Hb].
  pose proof (digits_pos a). pose proof (digits_pos b).
  apply digits_le; [|lia].
  rewrite Z.pow_add_r by lia. split; [lia|]. nia.
Qed.

(** An integer that is a double is read as itself ... *)
Lemma of_decimal_exact_int (m : positive) (e : Z) :
  Num.is_double (S754_finite false m e) = true -> 0 <= e ->
  Num.of_decimal false (Z.to_N (Zpos m * 2 ^ e)) 0 = S754_finite false m e.
Proof.
  intros Hd He.
  pose proof (canonical_exponent _ _ _ Hd) as Hc.
  pose proof (double_range _ _ _ Hd) as [_ Hr].
  assert (Hpos : 0 < Zpos m * 2 ^ e).
  { pose proof (Z.pow_pos_nonneg 2 e). nia. }
  destruct (Zpos m * 2 ^ e) as [|p|p] eqn:Ep; try lia.
  cbn [Z.to_N]. unfold Num.of_decimal.
  change (0 <=? 0) with true. cbn iota.
  change (Z.to_pos (10 ^ 0)) with 1%positive. rewrite Pos.mul_1_r.
  unfold binary_round.
  change (Zpos (digits2_pos p)) with (Zdigits2 (Zpos p)).
  assert (Hdp : Zdigits2 (Zpos p) = Zdigits2 (Zpos m) + e).
  { rewrite <- Ep. apply digits_shift; lia. }
  replace (Zdigits2 (Zpos p) + 0) with (Zdigits2 (Zpos m) + e) by lia.
  fold Num.prec Num.emax. rewrite Hc.
  unfold shl_align.
  destruct (e - 0) as [|q|q] eqn:Eq; try lia;
    rewrite <- Ep;
    rewrite (round_exact false (Zpos m) e 0); try lia;
    try (rewrite Ep, Z.add_0_r, Hdp, Hc; lia);
    replace (0 + e <=? 971) with true by (symmetry; apply Z.leb_le; lia);
    reflexivity.
Qed.

Lemma pow10_split (j : Z) : 0 <= j -> 10 ^ j = 5 ^ j * 2 ^ j.
Proof. intros H. rewrite <- Z.pow_mul_l. reflexivity. Qed.

(** ... and so is its exact decimal expansion when it has a fraction. *)
Lemma of_decimal_exact_frac (m : positive) (e : Z) :
  Num.is_double (S754_finite false m e) = true -> e < 0 ->
  Num.of_decimal false (Z.to_N (Zpos m * 5 ^ (- e))) e = S754_finite false m e.
Proof.
  intros Hd He.
  pose proof (canonical_exponent _ _ _ Hd) as Hc.
  pose proof (canonical_bounds _ _ _ Hd) as (Hdm & _ & _).
  pose proof (double_range _ _ _ Hd) as [_ Hr].
  set (j := - e) in *.
  assert (Hj : 0 < j <= 1074) by lia.
  assert (P5 : 0 < 5 ^ j) by (apply Z.pow_pos_nonneg; lia).
  assert (P2 : 0 < 2 ^ j) by (apply Z.pow_pos_nonneg; lia).
  destruct (5 ^ j) as [|f|f] eqn:E5; try lia.
  assert (E10 : 10 ^ j = Zpos f * 2 ^ j) by (rewrite <- E5; apply pow10_split; lia).
  assert (Hpos : 0 < Zpos m * Zpos f) by lia.
  destruct (Zpos m * Zpos f) as [|p|p] eqn:Ep; try lia.
  cbn [Z.to_N]. unfold Num.of_decimal.
  replace (0 <=? e) with false by (symmetry; apply Z.leb_gt; lia).
  fold j.
  assert (P10 : 0 < 10 ^ j) by (apply Z.pow_pos_nonneg; lia).
  destruct (10 ^ j) as [|t|t] eqn:Et; try lia.
  pose proof (div_core_eq p t 0 0) as Hcore. cbv zeta in Hcore.
  rewrite Hcore. clear Hcore.
  set (e' := Z.min (fexp Num.prec Num.emax
                         (Zdigits2 (Zpos p) + 0 - (Zdigits2 (Zpos t) + 0)))
                   (0 - 0)).
  assert (Hdt : Zdigits2 (Zpos t) = Zdigits2 (Zpos f) + j).
  { rewrite E10. apply digits_shift; lia. }
  assert (Hdp : Zdigits2 (Zpos p) <= Zdigits2 (Zpos m) + Zdigits2 (Zpos f)).
  { rewrite <- Ep. apply digits_mul. }
  assert (He' : e' <= - j).
  { subst e'. rewrite fexp_eq. lia. }
  set (w := - e' - j).
  assert (Hw : 0 <= w) by (subst w; lia).
  assert (Hnum : Zpos p * 2 ^ (0 - 0 - e') = (Zpos m * 2 ^ w) * Zpos t).
  { replace (0 - 0 - e') with (w + j) by (subst w; lia).
    rewrite Z.pow_add_r by lia. rewrite E10, <- Ep. ring. }
  rewrite Hnum.
  rewrite Z.div_mul by lia. rewrite Z.mod_mul by lia.
  rewrite new_location_exact.
  rewrite (round_exact false (Zpos m) w e'); try lia.
  - replace (e' + w) with e by (subst w j; lia).
    replace (e <=? 971) with true by (symmetry; apply Z.leb_le; lia).
    reflexivity.
  - rewrite digits_shift by lia.
    replace (Zdigits2 (Zpos m) + w + e') with (Zdigits2 (Zpos m) + e)
      by (subst w j; lia).
    rewrite Hc. subst w j. lia.
Qed.

(** The exact decimal expansion is a candidate, so the search for the
    digits of a double ends. *)
Lemma candidate_exact (m : positive) (e : Z) :
  Num.is_double (S754_finite false m e) = true ->
  let n := magnitude m e in
  1 <= exact_digits e n
  /\ candidate (S754_finite false m e) (fst (ratio m e)) (snd (ratio m e))
               n (exact_digits e n) <> None.
Proof.
  intros Hd n.
  pose proof (magnitude_lower _ _ _ Hd) as Hlo.
  pose proof (magnitude_upper _ _ _ Hd) as Hhi.
  pose proof (ratio_pos m e) as [Hn Hden].
  pose proof (double_range _ _ _ Hd) as [_ Hr].
  fold n in Hlo, Hhi.
  set (K := exact_digits e n).
  assert (HK : 1 <= K).
  { destruct (Z.le_gt_cases 1 K) as [|Hlt]; [assumption|exfalso].
    assert (Hge : ge_pow10 (fst (ratio m e)) (snd (ratio m e)) n = true);
      [|congruence].
    apply (ge_pow10_mono _ _ (Z.min 0 e)); [assumption|assumption| |].
    - subst K. unfold exact_digits in Hlt. lia.
    - unfold ratio, ge_pow10.
      destruct (0 <=? e) eqn:E0; cbn [fst snd];
        rewrite ?Z.leb_le, ?Z.leb_gt in E0.
      + replace (Z.min 0 e) with 0 by lia. simpl (0 <=? 0). cbn iota.
        apply Z.leb_le. pose proof (Z.pow_pos_nonneg 2 e). nia.
      + replace (Z.min 0 e) with e by lia.
        replace (0 <=? e) with false by (symmetry; apply Z.leb_gt; lia).
        apply Z.leb_le.
        assert (2 ^ (- e) <= 10 ^ (- e)) by (apply Z.pow_le_mono_l; lia).
        nia. }
  split; [exact HK|].
  pose proof (scaled_bounds _ _ n K Hn Hden HK Hlo Hhi) as Hq.
  unfold candidate.
  destruct (scaled (fst (ratio m e)) (snd (ratio m e)) (K - n)) as [a b] eqn:Es.
  cbn [fst snd] in Hq.
  assert (Rlo : reads_back (S754_finite false m e) K (normal (a / b) n K) = true).
  { unfold normal.
    replace (a / b =? 10 ^ K) with false by (symmetry; apply Z.eqb_neq; lia).
    unfold reads_back. cbn [fst snd].
    assert (Hex : Num.of_decimal false (Z.to_N (a / b)) (n - K)
                  = S754_finite false m e);
      [|rewrite Hex; apply number_eqb_refl].
    unfold ratio, scaled in Es. subst K. unfold exact_digits in *.
    destruct (0 <=? e) eqn:E0; cbn [fst snd] in Es;
      rewrite ?Z.leb_le, ?Z.leb_gt in E0.
    - replace (n + Z.max 0 (- e) - n) with 0 in Es by lia.
      simpl (0 <=? 0) in Es. cbn iota in Es. injection Es as <- <-.
      replace (n - (n + Z.max 0 (- e))) with 0 by lia.
      change (10 ^ 0) with 1. rewrite Z.mul_1_r, Z.div_1_r.
      apply of_decimal_exact_int; assumption.
    - replace (n + Z.max 0 (- e) - n) with (- e) in Es by lia.
      replace (0 <=? - e) with true in Es by (symmetry; apply Z.leb_le; lia).
      injection Es as <- <-.
      replace (n - (n + Z.max 0 (- e))) with e by lia.
      rewrite (pow10_split (- e)) by lia.
      rewrite Z.mul_assoc, Z.div_mul
        by (pose proof (Z.pow_pos_nonneg 2 (- e)); lia).
      apply of_decimal_exact_frac; [assumption | lia]. }
  rewrite Rlo. destruct (reads_back _ K (normal (a / b + 1) n K));
    [destruct (_ || _)|]; discriminate.
Qed.

(** The digits [Number::toString] finds for a double: as many as their
    count says, and read as the double. *)
Lemma shortest_spec (m : positive) (e : Z) :
  Num.is_double (S754_finite false m e) = true ->
  let n := magnitude m e in
  let dn := shortest (Z.to_nat (exact_digits e n)) (S754_finite false m e)
                     (fst (ratio m e)) (snd (ratio m e)) n 1 in
  exists k, 1 <= k /\ 10 ^ (k - 1) <= fst dn < 10 ^ k
            /\ Num.of_decimal false (Z.to_N (fst dn)) (snd dn - k)
               = S754_finite false m e.
Proof.
  intros Hd n dn.
  destruct (candidate_exact m e Hd) as [HK Hc]. fold n in HK, Hc.
  destruct (shortest_found _ _ _ n _ Hc (Z.to_nat (exact_digits e n)) 1
              ltac:(lia)) as (k & Hk & Hk').
  fold dn in Hk'. exists k. split; [lia|].
  pose proof (ratio_pos m e) as [Hn Hden].
  destruct dn as [d n'].
  apply (candidate_spec _ _ _ n k d n' Hn Hden ltac:(lia)
           (magnitude_lower _ _ _ Hd) (magnitude_upper _ _ _ Hd) Hk').
Qed.

End Digits10.

Section NumberText.
Import Text.

Lemma append_cons (c : ascii) (a b : string) :
  String c a ++ b = String c (a ++ b).
Proof. reflexivity. Qed.

Lemma append_nil (b : string) : EmptyString ++ b = b.
Proof. reflexivity. Qed.

Lemma all_digits_app (a b : string) :
  all_digits (a ++ b) = all_digits a && all_digits b.
Proof.
  induction a as [|c a IH]; [reflexivity|].
  rewrite append_cons. cbn [all_digits]. rewrite IH, andb_assoc. reflexivity.
Qed.

Lemma string_length_app (a b : string) :
  String.length (a ++ b) = (String.length a + String.length b)%nat.
Proof.
  induction a as [|c a IH]; [reflexivity|].
  rewrite append_cons. cbn [String.length]. rewrite IH. reflexivity.
Qed.

Lemma string_app_assoc (a b c : string) : (a ++ b) ++ c = a ++ (b ++ c).
Proof.
  induction a as [|x a IH]; [reflexivity|].
  rewrite !append_cons, IH. reflexivity.
Qed.

(** Reading digits reads all of them, to their value, and stops at what
    follows. *)
Lemma read_digits_app (ds : string) :
  forall tail acc cnt,
    all_digits ds = true -> no_digit_ahead tail = true ->
    read_digits (ds ++ tail) acc cnt
    = (digits_value ds acc, (cnt + String.length ds)%nat, tail).
Proof.
  induction ds as [|c ds IH]; intros tail acc cnt Hd Ht.
  - rewrite append_nil. cbn [String.length digits_value].
    rewrite Nat.add_0_r.
    destruct tail as [|c r]; [reflexivity|].
    cbn [no_digit_ahead] in Ht. cbn [read_digits].
    apply negb_true_iff in Ht. rewrite Ht. reflexivity.
  - cbn [all_digits] in Hd. apply andb_prop in Hd as [Hc Hd].
    rewrite append_cons. cbn [read_digits String.length digits_value].
    rewrite Hc, (IH tail _ (S cnt) Hd Ht).
    f_equal. f_equal. lia.
Qed.

Lemma digits_value_app (a b : string) :
  forall acc, digits_value (a ++ b) acc = digits_value b (digits_value a acc).
Proof.
  induction a as [|c a IH]; intros acc; [reflexivity|].
  rewrite append_cons. cbn [digits_value]. apply IH.
Qed.

Lemma digits_value_acc (ds : string) :
  forall acc,
    digits_value ds acc
    = (acc * 10 ^ N.of_nat (String.length ds) + digits_value ds 0)%N.
Proof.
  induction ds as [|c ds IH]; intros acc.
  - cbn [digits_value String.length]. change (10 ^ N.of_nat 0)%N with 1%N. lia.
  - cbn [digits_value String.length].
    rewrite (IH (10 * acc + digit_val c)%N), (IH (10 * 0 + digit_val c)%N).
    rewrite Nat2N.inj_succ, N.pow_succ_r'. lia.
Qed.

Lemma digits_value_zeros (n : nat) (acc : N) :
  digits_value (repeat_char "0" n) acc = (acc * 10 ^ N.of_nat n)%N.
Proof.
  revert acc. induction n as [|n IH]; intros acc.
  - cbn [repeat_char digits_value]. change (10 ^ N.of_nat 0)%N with 1%N. lia.
  - cbn [repeat_char digits_value]. rewrite IH.
    change (digit_val "0") with 0%N.
    rewrite Nat2N.inj_succ, N.pow_succ_r'. lia.
Qed.

Lemma digit_val_bound (c : ascii) : is_digit c = true -> (digit_val c <= 9)%N.
Proof.
  unfold is_digit, digit_val. intros H. apply andb_prop in H as [H1 H2].
  apply N.leb_le in H1, H2. lia.
Qed.

Lemma digit_val_zero (c : ascii) :
  is_digit c = true -> Ascii.eqb c "0" = false -> (1 <= digit_val c)%N.
Proof.
  unfold is_digit, digit_val. intros H H0. apply andb_prop in H as [H1 H2].
  apply N.leb_le in H1, H2.
  assert (code c <> 48%N); [|lia].
  intros E. apply Ascii.eqb_neq in H0. apply H0.
  rewrite <- (ascii_N_embedding c). unfold code in E. rewrite E. reflexivity.
Qed.

Lemma digits_value_bound (ds : string) :
  all_digits ds = true ->
  (digits_value ds 0 < 10 ^ N.of_nat (String.length ds))%N.
Proof.
  induction ds as [|c ds IH]; intros Hd.
  - cbn. lia.
  - cbn [all_digits] in Hd. apply andb_prop in Hd as [Hc Hd].
    cbn [digits_value String.length].
    rewrite digits_value_acc, Nat2N.inj_succ, N.pow_succ_r'.
    pose proof (digit_val_bound c Hc). specialize (IH Hd). nia.
Qed.

Lemma numeral_value_lower (ds : string) :
  numeral ds = true ->
  (10 ^ (N.of_nat (String.length ds) - 1) <= digits_value ds 0)%N.
Proof.
  unfold numeral. intros H. apply andb_prop in H as [Hd Hc].
  destruct ds as [|c ds]; [discriminate|].
  apply negb_true_iff in Hc.
  cbn [all_digits] in Hd. apply andb_prop in Hd as [Hc1 Hd].
  cbn [digits_value String.length].
  rewrite digits_value_acc.
  replace (N.of_nat (S (String.length ds)) - 1)%N
    with (N.of_nat (String.length ds)) by lia.
  pose proof (digit_val_zero c Hc1 Hc). nia.
Qed.

Lemma uint_value_acc (u : Decimal.uint) :
  forall acc : positive,
    digits_value (NilEmpty.string_of_uint u) (Npos acc)
    = Npos (Pos.of_uint_acc u acc).
Proof.
  induction u as [|u IH|u IH|u IH|u IH|u IH|u IH|u IH|u IH|u IH|u IH];
    intros acc; [reflexivity|..];
    cbn [NilEmpty.string_of_uint digits_value Pos.of_uint_acc];
    rewrite <- IH; f_equal; unfold digit_val, code; simpl N_of_ascii; lia.
Qed.

Lemma uint_value (u : Decimal.uint) :
  digits_value (NilEmpty.string_of_uint u) 0 = Pos.of_uint u.
Proof.
  induction u as [|u IH|u IH|u IH|u IH|u IH|u IH|u IH|u IH|u IH|u IH];
    [reflexivity | exact IH |..];
    cbn [NilEmpty.string_of_uint digits_value Pos.of_uint];
    rewrite <- uint_value_acc; reflexivity.
Qed.

Lemma string_of_uint_digits (u : Decimal.uint) :
  all_digits (NilEmpty.string_of_uint u) = true.
Proof. induction u; simpl; try exact IHu; reflexivity. Qed.

Lemma to_uint_normal (p : positive) :
  Decimal.unorm (Pos.to_uint p) = Pos.to_uint p.
Proof.
  rewrite <- DecimalPos.Unsigned.to_of, DecimalPos.Unsigned.of_to.
  reflexivity.
Qed.

Lemma to_uint_head (p : positive) (u : Decimal.uint) :
  Pos.to_uint p <> Decimal.D0 u.
Proof.
  intros H. pose proof (to_uint_normal p) as Hn. rewrite H in Hn.
  unfold Decimal.unorm in Hn. rewrite DecimalFacts.nzhead_D0 in Hn.
  destruct (Decimal.nzhead u) eqn:Hz;
    try (exact (DecimalFacts.nzhead_nonzero u u (eq_trans Hz Hn))).
  injection Hn as <-.
  exact (DecimalPos.Unsigned.to_uint_nonzero p H).
Qed.

Lemma string_of_N_pos (p : positive) :
  string_of_N (Npos p) = NilEmpty.string_of_uint (Pos.to_uint p).
Proof.
  unfold string_of_N, NilZero.string_of_uint. simpl N.to_uint.
  pose proof (DecimalPos.Unsigned.to_uint_nonnil p) as Hn.
  destruct (Pos.to_uint p); [congruence|reflexivity..].
Qed.

(** The decimal text of a positive integer is a numeral ... *)
Lemma string_of_N_numeral (p : positive) :
  numeral (string_of_N (Npos p)) = true.
Proof.
  rewrite string_of_N_pos. unfold numeral.
  pose proof (to_uint_head p) as Hh.
  pose proof (DecimalPos.Unsigned.to_uint_nonnil p) as Hn.
  pose proof (string_of_uint_digits (Pos.to_uint p)) as Hd.
  destruct (Pos.to_uint p) as [|u|u|u|u|u|u|u|u|u|u];
    try (rewrite Hd; reflexivity).
  - congruence.
  - exfalso. exact (Hh u eq_refl).
Qed.

(** ... of that value ... *)
Lemma string_of_N_value (n : N) : digits_value (string_of_N n) 0 = n.
Proof.
  destruct n as [|p]; [reflexivity|].
  rewrite string_of_N_pos, uint_value. apply DecimalPos.Unsigned.of_to.
Qed.

Lemma string_of_N_digits (n : N) :
  all_digits (string_of_N n) = true
  /\ (0 < String.length (string_of_N n))%nat.
Proof.
  destruct n as [|p]; [split; [reflexivity | simpl; lia]|].
  pose proof (string_of_N_numeral p) as H. unfold numeral in H.
  apply andb_prop in H as [H1 H2]. split; [exact H1|].
  destruct (string_of_N (N.pos p)); [discriminate | simpl; lia].
Qed.

(** ... and of as many digits as its size asks for. *)
Lemma string_of_N_length (d k : Z) :
  1 <= k -> 10 ^ (k - 1) <= d < 10 ^ k ->
  Z.of_nat (String.length (string_of_N (Z.to_N d))) = k.
Proof.
  intros Hk Hd.
  assert (Hpos : 0 < d) by (pose proof (Z.pow_pos_nonneg 10 (k - 1)); lia).
  destruct d as [|p|p]; try lia. cbn [Z.to_N].
  pose proof (string_of_N_numeral p) as Hnum.
  pose proof (numeral_value_lower _ Hnum) as Hlo.
  pose proof (proj1 (string_of_N_digits (Npos p))) as Hall.
  pose proof (digits_value_bound _ Hall) as Hhi.
  pose proof (proj2 (string_of_N_digits (Npos p))) as Hlen.
  rewrite string_of_N_value in Hlo, Hhi.
  set (L := String.length (string_of_N (Npos p))) in *.
  apply N2Z.inj_le in Hlo. apply N2Z.inj_lt in Hhi.
  rewrite N2Z.inj_pow in Hlo, Hhi. rewrite N2Z.inj_sub in Hlo by lia.
  rewrite nat_N_Z in Hlo, Hhi. change (Z.of_N 10) with 10 in *.
  change (Z.of_N 1) with 1 in *. change (Z.of_N (Npos p)) with (Zpos p) in *.
  destruct (Z.lt_trichotomy (Z.of_nat L) k) as [Hlt|[Heq|Hgt]];
    [exfalso | exact Heq | exfalso].
  - assert (10 ^ Z.of_nat L <= 10 ^ (k - 1))
      by (apply Z.pow_le_mono_r; lia). lia.
  - assert (10 ^ k <= 10 ^ (Z.of_nat L - 1))
      by (apply Z.pow_le_mono_r; lia). lia.
Qed.

Lemma repeat_zero_digits (n : nat) : all_digits (repeat_char "0" n) = true.
Proof. induction n; simpl; [reflexivity | exact IHn]. Qed.

Lemma repeat_char_length (c : ascii) (n : nat) :
  String.length (repeat_char c n) = n.
Proof. induction n; simpl; [reflexivity | rewrite IHn; reflexivity]. Qed.

Lemma string_take_drop (n : nat) (s : string) : take n s ++ drop n s = s.
Proof.
  revert s. induction n as [|n IH]; intros [|c r]; simpl;
    try reflexivity. cbn [take drop]. rewrite append_cons, IH. reflexivity.
Qed.

Lemma string_take_length (n : nat) (s : string) :
  (n <= String.length s)%nat -> String.length (take n s) = n.
Proof.
  revert s. induction n as [|n IH]; intros [|c r]; simpl; try lia.
  intros H. rewrite IH by lia. reflexivity.
Qed.

(** What the three readers of a number literal make of an integer part,
    a fraction and an exponent that are well formed. *)
Lemma read_int_numeral (ds tail : string) :
  numeral ds = true -> no_digit_ahead tail = true ->
  JSON.read_int (ds ++ tail) = Some (digits_value ds 0, tail).
Proof.
  unfold numeral. intros H Ht. apply andb_prop in H as [Hd Hc].
  destruct ds as [|c ds]; [discriminate|].
  apply negb_true_iff in Hc.
  pose proof (read_digits_app (String c ds) tail 0%N 0%nat Hd Ht) as Hv.
  rewrite append_cons in *. unfold JSON.read_int.
  rewrite Hc, Hv. reflexivity.
Qed.

Lemma read_int_zero (tail : string) :
  JSON.read_int (String "0" tail) = Some (0%N, tail).
Proof. reflexivity. Qed.

Lemma read_frac_digits (ip : N) (ds tail : string) :
  all_digits ds = true -> (0 < String.length ds)%nat ->
  no_digit_ahead tail = true ->
  JSON.read_frac ip (String "." (ds ++ tail))
  = Some (digits_value ds ip, String.length ds, tail).
Proof.
  intros Hd Hl Ht.
  pose proof (read_digits_app ds tail ip 0%nat Hd Ht) as Hv.
  unfold JSON.read_frac. cbn [Ascii.eqb Bool.eqb].
  rewrite Hv. simpl. destruct (String.length ds); [lia | reflexivity].
Qed.

Lemma read_frac_none (ip : N) (tail : string) :
  match tail with
  | String c _ => Ascii.eqb c "." = false
  | EmptyString => True
  end ->
  JSON.read_frac ip tail = Some (ip, 0%nat, tail).
Proof.
  unfold JSON.read_frac. destruct tail as [|c r]; [reflexivity|].
  intros ->. reflexivity.
Qed.

Lemma read_exp_none (tail : string) :
  ends_number tail = true -> JSON.read_exp tail = Some (0, tail).
Proof.
  unfold JSON.read_exp, ends_number.
  destruct tail as [|c r]; [reflexivity|].
  intros H. apply negb_true_iff in H.
  apply orb_false_elim in H as [H HE].
  apply orb_false_elim in H as [_ He].
  rewrite He, HE. reflexivity.
Qed.

Lemma ends_number_no_digit (tail : string) :
  ends_number tail = true -> no_digit_ahead tail = true.
Proof.
  unfold ends_number, no_digit_ahead.
  destruct tail as [|c r]; [reflexivity|].
  intros H. apply negb_true_iff in H.
  apply orb_false_elim in H as [H _].
  apply orb_false_elim in H as [H _].
  apply orb_false_elim in H as [H _].
  rewrite H. reflexivity.
Qed.

Lemma ends_number_no_point (tail : string) :
  ends_number tail = true ->
  match tail with
  | String c _ => Ascii.eqb c "." = false
  | EmptyString => True
  end.
Proof.
  unfold ends_number. destruct tail as [|c r]; [exact (fun _ => I)|].
  intros H. apply negb_true_iff in H.
  apply orb_false_elim in H as [H _].
  apply orb_false_elim in H as [H _].
  apply orb_false_elim in H as [_ H]. exact H.
Qed.

Lemma read_exp_digits (e : Z) (tail : string) :
  no_digit_ahead tail = true ->
  JSON.read_exp
    (String "e" ((if 0 <=? e then "+" else "-")
                 ++ string_of_N (Z.abs_N e) ++ tail))
  = Some (e, tail).
Proof.
  intros Ht. destruct (string_of_N_digits (Z.abs_N e)) as [Hd Hl].
  pose proof (read_digits_app (string_of_N (Z.abs_N e)) tail 0%N 0%nat Hd Ht)
    as Hv.
  rewrite string_of_N_value in Hv.
  destruct (0 <=? e) eqn:He; rewrite ?Z.leb_le, ?Z.leb_gt in He;
    rewrite append_cons, append_nil;
    unfold JSON.read_exp, ParseFloat.read_sign;
    cbn [Ascii.eqb Bool.eqb orb]; rewrite Hv; cbn [Nat.add];
    (destruct (String.length (string_of_N (Z.abs_N e))); [lia|]);
    f_equal; f_equal; lia.
Qed.

(** A number literal put together from readable parts is read to its
    end, as the number of its digits and its exponent. *)
Lemma read_number_parts (neg : bool) (s0 s1 s2 tail : string)
      (ip m : N) (nf : nat) (ex : Z) :
  match s0 with
  | String c _ => Ascii.eqb c "-" = false
  | EmptyString => True
  end ->
  JSON.read_int s0 = Some (ip, s1) ->
  JSON.read_frac ip s1 = Some (m, nf, s2) ->
  JSON.read_exp s2 = Some (ex, tail) ->
  JSON.read_number ((if neg then "-" else EmptyString) ++ s0)
  = Some (Num.of_decimal neg m (ex - Z.of_nat nf), tail).
Proof.
  intros Hs Hi Hf He.
  destruct neg; rewrite ?append_cons, ?append_nil.
  - unfold JSON.read_number. cbn [Ascii.eqb Bool.eqb].
    rewrite Hi, Hf, He. reflexivity.
  - destruct s0 as [|c r]; [discriminate|].
    unfold JSON.read_number.
    rewrite Hs, Hi, Hf, He. reflexivity.
Qed.

End NumberText.

Section LayoutText.
Import Text NumberToString.

Lemma numeral_app (ds zs : string) :
  numeral ds = true -> all_digits zs = true -> numeral (ds ++ zs) = true.
Proof.
  unfold numeral. intros H Hz. apply andb_prop in H as [Hd Hc].
  rewrite all_digits_app, Hd, Hz.
  destruct ds as [|c ds]; [discriminate|]. rewrite append_cons. exact Hc.
Qed.

Lemma numeral_take (n : nat) (ds : string) :
  numeral ds = true -> (0 < n)%nat -> numeral (take n ds) = true.
Proof.
  unfold numeral. intros H Hn. apply andb_prop in H as [Hd Hc].
  rewrite <- (string_take_drop n ds), all_digits_app in Hd.
  apply andb_prop in Hd as [Ht _]. rewrite Ht.
  destruct ds as [|c ds]; [discriminate|].
  destruct n as [|n]; [lia|]. exact Hc.
Qed.

Lemma drop_digits (n : nat) (ds : string) :
  all_digits ds = true -> (n < String.length ds)%nat ->
  all_digits (drop n ds) = true
  /\ (String.length (drop n ds) = String.length ds - n)%nat.
Proof.
  intros Hd Hn.
  pose proof (string_take_drop n ds) as Htd.
  pose proof (f_equal String.length Htd) as Hl.
  rewrite string_length_app, string_take_length in Hl by lia.
  rewrite <- Htd, all_digits_app in Hd.
  apply andb_prop in Hd as [_ Hd]. split; [exact Hd | lia].
Qed.

Lemma numeral_digits (ds : string) :
  numeral ds = true ->
  all_digits ds = true /\ (0 < String.length ds)%nat.
Proof.
  unfold numeral. intros H. apply andb_prop in H as [Hd Hc].
  split; [exact Hd|]. destruct ds; [discriminate | simpl; lia].
Qed.

Lemma numeral_head (ds : string) :
  numeral ds = true ->
  exists c r, ds = String c r /\ numeral (String c EmptyString) = true
              /\ all_digits r = true.
Proof.
  unfold numeral. intros H. apply andb_prop in H as [Hd Hc].
  destruct ds as [|c r]; [discriminate|]. exists c, r.
  cbn [all_digits] in *. apply andb_prop in Hd as [H1 H2].
  rewrite H1, Hc. repeat split. exact H2.
Qed.

Lemma first_not_minus (c : ascii) :
  is_digit c = true -> Ascii.eqb c "-" = false.
Proof. intros H. apply Ascii.eqb_neq. intros ->. discriminate. Qed.

Lemma numeral_not_minus (ds tail : string) :
  numeral ds = true ->
  match ds ++ tail with
  | String c _ => Ascii.eqb c "-" = false
  | EmptyString => True
  end.
Proof.
  intros H. destruct (numeral_head ds H) as (c & r & -> & Hc & _).
  rewrite append_cons. apply first_not_minus.
  unfold numeral in Hc. cbn [all_digits] in Hc.
  apply andb_prop in Hc as [Hc _]. apply andb_prop in Hc as [Hc _].
  exact Hc.
Qed.

(** Zeros at the end of the digits are zeros of the exponent. *)
Lemma of_decimal_zeros (neg : bool) (d : N) (z : Z) :
  0 <= z ->
  Num.of_decimal neg (d * 10 ^ Z.to_N z)%N 0 = Num.of_decimal neg d z.
Proof.
  intros Hz. destruct d as [|p]; [reflexivity|].
  assert (Hpow : (0 < 10 ^ Z.to_N z)%N) by (apply N.neq_0_lt_0, N.pow_nonzero; lia).
  destruct (10 ^ Z.to_N z)%N as [|t] eqn:Et; [lia|].
  change (N.pos p * N.pos t)%N with (N.pos (p * t)).
  unfold Num.of_decimal.
  change (0 <=? 0) with true.
  replace (0 <=? z) with true by (symmetry; apply Z.leb_le; lia).
  cbn iota. f_equal.
  change (Z.to_pos (10 ^ 0)) with 1%positive. rewrite Pos.mul_1_r.
  f_equal.
  assert (Ez : 10 ^ z = Zpos t).
  { change (Zpos t) with (Z.of_N (Npos t)). rewrite <- Et.
    rewrite N2Z.inj_pow, Z2N.id by lia. reflexivity. }
  rewrite Ez. reflexivity.
Qed.

(** Whatever layout the digits are given, the text is a number literal
    that is read to its end, as the decimal [0.ds * 10^n]. *)
Lemma layout_value (neg : bool) (ds : string) (n : Z) (tail : string) :
  numeral ds = true -> ends_number tail = true ->
  JSON.read_number
    ((if neg then "-" else EmptyString) ++ layout ds n ++ tail)
  = Some (Num.of_decimal neg (digits_value ds 0)
                         (n - Z.of_nat (String.length ds)), tail).
Proof.
  intros Hds Ht.
  pose proof (ends_number_no_digit tail Ht) as Hnd.
  pose proof (ends_number_no_point tail Ht) as Hnp.
  pose proof (read_exp_none tail Ht) as Hex.
  destruct (numeral_digits ds Hds) as [Hall Hlen].
  unfold layout.
  set (k := Z.of_nat (String.length ds)).
  destruct ((k <=? n) && (n <=? 21)) eqn:C1.
  { (* digits and zeros *)
    apply andb_prop in C1 as [Hkn _]. apply Z.leb_le in Hkn.
    pose proof (numeral_app ds _ Hds
                  (repeat_zero_digits (Z.to_nat (n - k)))) as Hdz.
    rewrite (read_number_parts neg _ tail tail tail _ _ 0%nat 0
               (numeral_not_minus _ tail Hdz)
               (read_int_numeral _ tail Hdz Hnd)
               (read_frac_none _ _ Hnp) Hex).
    rewrite digits_value_app, digits_value_zeros, Z_nat_N.
    change (0 - Z.of_nat 0) with 0.
    rewrite of_decimal_zeros by lia. reflexivity. }
  destruct ((0 <? n) && (n <=? 21)) eqn:C2.
  { (* a point inside the digits *)
    apply andb_prop in C2 as [Hn0 Hn21].
    apply Z.ltb_lt in Hn0. apply Z.leb_le in Hn21.
    apply andb_false_iff in C1 as [C1|C1];
      [apply Z.leb_gt in C1 | apply Z.leb_gt in C1; lia].
    assert (Hlt : (Z.to_nat n < String.length ds)%nat) by (subst k; lia).
    assert (Hpos : (0 < Z.to_nat n)%nat) by lia.
    destruct (drop_digits (Z.to_nat n) ds Hall Hlt) as [Hdd Hdl].
    pose proof (numeral_take (Z.to_nat n) ds Hds Hpos) as Htk.
    replace ((take (Z.to_nat n) ds ++ "." ++ drop (Z.to_nat n) ds) ++ tail)
      with (take (Z.to_nat n) ds
            ++ String "." (drop (Z.to_nat n) ds ++ tail))
      by (repeat (rewrite ?append_cons, ?append_nil, ?string_app_assoc);
          reflexivity).
    rewrite (read_number_parts neg _ _ tail tail _ _ _ 0
               (numeral_not_minus _ _ Htk)
               (read_int_numeral _
                  (String "." (drop (Z.to_nat n) ds ++ tail)) Htk eq_refl)
               (read_frac_digits _ _ tail Hdd ltac:(lia) Hnd) Hex).
    rewrite <- digits_value_app, string_take_drop.
    f_equal. f_equal. f_equal. subst k. lia. }
  destruct ((-6 <? n) && (n <=? 0)) eqn:C3.
  { (* zeros after the point *)
    apply andb_prop in C3 as [_ Hn0]. apply Z.leb_le in Hn0.
    replace (("0." ++ repeat_char "0" (Z.to_nat (- n)) ++ ds) ++ tail)
      with (String "0" (String "."
              ((repeat_char "0" (Z.to_nat (- n)) ++ ds) ++ tail)))
      by (repeat (rewrite ?append_cons, ?append_nil, ?string_app_assoc);
          reflexivity).
    assert (Hz : all_digits (repeat_char "0" (Z.to_nat (- n)) ++ ds) = true)
      by (rewrite all_digits_app, repeat_zero_digits, Hall; reflexivity).
    assert (Hzl : (0 < String.length
                        (repeat_char "0" (Z.to_nat (- n)) ++ ds))%nat)
      by (rewrite string_length_app; lia).
    rewrite (read_number_parts neg (String "0" _) _ tail tail _ _ _ 0
               eq_refl (read_int_zero _)
               (read_frac_digits 0 _ tail Hz Hzl Hnd) Hex).
    rewrite digits_value_app, digits_value_zeros, N.mul_0_l.
    rewrite string_length_app, repeat_char_length.
    f_equal. f_equal. f_equal. subst k. lia. }
  (* an exponent *)
  set (e := n - 1).
  pose proof (read_exp_digits e tail Hnd) as Hw.
  set (t1 := String "e" ((if 0 <=? e then "+" else "-")
                         ++ string_of_N (Z.abs_N e) ++ tail)) in *.
  destruct (numeral_head ds Hds) as (c & r & Eds & Hc & Hr).
  subst ds.
  destruct r as [|d r].
  - replace (String c ("e" ++ (if 0 <=? e then "+" else "-")
                       ++ string_of_N (Z.abs_N e)) ++ tail)
      with (String c EmptyString ++ t1)
      by (subst t1;
          repeat (rewrite ?append_cons, ?append_nil, ?string_app_assoc);
          reflexivity).
    rewrite (read_number_parts neg (String c EmptyString ++ t1) t1 t1 tail
               _ _ 0%nat e
               (numeral_not_minus (String c EmptyString) t1 Hc)
               (read_int_numeral (String c EmptyString) t1 Hc eq_refl)
               (read_frac_none _ t1 eq_refl) Hw).
    f_equal. f_equal. f_equal. subst k e. cbn [String.length]. lia.
  - set (t2 := String "." (String d r ++ t1)).
    replace (String c ("." ++ String d r ++ "e"
                       ++ (if 0 <=? e then "+" else "-")
                       ++ string_of_N (Z.abs_N e)) ++ tail)
      with (String c EmptyString ++ t2)
      by (subst t1 t2;
          repeat (rewrite ?append_cons, ?append_nil, ?string_app_assoc);
          reflexivity).
    rewrite (read_number_parts neg (String c EmptyString ++ t2) t2 t1 tail
               _ _ _ e
               (numeral_not_minus (String c EmptyString) t2 Hc)
               (read_int_numeral (String c EmptyString) t2 Hc eq_refl)
               (read_frac_digits _ (String d r) t1
                  Hr ltac:(simpl; lia) eq_refl) Hw).
    rewrite <- digits_value_app.
    f_equal. f_equal. f_equal. subst k e. cbn [String.length]. lia.
Qed.

(** The sign of a decimal is the sign of its number. *)
Lemma finish_sign (s : bool) (r : shr_record * Z) (m : positive) (e : Z) :
  finish false r = S754_finite false m e -> finish s r = S754_finite s m e.
Proof.
  unfold finish. destruct (shr_m (fst r)); try discriminate.
  destruct (snd r <=? Num.emax - Num.prec); try discriminate.
  intros H. injection H as <- <-. reflexivity.
Qed.

Lemma of_decimal_sign (s : bool) (d : N) (p : Z) (m : positive) (e : Z) :
  Num.of_decimal false d p = S754_finite false m e ->
  Num.of_decimal s d p = S754_finite s m e.
Proof.
  destruct d as [|q]; [discriminate|]. unfold Num.of_decimal.
  destruct (0 <=? p).
  - unfold binary_round.
    destruct (shl_align _ _ _) as [mz ez].
    fold Num.prec Num.emax. rewrite !round_unfold. apply finish_sign.
  - destruct (SFdiv_core_binary _ _ _ _ _ _) as [[q' e'] l].
    rewrite !round_unfold. apply finish_sign.
Qed.

(** The text of a finite double is a number literal that is read as the
    double; the zeros are both written [0]. *)
Lemma toString_value (x : number) (tail : string) :
  Num.is_double x = true -> Num.is_finite x = true ->
  ends_number tail = true ->
  exists x', reloaded x = JNum x'
             /\ JSON.read_number (toString x ++ tail) = Some (x', tail).
Proof.
  intros Hd Hf Ht. destruct x as [s|s| |s m e]; try discriminate.
  - (* zero *)
    exists (S754_zero false). split; [reflexivity|].
    change (toString (S754_zero s) ++ tail) with (String "0" tail).
    apply (read_number_parts false (String "0" tail) tail tail tail 0 0 0 0);
      [reflexivity | reflexivity
       | apply read_frac_none; apply ends_number_no_point; exact Ht
       | apply read_exp_none; exact Ht].
  - exists (S754_finite s m e). split; [reflexivity|].
    assert (Hd' : Num.is_double (S754_finite false m e) = true) by exact Hd.
    destruct (shortest_spec m e Hd') as (k & Hk & Hrange & Hread).
    unfold toString.
    destruct (ratio m e) as [num den]. cbn [fst snd] in *.
    destruct (shortest _ _ num den (magnitude m e) 1) as [d n'].
    cbn [fst snd] in *.
    assert (Hpos : 0 < d) by (pose proof (pow10_pos (k - 1)); lia).
    rewrite string_app_assoc, layout_value; [| |exact Ht].
    + rewrite string_of_N_value, (string_of_N_length d k Hk Hrange).
      rewrite (of_decimal_sign s _ _ m e Hread). reflexivity.
    + destruct (Z.to_N d) as [|q] eqn:Hq; [lia|].
      apply string_of_N_numeral.
Qed.

End LayoutText.

Section SavedPosition.
Import Text.

(** A number literal starts with a digit or a minus sign. *)
Lemma read_number_head (c : ascii) (t : string) (x : number) (r : string) :
  JSON.read_number (String c t) = Some (x, r) ->
  is_digit c = true \/ c = "-"%char.
Proof.
  intros H.
  destruct (Ascii.eqb c "-") eqn:Hc;
    [right; apply Ascii.eqb_eq; exact Hc | left].
  unfold JSON.read_number in H. rewrite Hc in H.
  unfold JSON.read_int in H.
  destruct (Ascii.eqb c "0") eqn:H0.
  - apply Ascii.eqb_eq in H0. subst c. reflexivity.
  - cbn [read_digits] in H. destruct (is_digit c); [reflexivity|].
    discriminate.
Qed.

Lemma number_head_plain (c : ascii) :
  is_digit c = true \/ c = "-"%char ->
  JSON.is_ws c = false /\ Ascii.eqb c "[" = false /\ Ascii.eqb c "{" = false
  /\ Ascii.eqb c dquote = false /\ Ascii.eqb c "]" = false
  /\ Ascii.eqb "n" c = false /\ Ascii.eqb "t" c = false
  /\ Ascii.eqb "f" c = false.
Proof.
  intros [H| ->]; [|repeat split; reflexivity].
  destruct c as [[|] [|] [|] [|] [|] [|] [|] [|]]; try discriminate;
    repeat split; reflexivity.
Qed.

(** A number literal is read as its number, where a value is expected. *)
Lemma number_element (x : number) (t : string) :
  (forall tail, ends_number tail = true ->
                JSON.read_number (t ++ tail) = Some (x, tail)) ->
  reads_as (JNum x) t.
Proof.
  intros H.
  destruct t as [|c t'].
  { pose proof (H EmptyString eq_refl) as Hx0.
    rewrite append_nil in Hx0.
    pose proof (read_number_length _ _ _ Hx0). simpl in *. lia. }
  assert (Hc : is_digit c = true \/ c = "-"%char).
  { pose proof (H EmptyString eq_refl) as Hx0.
    rewrite append_cons in Hx0. exact (read_number_head _ _ _ _ Hx0). }
  destruct (number_head_plain c Hc)
    as (Hws & Hb & Hbr & Hq & Hk & Hn & Htr & Hf).
  split.
  - intros f tail Ht. pose proof (H tail Ht) as Hx.
    rewrite append_cons in *. cbn [JSON.read_value JSON.skip_ws].
    rewrite Hws, Hb, Hbr, Hq.
    unfold JSON.read_literal. cbn [strip_prefix].
    rewrite Hn, Htr, Hf, Hx. reflexivity.
  - intros tail. rewrite append_cons. unfold JSON.expect.
    cbn [JSON.skip_ws]. rewrite Hws, Hk. reflexivity.
Qed.

Lemma null_element : reads_as JNull "null".
Proof.
  split.
  - intros f tail Ht. reflexivity.
  - intros tail. reflexivity.
Qed.

Lemma number_text_element (x : number) :
  Num.is_double x = true -> reads_as (reloaded x) (number_text x).
Proof.
  intros Hd. unfold number_text.
  destruct (Num.is_finite x) eqn:Hf.
  - assert (Hx : exists x', reloaded x = JNum x').
    { destruct x; try discriminate; eexists; reflexivity. }
    destruct Hx as [x' Hx']. rewrite Hx'.
    apply number_element. intros tail Ht.
    destruct (toString_value x tail Hd Hf Ht) as (x'' & E & Hr).
    rewrite Hx' in E. injection E as <-. exact Hr.
  - destruct x; try discriminate; exact null_element.
Qed.

(** An array of two such texts is JSON text, read as the array of the two
    values. *)
Lemma pair_text_parses (vx vy : json) (tx ty : string) :
  reads_as vx tx -> reads_as vy ty ->
  JSON.parse ("[" ++ (tx ++ "," ++ ty) ++ "]") = Normal (JArr [vx; vy]).
Proof.
  intros [Hx Hxe] [Hy _].
  set (text := "[" ++ (tx ++ "," ++ ty) ++ "]").
  assert (Hfuel : exists g, (2 * String.length text + 2 = 4 + g)%nat).
  { exists (2 * String.length text - 2)%nat. subst text.
    rewrite append_cons. cbn [String.length]. lia. }
  destruct Hfuel as [g Hg].
  pose proof (Hx (S g) ("," ++ ty ++ "]") eq_refl) as Hvx.
  pose proof (Hy g "]" eq_refl) as Hvy.
  unfold JSON.parse. fold text. rewrite Hg.
  change (4 + g)%nat with (S (S (S (S g)))).
  subst text. rewrite append_cons, append_nil.
  cbn [JSON.read_value JSON.skip_ws].
  change (JSON.is_ws "[") with false. cbn iota.
  change (Ascii.eqb "[" "[") with true. cbn iota.
  rewrite !string_app_assoc. rewrite Hxe.
  cbn [JSON.read_elements]. rewrite Hvx.
  change (JSON.expect "," ("," ++ ty ++ "]")) with (Some (ty ++ "]")).
  cbn iota. cbn [JSON.read_elements]. rewrite Hvy.
  reflexivity.
Qed.

Lemma stringify_pair (c : number * number) :
  Stringify.stringify (pair_json c)
  = "[" ++ (number_text (fst c) ++ "," ++ number_text (snd c)) ++ "]".
Proof. reflexivity. Qed.

(** The saved text of a position is JSON text: [JSON.parse] reads it as
    an array of what the two numbers are after a reload. *)
Lemma saved_pair_parses (c : number * number) :
  Num.is_double (fst c) = true -> Num.is_double (snd c) = true ->
  JSON.parse (Stringify.stringify (pair_json c))
  = Normal (JArr [reloaded (fst c); reloaded (snd c)]).
Proof.
  intros Hx Hy. rewrite stringify_pair.
  apply pair_text_parses; apply number_text_element; assumption.
Qed.

End SavedPosition.

(** ** Saving and loading again *)

Lemma comes_back_reloaded (x : number) :
  comes_back x = true <-> reloaded x = JNum x.
Proof.
  destruct x as [[|]| | |]; simpl; split; intros H; try reflexivity;
    try discriminate.
Qed.

Lemma saveRefs_sets (r : Refs) (url : SearchParams.t) :
  saveRefs r url =
  SearchParams.set "coordinates" (param_text (ref_coordinates r))
    (SearchParams.set "name" (ref_name r)
      (SearchParams.set "fontColor" (ref_fontColor r)
        (SearchParams.set "fontSize" (ref_fontSize r)
          (SearchParams.set "fontLoadingCode" (ref_fontLoadingCode r)
            (SearchParams.set "isItalic" (ref_isItalic r)
              (SearchParams.set "isBold" (ref_isBold r)
                (SearchParams.set "fontFamily" (ref_fontFamily r) url))))))).
Proof. reflexivity. Qed.

(** The two embeddings of [saveSettings] agree on settings. *)
Lemma saveSettings_saveRefs (s : Settings) (url : SearchParams.t) :
  saveSettings s url = saveRefs (held s) url.
Proof. reflexivity. Qed.

(** The script starts with settings exactly when the references it loads
    hold a pair of numbers. *)
Lemma loadSettings_loadRefs (url : SearchParams.t) :
  loadSettings url =
  match loadRefs url with
  | Throw => SyntaxError
  | Normal r =>
      match ref_coordinates r with
      | JArr [JNum x; JNum y] =>
          Started {| name := ref_name r;
                     fontLoadingCode := ref_fontLoadingCode r;
                     fontFamily := ref_fontFamily r;
                     isItalic := ref_isItalic r;
                     isBold := ref_isBold r;
                     fontColor := ref_fontColor r;
                     fontSize := ref_fontSize r;
                     coordinates := (x, y) |}
      | other => Mistyped other
      end
  end.
Proof.
  unfold loadSettings, loadRefs.
  destruct (loadObjectParam url "coordinates") as [v|]; reflexivity.
Qed.

Ltac read_saved :=
  rewrite ?saveRefs_sets;
  repeat (rewrite get_set_other by discriminate);
  rewrite get_set_same.

(** What the next startup makes of an address written from references
    that hold a pair of numbers. *)
Lemma saved_refs_load (r : Refs) (url : SearchParams.t) (x y : number) :
  ref_coordinates r = pair_json (x, y) ->
  Num.is_double x = true -> Num.is_double y = true ->
  loadRefs (saveRefs r url)
  = Normal (resaved r (JArr [reloaded x; reloaded y])).
Proof.
  intros Hc Hx Hy. unfold loadRefs, loadObjectParam.
  read_saved. rewrite Hc.
  change (param_text (pair_json (x, y)))
    with (Stringify.stringify (pair_json (x, y))).
  rewrite stringify_pair_nonempty, (saved_pair_parses (x, y) Hx Hy).
  cbn [json_or JSON.truthy].
  rewrite (loadStringParam_or "name" (ref_name r))
    by (read_saved; reflexivity).
  rewrite (loadStringParam_or "fontLoadingCode" (ref_fontLoadingCode r))
    by (read_saved; reflexivity).
  rewrite (loadStringParam_or "fontFamily" (ref_fontFamily r))
    by (read_saved; reflexivity).
  rewrite (loadStringParam_or "isItalic" (ref_isItalic r))
    by (read_saved; reflexivity).
  rewrite (loadStringParam_or "isBold" (ref_isBold r))
    by (read_saved; reflexivity).
  rewrite (loadStringParam_or "fontColor" (ref_fontColor r))
    by (read_saved; reflexivity).
  rewrite (loadStringParam_or "fontSize" (ref_fontSize r))
    by (read_saved; reflexivity).
  unfold resaved. f_equal. f_equal.
  - destruct (ref_fontLoadingCode r); reflexivity.
  - destruct (ref_isItalic r); reflexivity.
  - destruct (ref_isBold r); reflexivity.
Qed.

Lemma string_or_self (v d : string) :
  string_or (Some v) d = v <-> is_empty v = false \/ v = d.
Proof.
  unfold string_or. destruct (is_empty v) eqn:He.
  - split; [intros ->; right; reflexivity|].
    intros [H| ->]; [discriminate | reflexivity].
  - split; [left; reflexivity | reflexivity].
Qed.

Lemma string_or_idem (a : option string) (d : string) :
  string_or (Some (string_or a d)) d = string_or a d.
Proof.
  apply string_or_self. unfold string_or.
  destruct a as [v|]; [|right; reflexivity].
  destruct (is_empty v) eqn:He; [right; reflexivity | left; exact He].
Qed.

(** C1 (as amended): saving settings into the address and loading the
    address again gives the same settings back exactly when the four
    fields with a non-empty default ([name], [fontFamily], [fontColor],
    [fontSize]) are not empty and both coordinates are finite and not the
    negative zero.  An empty field comes back as its default, [-0] comes
    back as [0], and an infinity or [NaN] is saved as [null]. *)
Theorem C1_save_then_load (s : Settings) (url : SearchParams.t) :
  Num.is_double (fst (coordinates s)) = true ->
  Num.is_double (snd (coordinates s)) = true ->
  loadSettings (saveSettings s url) = Started s
  <-> is_empty (name s) = false
      /\ is_empty (fontFamily s) = false
      /\ is_empty (fontColor s) = false
      /\ is_empty (fontSize s) = false
      /\ comes_back (fst (coordinates s)) = true
      /\ comes_back (snd (coordinates s)) = true.
Proof.
  intros Hx Hy.
  rewrite saveSettings_saveRefs, loadSettings_loadRefs.
  destruct s as [n c ff it b fc fs [x y]]. cbn [coordinates fst snd] in *.
  rewrite (saved_refs_load
             (held {| name := n; fontLoadingCode := c; fontFamily := ff;
                      isItalic := it; isBold := b; fontColor := fc;
                      fontSize := fs; coordinates := (x, y) |})
             url x y eq_refl Hx Hy).
  cbn [resaved held ref_coordinates ref_name ref_fontLoadingCode
       ref_fontFamily ref_isItalic ref_isBold ref_fontColor ref_fontSize
       name fontLoadingCode fontFamily isItalic isBold fontColor fontSize
       coordinates].
  split.
  - intros H.
    destruct (reloaded x) as [| |x'| | |] eqn:Ex; try discriminate.
    destruct (reloaded y) as [| |y'| | |] eqn:Ey; try discriminate.
    injection H as Hn Hf Hc Hs -> ->.
    assert (Ne : forall v d, is_empty d = false ->
                             string_or (Some v) d = v -> is_empty v = false).
    { intros v d Hd E. apply string_or_self in E as [E| ->]; assumption. }
    repeat split;
      try (eapply Ne; [|eassumption]; reflexivity);
      apply comes_back_reloaded; assumption.
  - intros (Hn & Hf & Hc & Hs & Cx & Cy).
    apply comes_back_reloaded in Cx, Cy. rewrite Cx, Cy.
    rewrite !string_or_nonempty by assumption. reflexivity.
Qed.

(** C1, witness: Jane's settings come back from the address. *)
Lemma C1_save_then_load_witness :
  loadSettings (saveSettings Sample.jane [("name", "Old"); ("name", "Older")])
  = Started Sample.jane.
Proof.
  apply (C1_save_then_load Sample.jane); vm_compute; repeat split.
Defined.

(** C1, counterexample to the claim as stated: an empty [name] is saved as
    an empty parameter, which loads as the default name. *)
Lemma C1_empty_name_not_restored :
  loadSettings (saveSettings Sample.nameless []) <> Started Sample.nameless.
Proof. vm_compute. discriminate. Qed.

(** The negative zero is written [0] and comes back positive. *)
Lemma negative_zero_comes_back_positive :
  JSON.parse (Stringify.stringify (pair_json (S754_zero true, Num.half)))
  = Normal (pair_json (S754_zero false, Num.half)).
Proof. vm_compute. reflexivity. Qed.


(** ** Loading *)




(** [JSON.parse] builds an object as the language does: a name given
    twice keeps its place and takes the last value, and the names that
    are array indices are listed first. *)
Lemma duplicate_names_keep_the_last :
  JSON.parse ("{" ++ Text.quoted "b" ++ ":1," ++ Text.quoted "1" ++ ":2,"
              ++ Text.quoted "b" ++ ":3}")
  = Normal (JObj [("1", JNum (Num.of_Z 2)); ("b", JNum (Num.of_Z 3))]).
Proof. vm_compute. reflexivity. Qed.

(** Two escaped surrogates are one code point, four bytes in UTF-8. *)
Lemma escaped_surrogates_pair_up :
  JSON.parse (Text.quoted "\uD83D\uDE00")
  = Normal (JStr (String "240" (String "159" (String "152"
                    (String "128" EmptyString))))).
Proof. vm_compute. reflexivity. Qed.




(** A [coordinates] parameter of another shape is not replaced by the
    default either: the script goes on with the object. *)
Lemma mistyped_coordinates_are_kept :
  loadSettings [("coordinates", "{}")] = Mistyped (JObj []).
Proof. vm_compute. reflexivity. Qed.


(** ** The pattern, in terms of the text *)

Section PatternFacts.
Import Text.

Lemma strip_prefix_spec (p s r : string) :
  strip_prefix p s = Some r <-> s = p ++ r.
Proof.
  revert s. induction p as [|a p IH]; intros s; simpl.
  - split; [intros H; injection H as ->; reflexivity | intros ->; reflexivity].
  - destruct s as [|b s]; [split; discriminate|].
    destruct (Ascii.eqb a b) eqn:Hab.
    + apply Ascii.eqb_eq in Hab. subst b. rewrite IH.
      split; [intros ->; reflexivity | intros H; injection H as ->; reflexivity].
    + apply Ascii.eqb_neq in Hab. split; [discriminate|].
      intros H. injection H as -> _. congruence.
Qed.



Lemma no_quote_cons (c : ascii) (r : string) :
  c <> dquote -> ~ has_quote r -> ~ has_quote (String c r).
Proof.
  intros Hc Hr (a & b & H). destruct a as [|a0 a]; simpl in H.
  - injection H as -> _. congruence.
  - injection H as _ ->. apply Hr. exists a, b. reflexivity.
Qed.

(** Greedy capture: what is captured is followed by the last quotation
    mark of the line. *)
Lemma before_last_quote_spec (l : string) :
  match Pattern.before_last_quote l with
  | Some t => exists b, l = t ++ String dquote b /\ ~ has_quote b
  | None => ~ has_quote l
  end.
Proof.
  induction l as [|c r IH]; simpl.
  - intros (a & b & H). destruct a; discriminate.
  - destruct (Pattern.before_last_quote r) as [t|].
    + destruct IH as (b & -> & Hb). exists b. split; [reflexivity | exact Hb].
    + destruct (Ascii.eqb c dquote) eqn:Hc.
      * apply Ascii.eqb_eq in Hc. subst c. exists r. split; [reflexivity | exact IH].
      * apply Ascii.eqb_neq in Hc. apply no_quote_cons; assumption.
Qed.

Lemma before_last_quote_none (l : string) :
  Pattern.before_last_quote l = None <-> ~ has_quote l.
Proof.
  pose proof (before_last_quote_spec l) as H.
  destruct (Pattern.before_last_quote l) as [t|].
  - split; [discriminate|]. intros Hn. exfalso. apply Hn.
    destruct H as (b & -> & _). exists t, b. reflexivity.
  - tauto.
Qed.



(** A match: an occurrence of the opening text, and the capture runs to
    the last quotation mark of that line. *)
Lemma match_link_href_some (s t : string) :
  Pattern.match_link_href s = Some t ->
  exists before rest b,
    s = before ++ Pattern.opening ++ rest
    /\ Pattern.line rest = t ++ String dquote b
    /\ ~ has_quote b.
Proof.
  induction s as [|c r IH].
  - simpl. discriminate.
  - change (Pattern.match_link_href (String c r))
      with (match Pattern.match_here (String c r) with
            | Some captured => Some captured
            | None => Pattern.match_link_href r
            end).
    destruct (Pattern.match_here (String c r)) as [u|] eqn:Hh.
    + intros H. injection H as ->.
      unfold Pattern.match_here in Hh.
      destruct (strip_prefix Pattern.opening (String c r)) as [rest|] eqn:Hs;
        [|discriminate].
      apply strip_prefix_spec in Hs.
      pose proof (before_last_quote_spec (Pattern.line rest)) as Hq.
      rewrite Hh in Hq. destruct Hq as (b & Hl & Hb).
      exists EmptyString, rest, b. auto.
    + intros H. destruct (IH H) as (before & rest & b & -> & Hl & Hb).
      exists (String c before), rest, b. auto.
Qed.

(** The snippet as the font provider hands it out, with [rel] after
    [href]: the capture runs past the end of the address. *)
Lemma capture_runs_to_last_quote :
  Pattern.match_link_href Sample.href_first
  = Some ("https://fonts.example/css?family=Lobster"
          ++ String dquote (" rel=" ++ String dquote "stylesheet")).
Proof. reflexivity. Qed.

End PatternFacts.

Section FirstMatch.
Import Text.





End FirstMatch.


(** ** Font loading code *)

Lemma handleFontLoadingCode_errors (st : App) :
  errors (handleFontLoadingCode st) =
  if is_empty (string_or (Pattern.match_link_href
                            (fontLoadingCode (settings st))) EmptyString)
  then <["fontLoadingCode" := not_found]> (errors st)
  else errors st.
Proof.
  unfold handleFontLoadingCode.
  destruct (is_empty _); [reflexivity|].
  destruct (bool_decide _); reflexivity.
Qed.


Lemma handleFontLoadingCode_requests (st : App) (t : string) :
  Pattern.match_link_href (fontLoadingCode (settings st)) = Some t ->
  is_empty t = false ->
  is_Some (loadedFonts (handleFontLoadingCode st) !! t).
Proof.
  intros Hm Ht. unfold handleFontLoadingCode. rewrite Hm.
  unfold string_or. rewrite Ht, Ht.
  destruct (bool_decide (is_Some (loadedFonts st !! t))) eqn:Hb.
  - apply bool_decide_eq_true in Hb. exact Hb.
  - cbn [loadedFonts]. rewrite lookup_insert_eq. eexists; reflexivity.
Qed.




(** An empty value that a second quotation mark follows on the line is
    none to the pattern: it takes everything up to that mark. *)
Lemma empty_value_runs_on :
  Pattern.match_link_href
    ("<link href=" ++ String Text.dquote (String Text.dquote
       (" rel=" ++ Text.quoted "stylesheet" ++ ">")))
  = Some (String Text.dquote (" rel=" ++ String Text.dquote "stylesheet")).
Proof. reflexivity. Qed.

(** ** The transition system *)

Lemma step_errors (st : App) (e : event) :
  errors (step st e) = errors st
  \/ errors (step st e) = <["fontLoadingCode" := not_found]> (errors st).
Proof.
  destruct e; simpl; auto.
  - rewrite handleFontLoadingCode_errors. destruct (is_empty _); auto.
  - destruct (polling st); auto.
Qed.

(** C10: once the error about the stylesheet URL is set, no event clears
    it, a later successful call of [handleFontLoadingCode] included. *)
Theorem C10_error_never_cleared (st : App) (es : list event) :
  errors st !! "fontLoadingCode" = Some not_found ->
  errors (run st es) !! "fontLoadingCode" = Some not_found.
Proof.
  revert st. induction es as [|e es IH]; intros st H; [exact H|].
  simpl. apply IH.
  destruct (step_errors st e) as [-> | ->]; [exact H|].
  apply lookup_insert_eq.
Qed.

(** C10, witness: the error set by one paste is still there after the next
    paste has injected its stylesheet and its polling has ended. *)
Lemma C10_error_never_cleared_witness :
  errors (run (handleFontLoadingCode (Sample.fresh "no link here"))
              [InputFontLoadingCode Sample.href_only; ChangeFontLoadingCode;
               PollingDone ["Lobster"]])
    !! "fontLoadingCode" = Some not_found.
Proof. apply C10_error_never_cleared. reflexivity. Defined.


Lemma links_to_app (u : string) (l1 l2 : list Link) :
  links_to u (l1 ++ l2) = (links_to u l1 + links_to u l2)%nat.
Proof.
  unfold links_to. rewrite List.filter_app, length_app. reflexivity.
Qed.

Lemma handleFontLoadingCode_links (st : App) :
  links_match_requests st -> links_match_requests (handleFontLoadingCode st).
Proof.
  intros Inv. unfold handleFontLoadingCode.
  set (url := string_or _ _).
  destruct (is_empty url); [exact Inv|].
  destruct (bool_decide (is_Some (loadedFonts st !! url))) eqn:Hreq; [exact Inv|].
  intros u. simpl. rewrite links_to_app, Inv.
  unfold links_to. simpl.
  rewrite lookup_insert.
  destruct (decide (url = u)) as [->|Hne].
  - rewrite String.eqb_refl, Hreq. reflexivity.
  - apply String.eqb_neq in Hne. rewrite Hne. simpl. lia.
Qed.

Lemma step_links (st : App) (e : event) :
  links_match_requests st -> links_match_requests (step st e).
Proof.
  intros Inv. destruct e; simpl; try exact Inv.
  - apply handleFontLoadingCode_links, Inv.
  - destruct (polling st); exact Inv.
Qed.

Lemma run_links (st : App) (es : list event) :
  links_match_requests st -> links_match_requests (run st es).
Proof.
  revert st. induction es as [|e es IH]; intros st Inv; [exact Inv|].
  simpl. apply IH, step_links, Inv.
Qed.

Lemma mount_links (s : Settings) : links_match_requests (mount s).
Proof.
  unfold mount. destruct (is_empty (fontLoadingCode s)).
  - intros u. reflexivity.
  - apply handleFontLoadingCode_links. intros u. reflexivity.
Qed.

(** Requests are never forgotten. *)
Lemma step_keeps_requests (st : App) (e : event) (u : string) :
  is_Some (loadedFonts st !! u) -> is_Some (loadedFonts (step st e) !! u).
Proof.
  intros H. destruct e; simpl; try exact H.
  - unfold handleFontLoadingCode.
    destruct (is_empty _); [exact H|].
    destruct (bool_decide _); [exact H|].
    simpl. rewrite lookup_insert. destruct (decide _); eauto.
  - destruct (polling st); exact H.
Qed.

Lemma run_keeps_requests (st : App) (es : list event) (u : string) :
  is_Some (loadedFonts st !! u) -> is_Some (loadedFonts (run st es) !! u).
Proof.
  revert st. induction es as [|e es IH]; intros st H; [exact H|].
  simpl. apply IH, step_keeps_requests, H.
Qed.

Lemma handleFontLoadingCode_again (st : App) (url : string) :
  Pattern.match_link_href (fontLoadingCode (settings st)) = Some url ->
  is_empty url = false ->
  is_Some (loadedFonts st !! url) ->
  handleFontLoadingCode st = st.
Proof.
  intros Hm He Hreq. unfold handleFontLoadingCode. rewrite Hm.
  rewrite (string_or_nonempty _ _ He), He.
  rewrite bool_decide_eq_true_2 by exact Hreq. reflexivity.
Qed.

(** C7: in any session (the state left by the script's top level, then any
    events), once [handleFontLoadingCode] has been called with markup that
    yields [url], a later call with markup that yields the same [url],
    whatever happened in between, changes nothing: no link is added, the
    requested URLs stay as they are, and the head holds exactly one link
    to [url]. *)
Theorem C7_repeat_request_is_noop
        (s : Settings) (before between : list event) (url : string) :
  let st1 := run (mount s) before in
  let st2 := run (handleFontLoadingCode st1) between in
  Pattern.match_link_href (fontLoadingCode (settings st1)) = Some url ->
  Pattern.match_link_href (fontLoadingCode (settings st2)) = Some url ->
  is_empty url = false ->
  handleFontLoadingCode st2 = st2
  /\ loadedFonts (handleFontLoadingCode st2) = loadedFonts st2
  /\ links_to url (head_links (handleFontLoadingCode st2)) = 1%nat.
Proof.
  intros st1 st2 H1 H2 He.
  assert (Hreq : is_Some (loadedFonts st2 !! url)).
  { apply run_keeps_requests, handleFontLoadingCode_requests; assumption. }
  assert (Hno : handleFontLoadingCode st2 = st2).
  { apply (handleFontLoadingCode_again st2 url); assumption. }
  rewrite Hno. split; [reflexivity|]. split; [reflexivity|].
  assert (Inv : links_match_requests st2).
  { apply run_links, handleFontLoadingCode_links, run_links, mount_links. }
  rewrite Inv. rewrite bool_decide_eq_true_2 by exact Hreq. reflexivity.
Qed.

(** C7, witness: the same snippet pasted twice, with other edits between. *)
Lemma C7_repeat_request_is_noop_witness :
  let st1 := run (mount Sample.jane) [InputFontLoadingCode Sample.href_only] in
  let st2 := run (handleFontLoadingCode st1)
                 [InputName "Tan"; PollingDone ["Lobster"];
                  InputFontLoadingCode Sample.href_only] in
  handleFontLoadingCode st2 = st2
  /\ loadedFonts (handleFontLoadingCode st2) = loadedFonts st2
  /\ links_to "https://fonts.example/css?family=Lobster"
              (head_links (handleFontLoadingCode st2)) = 1%nat.
Proof.
  apply (C7_repeat_request_is_noop Sample.jane
           [InputFontLoadingCode Sample.href_only]
           [InputName "Tan"; PollingDone ["Lobster"];
            InputFontLoadingCode Sample.href_only]); reflexivity.
Defined.

(** ** The polling loop *)

Section Polling.
Local Open Scope nat_scope.

Variable size : nat -> N.

Lemma poll_out_of_lives (fuel i : nat) (last : Z) :
  poll fuel size i last 0 = Some i.
Proof. destruct fuel; reflexivity. Qed.

(** One pass with lives left. *)
Lemma poll_pass (f i : nat) (last lives : Z) :
  (0 < lives)%Z ->
  poll (S f) size i last lives =
  if (Z.of_N (size i) =? last)%Z then poll f size (S i) last (lives - 1)
  else poll f size (S i) (Z.of_N (size i)) LIVES.
Proof.
  intros H. simpl.
  replace (0 <? lives)%Z with true by (symmetry; apply Z.ltb_lt; exact H).
  reflexivity.
Qed.

Variable n0 : nat.
Hypothesis Hconst : forall i, n0 <= i -> size i = size n0.

Lemma changed_at_bound (j : nat) : changed_at size j -> j <= n0.
Proof.
  intros Hj. destruct j as [|k]; [lia|].
  destruct (Nat.le_gt_cases (S k) n0) as [|Hgt]; [assumption|].
  exfalso. apply Hj. rewrite (Hconst (S k)), (Hconst k) by lia. reflexivity.
Qed.

(** The loop from pass [i] on, when [j] is the last pass that saw a
    change and the passes since have used [i - 1 - j] lives. *)
Lemma poll_from (m i j : nat) :
  i + m = n0 + 6 -> j < i <= j + 5 ->
  changed_at size j ->
  (forall t, j < t < i -> size t = size (t - 1)) ->
  exists j',
    (forall fuel, m <= fuel ->
       poll fuel size i (Z.of_N (size (i - 1)))
            (LIVES - Z.of_nat (i - 1 - j)) = Some (j' + 6))
    /\ changed_at size j'
    /\ (forall t, j' < t < j' + 6 -> size t = size (t - 1)).
Proof.
  revert i j. induction m as [|m IH]; intros i j Him Hji Hj Hsame.
  - pose proof (changed_at_bound j Hj). lia.
  - assert (Hlives : (0 < LIVES - Z.of_nat (i - 1 - j))%Z)
      by (unfold LIVES; lia).
    destruct (N.eq_dec (size i) (size (i - 1))) as [Heq|Hne].
    + assert (Hsame' : forall t, j < t < S i -> size t = size (t - 1)).
      { intros t Ht. destruct (Nat.eq_dec t i) as [->|Hti]; [exact Heq|].
        apply Hsame. lia. }
      destruct (Nat.eq_dec i (j + 5)) as [Hlast|Hmore].
      * exists j. split; [|split; [exact Hj|]].
        -- intros fuel Hfuel. destruct fuel as [|f]; [lia|].
           rewrite poll_pass by exact Hlives.
           rewrite Heq, Z.eqb_refl.
           replace (LIVES - Z.of_nat (i - 1 - j) - 1)%Z with 0%Z
             by (unfold LIVES; lia).
           rewrite poll_out_of_lives. f_equal. lia.
        -- intros t Ht. apply Hsame'. lia.
      * destruct (IH (S i) j) as (j' & Hrun & Hj' & Hsj);
          [lia | lia | exact Hj | exact Hsame' |].
        exists j'. split; [|split; assumption].
        intros fuel Hfuel. destruct fuel as [|f]; [lia|].
        rewrite poll_pass by exact Hlives.
        rewrite Heq, Z.eqb_refl.
        specialize (Hrun f ltac:(lia)).
        replace (S i - 1) with i in Hrun by lia.
        rewrite Heq in Hrun.
        replace (LIVES - Z.of_nat (i - 1 - j) - 1)%Z
          with (LIVES - Z.of_nat (i - j))%Z by lia.
        exact Hrun.
    + assert (Hi : changed_at size i).
      { destruct i as [|k]; [exact I|].
        replace (S k - 1) with k in Hne by lia. exact Hne. }
      destruct (IH (S i) i) as (j' & Hrun & Hj' & Hsj);
        [lia | lia | exact Hi | intros t Ht; lia |].
      exists j'. split; [|split; assumption].
      intros fuel Hfuel. destruct fuel as [|f]; [lia|].
      rewrite poll_pass by exact Hlives.
      replace (Z.of_N (size i) =? Z.of_N (size (i - 1)))%Z with false
        by (symmetry; apply Z.eqb_neq; lia).
      specialize (Hrun f ltac:(lia)).
      replace (S i - 1) with i in Hrun by lia.
      replace (LIVES - Z.of_nat (i - i))%Z with LIVES in Hrun
        by (unfold LIVES; lia).
      exact Hrun.
Qed.

End Polling.

(** C4: when the sizes read by the passes are constant from some pass on,
    the loop ends.  If [j] is the last pass that finds a changed size, the
    five passes after it find none, the fifth of them, 2500 ms after pass
    [j], uses the last life, and the loop is left after [j + 6] passes. *)
Theorem C4_polling_stops (size : nat -> N) :
  (exists n0, forall i, (n0 <= i)%nat -> size i = size n0) ->
  exists j fuel0,
    (forall fuel, (fuel0 <= fuel)%nat ->
       polling_passes fuel size = Some (j + 6)%nat)
    /\ changed_at size j
    /\ (forall t, (j < t < j + 6)%nat -> size t = size (t - 1)%nat)
    /\ pass_time (j + 5) - pass_time j = 2500.
Proof.
  intros [n0 Hconst].
  destruct (poll_from size n0 Hconst (n0 + 5)%nat 1%nat 0%nat) as (j & Hrun & Hj & Hsame);
    [lia | lia | exact I | intros t Ht; lia |].
  exists j, (S (n0 + 5)). split; [|split; [exact Hj | split; [exact Hsame|]]].
  - intros fuel Hfuel. destruct fuel as [|f]; [lia|].
    unfold polling_passes. rewrite poll_pass by (unfold LIVES; lia).
    replace (Z.of_N (size 0%nat) =? -1) with false
      by (symmetry; apply Z.eqb_neq; lia).
    apply (Hrun f). lia.
  - unfold pass_time, POLL_MS. lia.
Qed.

(** C4, witness: four fonts arrive one per pass, then the set stays. *)
Lemma C4_polling_stops_witness :
  let size := fun i : nat => if (i <? 4)%nat then N.of_nat i else 9%N in
  exists j fuel0,
    (forall fuel, (fuel0 <= fuel)%nat ->
       polling_passes fuel size = Some (j + 6)%nat)
    /\ changed_at size j
    /\ (forall t, (j < t < j + 6)%nat -> size t = size (t - 1)%nat)
    /\ pass_time (j + 5) - pass_time j = 2500.
Proof.
  intros size. apply (C4_polling_stops size).
  exists 4%nat. intros i Hi. unfold size.
  destruct (i <? 4)%nat eqn:Hlt; [|reflexivity].
  apply Nat.ltb_lt in Hlt. lia.
Defined.

(** ** The sync controller *)

Lemma advance_not_due (now t : Z) (s : Settings) (done : list Sync.action) :
  now < t ->
  Sync.advance now {| Sync.current := s; Sync.render_due := Some t;
                      Sync.persist_due := Some t; Sync.performed := done |}
  = {| Sync.current := s; Sync.render_due := Some t;
       Sync.persist_due := Some t; Sync.performed := done |}.
Proof.
  intros H. unfold Sync.advance. simpl.
  replace (t <=? now) with false by (symmetry; apply Z.leb_gt; exact H).
  simpl.
  replace (t <=? now) with false by (symmetry; apply Z.leb_gt; exact H).
  reflexivity.
Qed.


(** A change while both timers wait restarts them. *)
Lemma occur_while_waiting (t t' : Z) (s s' : Settings)
      (done : list Sync.action) :
  t' - t < Sync.WAIT ->
  Sync.occur (waiting t s done) (t', Sync.Changed s') = waiting t' s' done.
Proof.
  intros Hgap. unfold Sync.occur, waiting.
  rewrite advance_not_due by lia. reflexivity.
Qed.

Lemma play_cons (st : Sync.state) (ev : Z * Sync.trigger)
      (evs : list (Z * Sync.trigger)) :
  Sync.play st (ev :: evs) = Sync.play (Sync.occur st ev) evs.
Proof. reflexivity. Qed.

Lemma last_of_nonempty {A : Type} (l : list A) (x d d' : A) :
  List.last (x :: l) d = List.last (x :: l) d'.
Proof.
  revert x. induction l as [|y r IH]; intros x; [reflexivity|].
  change (List.last (y :: r) d = List.last (y :: r) d'). apply IH.
Qed.

(** A burst of changes leaves one pending timer of each kind, due [WAIT]
    after the last change, and the settings of the last change. *)
Lemma play_burst (evs : list (Z * Settings)) :
  forall t s done,
    Sync.close_together t evs ->
    Sync.play (waiting t s done) (as_changes evs)
    = waiting (fst (List.last evs (t, s))) (snd (List.last evs (t, s))) done.
Proof.
  induction evs as [|[t' s'] r IH]; intros t s done Hc; [reflexivity|].
  destruct Hc as (Hle & Hgap & Hr).
  change (as_changes ((t', s') :: r))
    with ((t', Sync.Changed s') :: as_changes r).
  rewrite play_cons, occur_while_waiting by exact Hgap.
  rewrite (IH t' s' done Hr).
  destruct r as [|ev r']; [reflexivity|].
  change (List.last ((t', s') :: ev :: r') (t, s))
    with (List.last (ev :: r') (t, s)).
  apply f_equal3; try reflexivity; f_equal; apply last_of_nonempty.
Qed.

(** C9 (as amended): for one or more changes of watched settings (every
    setting but the font loading code) with consecutive gaps shorter than
    [WAIT], the sync controller performs exactly one render and one
    persist, both [WAIT] after the last change and both with the settings
    of the last change. *)
Theorem C9_debounce_coalesces
        (s0 : Settings) (t1 : Z) (s1 : Settings) (more : list (Z * Settings)) :
  Sync.close_together t1 more ->
  let changes := (t1, s1) :: more in
  let tn := fst (List.last changes (t1, s1)) in
  let sn := snd (List.last changes (t1, s1)) in
  Sync.performed (Sync.settle (Sync.play (Sync.idle s0) (as_changes changes)))
  = [Sync.Render (tn + Sync.WAIT) sn; Sync.Persist (tn + Sync.WAIT) sn].
Proof.
  intros Hc changes tn sn. subst changes tn sn.
  change (as_changes ((t1, s1) :: more))
    with ((t1, Sync.Changed s1) :: as_changes more).
  rewrite play_cons.
  change (Sync.occur (Sync.idle s0) (t1, Sync.Changed s1))
    with (waiting t1 s1 []).
  rewrite (play_burst more t1 s1 [] Hc).
  assert (Hl : List.last ((t1, s1) :: more) (t1, s1) = List.last more (t1, s1)).
  { destruct more as [|ev r]; reflexivity. }
  rewrite Hl. reflexivity.
Qed.

(** C9, witness: three changes of the name less than a second apart. *)
Lemma C9_debounce_coalesces_witness :
  Sync.performed
    (Sync.settle
       (Sync.play (Sync.idle Sample.jane)
          (as_changes [(0, with_name "T" Sample.jane);
                       (400, with_name "Ta" Sample.jane);
                       (1300, with_name "Tan" Sample.jane)])))
  = [Sync.Render 2300 (with_name "Tan" Sample.jane);
     Sync.Persist 2300 (with_name "Tan" Sample.jane)].
Proof.
  apply (C9_debounce_coalesces Sample.jane 0 (with_name "T" Sample.jane)
           [(400, with_name "Ta" Sample.jane);
            (1300, with_name "Tan" Sample.jane)]).
  simpl. unfold Sync.WAIT. lia.
Defined.

(** C9, counterexample to the claim as stated: one change of a setting,
    the font loading code, and neither action is performed. *)
Lemma C9_font_code_change_starts_nothing :
  Sync.performed
    (Sync.settle
       (Sync.play (Sync.idle Sample.jane)
          [(0, Sync.Edited (with_fontLoadingCode Sample.href_only Sample.jane))]))
  = [].
Proof. reflexivity. Qed.

(** ** The renderer *)

Section NearestInteger.

Lemma shr_1_record (m : Z) (r s : bool) :
  0 <= m ->
  shr_1 {| shr_m := m; shr_r := r; shr_s := s |}
  = {| shr_m := m / 2; shr_r := Z.odd m; shr_s := r || s |}.
Proof.
  intros Hm. rewrite <- Z.div2_div.
  destruct m as [|[p|p|]|p]; try reflexivity; lia.
Qed.

(** What is shifted out, as the two bits of the record: the last bit
    that went, and whether anything went before it. *)
Lemma shr_iter_record (n : nat) (M : Z) :
  0 <= M ->
  Nat.iter (S n) shr_1 (exact_record M)
  = {| shr_m := M / 2 ^ Z.of_nat (S n);
       shr_r := Z.odd (M / 2 ^ Z.of_nat n);
       shr_s := negb (M mod 2 ^ Z.of_nat n =? 0) |}.
Proof.
  intros HM. induction n as [|n IH].
  - cbn [Nat.iter]. unfold exact_record. rewrite shr_1_record by exact HM.
    change (2 ^ Z.of_nat 1) with 2. change (2 ^ Z.of_nat 0) with 1.
    rewrite Z.div_1_r, Z.mod_1_r. reflexivity.
  - change (Nat.iter (S (S n)) shr_1 (exact_record M))
      with (shr_1 (Nat.iter (S n) shr_1 (exact_record M))).
    rewrite IH.
    assert (P : 0 < 2 ^ Z.of_nat n) by (apply Z.pow_pos_nonneg; lia).
    assert (P1 : 2 ^ Z.of_nat (S n) = 2 ^ Z.of_nat n * 2)
      by (rewrite Nat2Z.inj_succ, Z.pow_succ_r by lia; lia).
    assert (P2 : 2 ^ Z.of_nat (S (S n)) = 2 ^ Z.of_nat (S n) * 2)
      by (rewrite (Nat2Z.inj_succ (S n)), Z.pow_succ_r by lia; lia).
    rewrite shr_1_record by (apply Z.div_pos; lia).
    f_equal.
    + rewrite P2, Z.div_div by lia. reflexivity.
    + rewrite P1. rewrite Z.rem_mul_r by lia.
      rewrite Zmod_odd.
      pose proof (Z.mod_pos_bound M (2 ^ Z.of_nat n) P) as Hb.
      destruct (Z.odd (M / 2 ^ Z.of_nat n)); simpl.
      * symmetry. apply negb_true_iff, Z.eqb_neq. lia.
      * rewrite Z.mul_0_r, Z.add_0_r. reflexivity.
Qed.

Lemma nearest_of_two (M h m1 rem m2 k : Z) :
  0 < h -> M = 2 * h * m1 + rem -> 0 <= rem < 2 * h ->
  (m2 = m1 /\ rem <= h) \/ (m2 = m1 + 1 /\ h <= rem) ->
  Z.abs (m2 * (2 * h) - M) <= Z.abs (k * (2 * h) - M).
Proof.
  intros Hh HM Hrem Hm2.
  destruct (Z.le_gt_cases k m1) as [Hk|Hk].
  - assert (0 <= (m1 - k) * (2 * h)) by nia.
    destruct Hm2 as [[-> Hr]|[-> Hr]]; nia.
  - assert (2 * h <= (k - m1) * (2 * h)) by nia.
    destruct Hm2 as [[-> Hr]|[-> Hr]]; nia.
Qed.

(** Shifting [sh] bits out and rounding to nearest, ties to even, gives
    the multiple of [2^sh] nearest to the number. *)
Lemma rne_nearest (M E sh : Z) :
  0 <= M -> 0 <= sh ->
  let A := shr (exact_record M) E sh in
  forall k,
    Z.abs (round_nearest_even (shr_m (fst A)) (loc_of_shr_record (fst A))
           * 2 ^ sh - M)
    <= Z.abs (k * 2 ^ sh - M).
Proof.
  intros HM Hsh A k. subst A.
  destruct sh as [|p|p]; try lia.
  - cbn [shr fst exact_record shr_m shr_r shr_s loc_of_shr_record
         round_nearest_even].
    change (2 ^ 0) with 1. lia.
  - cbn [shr fst]. rewrite iter_pos_nat.
    destruct (Pos.to_nat p) as [|n] eqn:En; [lia|].
    rewrite shr_iter_record by exact HM.
    cbn [shr_m shr_r shr_s].
    assert (Ep : Zpos p = Z.of_nat (S n)) by lia.
    rewrite Ep.
    set (h := 2 ^ Z.of_nat n).
    assert (Hh : 0 < h) by (apply Z.pow_pos_nonneg; lia).
    assert (P1 : 2 ^ Z.of_nat (S n) = 2 * h)
      by (subst h; rewrite Nat2Z.inj_succ, Z.pow_succ_r by lia; lia).
    rewrite P1.
    pose proof (Z.div_mod M h ltac:(lia)) as D1.
    pose proof (Z.mod_pos_bound M h Hh) as B1.
    pose proof (Z.div_mod (M / h) 2 ltac:(lia)) as D2.
    assert (Dq : M / (2 * h) = M / h / 2)
      by (rewrite (Z.mul_comm 2 h), Z.div_div by lia; reflexivity).
    rewrite Zmod_odd in D2.
    apply (nearest_of_two M h (M / (2 * h))
             ((if Z.odd (M / h) then 1 else 0) * h + M mod h)); try lia.
    + destruct (Z.odd (M / h)); lia.
    + unfold loc_of_shr_record.
      destruct (Z.odd (M / h)) eqn:Hodd;
        destruct (Z.eqb_spec (M mod h) 0) as [Hz|Hz]; simpl.
      * (* a tie *)
        destruct (Z.even (M / (2 * h))); [left | right]; lia.
      * right. lia.
      * left. lia.
      * left. lia.
Qed.

End NearestInteger.

Section RoundedProduct.

Lemma valid_finite (m : positive) (e : Z) :
  fexp Num.prec Num.emax (Zdigits2 (Zpos m) + e) = e -> e <= 971 ->
  Num.is_double (S754_finite false m e) = true.
Proof.
  intros Hc He. unfold Num.is_double, valid_binary, bounded, canonical_mantissa.
  change (Zpos (digits2_pos m)) with (Zdigits2 (Zpos m)).
  rewrite Hc, Z.eqb_refl. apply Z.leb_le. unfold Num.emax, Num.prec. lia.
Qed.

(** Rounding what a multiplication hands over: the result is a double,
    it is the multiple [m2 * 2^F] of the spacing [2^F] of the doubles at
    that size that is nearest to [M * 2^E], and where the doubles are
    spaced more finely below, [M * 2^E] is not below [2^(F + 52)]. *)
Lemma round_product (M E : Z) :
  0 < M -> 53 <= Zdigits2 M -> Zdigits2 M + E <= 54 ->
  let F := fexp Num.prec Num.emax (Zdigits2 M + E) in
  let x := binary_round_aux Num.prec Num.emax false M E loc_Exact in
  exists m2,
    E <= F /\ -1074 <= F /\ 0 <= m2
    /\ (forall k, Z.abs (m2 * 2 ^ (F - E) - M) <= Z.abs (k * 2 ^ (F - E) - M))
    /\ (-1074 < F -> 2 ^ (F - E + 52) <= M)
    /\ Num.is_double x = true
    /\ match x with
       | S754_zero s => s = false /\ m2 = 0
       | S754_finite s p e => s = false /\ F <= e /\ Zpos p * 2 ^ (e - F) = m2
       | _ => False
       end.
Proof.
  intros HM Hd Hov F x.
  assert (HF : F = Z.max (Zdigits2 M + E - 53) (-1074))
    by (subst F; apply fexp_eq).
  assert (HFE : E <= F) by lia.
  set (sh := F - E).
  assert (Hsh : 0 <= sh) by (subst sh; lia).
  subst x. rewrite round_unfold, shr_fexp_exact_eq. fold F. fold sh.
  pose proof (rne_nearest M E sh ltac:(lia) Hsh) as Hnear. cbv zeta in Hnear.
  destruct (shr_spec (exact_record M) E sh) as [Hm1 Hs1]; [simpl; lia|].
  cbn [exact_record shr_m] in Hm1.
  replace (Z.max 0 sh) with sh in Hm1, Hs1 by lia.
  replace (E + sh) with F in Hs1 by (subst sh; lia).
  set (A := shr (exact_record M) E sh) in *.
  pose proof (rne_bounds (shr_m (fst A)) (loc_of_shr_record (fst A))) as Hr.
  set (m2 := round_nearest_even (shr_m (fst A)) (loc_of_shr_record (fst A)))
    in *.
  assert (P : 0 < 2 ^ sh) by (apply Z.pow_pos_nonneg; lia).
  assert (Hm1pos : 0 <= shr_m (fst A))
    by (rewrite Hm1; apply Z.div_pos; lia).
  pose proof (digits_bounds (Z.to_pos M)) as HMb.
  rewrite Z2Pos.id in HMb by lia.
  assert (Hbelow : -1074 < F -> 2 ^ (sh + 52) <= M).
  { intros Hn.
    replace (sh + 52) with (Zdigits2 M - 1) by (subst sh; lia). lia. }
  (* the first alignment leaves at most 53 bits *)
  assert (Hm1hi : shr_m (fst A) < 2 ^ 53
                  /\ (F = -1074 -> Zdigits2 M + E - 53 < -1074 ->
                      shr_m (fst A) < 2 ^ 52)
                  /\ (-1074 <= Zdigits2 M + E - 53 ->
                      2 ^ 52 <= shr_m (fst A))).
  { rewrite Hm1. split; [|split].
    - apply Z.div_lt_upper_bound; [lia|].
      rewrite <- Z.pow_add_r by lia.
      apply Z.lt_le_trans with (1 := proj2 HMb).
      apply Z.pow_le_mono_r; subst sh; lia.
    - intros HF1 Hsub. apply Z.div_lt_upper_bound; [lia|].
      rewrite <- Z.pow_add_r by lia.
      apply Z.lt_le_trans with (1 := proj2 HMb).
      apply Z.pow_le_mono_r; subst sh; lia.
    - intros Hnorm. apply Z.div_le_lower_bound; [lia|].
      rewrite <- Z.pow_add_r by lia.
      apply Z.le_trans with (2 := proj1 HMb).
      apply Z.pow_le_mono_r; subst sh; lia. }
  destruct Hm1hi as (Hhi & Hsub & Hnorm).
  exists m2. split; [exact HFE|]. split; [lia|]. split; [lia|].
  split; [exact Hnear|]. split; [exact Hbelow|].
  unfold second_alignment. fold m2. rewrite Hs1, shr_fexp_exact_eq.
  destruct (Z.eq_dec m2 0) as [Hz|Hnz].
  { (* rounded to zero *)
    rewrite Hz. rewrite shr_nonpos by (simpl Zdigits2; rewrite fexp_eq; lia).
    unfold finish. cbn [fst snd exact_record shr_m].
    split; [reflexivity | split; reflexivity]. }
  assert (Hm2 : 0 < m2) by lia.
  destruct (Z.eq_dec m2 (2 ^ 53)) as [Hc|Hnc].
  { (* rounded up to the next power of two *)
    assert (Hn : -1074 <= Zdigits2 M + E - 53).
    { destruct (Z.le_gt_cases (-1074) (Zdigits2 M + E - 53)); [assumption|].
      assert (shr_m (fst A) < 2 ^ 52) by (apply Hsub; lia).
      assert (2 ^ 52 < 2 ^ 53) by (apply Z.pow_lt_mono_r; lia). lia. }
    rewrite Hc.
    change (2 ^ 53) with (2 ^ 52 * 2 ^ 1).
    rewrite fexp_eq, digits_shift by lia.
    change (Zdigits2 (2 ^ 52)) with 53.
    replace (Z.max (53 + 1 + F - 53) (-1074) - F) with 1 by lia.
    rewrite shr_exact by lia.
    unfold finish. cbn [fst snd exact_record shr_m].
    change (2 ^ 52) with (Zpos 4503599627370496).
    replace (F + 1 <=? Num.emax - Num.prec) with true
      by (symmetry; apply Z.leb_le; unfold Num.emax, Num.prec; lia).
    split.
    - apply valid_finite; [|lia]. rewrite fexp_eq.
      change (Zdigits2 (Zpos 4503599627370496)) with 53. lia.
    - split; [reflexivity|]. split; [lia|].
      replace (F + 1 - F) with 1 by lia. reflexivity. }
  (* no carry *)
  assert (Hlt : m2 < 2 ^ 53) by lia.
  assert (Hdig : fexp Num.prec Num.emax (Zdigits2 m2 + F) = F).
  { rewrite fexp_eq.
    destruct (Z.le_gt_cases (-1074) (Zdigits2 M + E - 53)) as [Hn|Hn].
    - assert (Zdigits2 m2 = 53); [|lia].
      apply digits_unique; [lia|]. specialize (Hnorm Hn). lia.
    - assert (Zdigits2 m2 <= 53) by (apply digits_le; lia). lia. }
  rewrite shr_nonpos by lia.
  unfold finish. cbn [fst snd exact_record shr_m].
  destruct m2 as [|p|p] eqn:Em2; try lia.
  replace (F <=? Num.emax - Num.prec) with true
    by (symmetry; apply Z.leb_le; unfold Num.emax, Num.prec; lia).
  split.
  - apply valid_finite; [exact Hdig | lia].
  - split; [reflexivity|]. split; [lia|].
    rewrite Z.sub_diag. change (2 ^ 0) with 1. lia.
Qed.

End RoundedProduct.

Section Values.

(** The value of a double in units of [2^-1126], where every number at
    hand is an integer. *)
Lemma value_scaled (s : bool) (m : positive) (e : Z) :
  -1126 <= e ->
  (value (S754_finite s m e)
   == inject_Z ((if s then -1 else 1) * Zpos m * 2 ^ (e + 1126))
      * 2 ^ (-1126))%Q.
Proof.
  intros He. unfold value.
  rewrite !inject_Z_mult, Zpower_Qpower by lia.
  replace e with ((e + 1126) + (-1126)) at 1 by lia.
  rewrite Qpower_plus by discriminate.
  change (inject_Z 2) with 2%Q.
  destruct s; cbn [inject_Z]; ring.
Qed.

Lemma scaled_nearer (X Y P : Z) (u : Q) :
  (0 < u)%Q -> Z.abs (X - P) <= Z.abs (Y - P) ->
  (Qabs (inject_Z X * u - inject_Z P * u)
   <= Qabs (inject_Z Y * u - inject_Z P * u))%Q.
Proof.
  intros Hu H.
  assert (E : forall A, (inject_Z A * u - inject_Z P * u
                         == inject_Z (A - P) * u)%Q).
  { intros A. unfold Z.sub. rewrite inject_Z_plus, inject_Z_opp. ring. }
  rewrite !E, !Qabs_Qmult.
  apply Qmult_le_compat_r; [|apply Qabs_nonneg].
  unfold inject_Z. rewrite <- !Zabs_Qabs.
  change (inject_Z (Z.abs (X - P)) <= inject_Z (Z.abs (Y - P)))%Q.
  rewrite <- Zle_Qle. exact H.
Qed.

(** Among the doubles, the rounded product is nearest: a double of at
    least its size is a multiple of the same spacing, and a smaller one
    is further away than the power of two between them. *)
Lemma nearer_than_double (M E F m2 : Z) (y : number) :
  0 < M -> -1126 <= E -> E <= F -> -1074 <= F ->
  (forall k, Z.abs (m2 * 2 ^ (F - E) - M) <= Z.abs (k * 2 ^ (F - E) - M)) ->
  (-1074 < F -> 2 ^ (F - E + 52) <= M) ->
  Num.is_double y = true ->
  let Y := match y with
           | S754_finite s m e =>
               (if s then -1 else 1) * Zpos m * 2 ^ (e + 1126)
           | _ => 0
           end in
  Z.abs (m2 * 2 ^ (F + 1126) - M * 2 ^ (E + 1126))
  <= Z.abs (Y - M * 2 ^ (E + 1126)).
Proof.
  intros HM HE HEF HF Hnear Hbelow Hy Y.
  set (g := 2 ^ (E + 1126)).
  assert (Hg : 0 < g) by (apply Z.pow_pos_nonneg; lia).
  assert (HG : 2 ^ (F + 1126) = 2 ^ (F - E) * g).
  { subst g. rewrite <- Z.pow_add_r by lia. f_equal. lia. }
  assert (Psh : 0 < 2 ^ (F - E)) by (apply Z.pow_pos_nonneg; lia).
  assert (Hgrid : forall k,
             Z.abs (m2 * 2 ^ (F + 1126) - M * g)
             <= Z.abs (k * 2 ^ (F + 1126) - M * g)).
  { intros k. rewrite HG.
    replace (m2 * (2 ^ (F - E) * g) - M * g)
      with ((m2 * 2 ^ (F - E) - M) * g) by ring.
    replace (k * (2 ^ (F - E) * g) - M * g)
      with ((k * 2 ^ (F - E) - M) * g) by ring.
    rewrite !Z.abs_mul, (Z.abs_eq g) by lia.
    apply Z.mul_le_mono_nonneg_r; [lia | apply Hnear]. }
  destruct y as [sy|sy| |sy my ey]; subst Y;
    try (specialize (Hgrid 0); rewrite Z.mul_0_l in Hgrid; exact Hgrid).
  pose proof (canonical_bounds sy my ey Hy) as (Hdy & Hey & _).
  destruct (Z.le_gt_cases F ey) as [Hge|Hlt].
  - (* a multiple of the spacing *)
    specialize (Hgrid ((if sy then -1 else 1) * Zpos my * 2 ^ (ey - F))).
    replace ((if sy then -1 else 1) * Zpos my * 2 ^ (ey - F) * 2 ^ (F + 1126))
      with ((if sy then -1 else 1) * Zpos my * 2 ^ (ey + 1126)) in Hgrid.
    + exact Hgrid.
    + replace (ey + 1126) with ((ey - F) + (F + 1126)) by lia.
      rewrite Z.pow_add_r by lia. ring.
  - (* a smaller double *)
    specialize (Hbelow ltac:(lia)).
    specialize (Hgrid (2 ^ 52)).
    pose proof (digits_bounds my) as [_ Hmy].
    assert (Hmy' : Zpos my < 2 ^ 53).
    { apply Z.lt_le_trans with (1 := Hmy). apply Z.pow_le_mono_r; lia. }
    assert (Py : 0 < 2 ^ (ey + 1126)) by (apply Z.pow_pos_nonneg; lia).
    assert (HB : 2 ^ 53 * 2 ^ (ey + 1126) <= 2 ^ 52 * 2 ^ (F + 1126)).
    { rewrite <- !Z.pow_add_r by lia. apply Z.pow_le_mono_r; lia. }
    assert (HBM : 2 ^ 52 * 2 ^ (F + 1126) <= M * g).
    { rewrite HG, Z.mul_assoc.
      apply Z.mul_le_mono_nonneg_r; [lia|].
      rewrite <- Z.pow_add_r by lia.
      replace (52 + (F - E)) with (F - E + 52) by lia. exact Hbelow. }
    assert (HY : (if sy then -1 else 1) * Zpos my * 2 ^ (ey + 1126)
                 < 2 ^ 53 * 2 ^ (ey + 1126)).
    { destruct sy; nia. }
    lia.
Qed.

End Values.

Section Anchor.

Lemma nearest_zero (q : Q) (s : bool) :
  (q == 0)%Q -> nearest q (S754_zero s).
Proof.
  intros Hq. split; [reflexivity|]. split; [reflexivity|].
  intros y _ _. rewrite Hq. cbn [value].
  change (Qabs (0 - 0)) with 0%Q. apply Qabs_nonneg.
Qed.

Lemma value_of_double (y : number) :
  Num.is_double y = true ->
  (value y
   == inject_Z match y with
               | S754_finite s m e =>
                   (if s then -1 else 1) * Zpos m * 2 ^ (e + 1126)
               | _ => 0
               end * 2 ^ (-1126))%Q.
Proof.
  intros Hy. destruct y as [s|s| |s m e]; try (cbn [value]; ring).
  pose proof (canonical_bounds s m e Hy) as (_ & He & _).
  apply value_scaled. lia.
Qed.

(** The product of an integer below [2^53] and a number of the unit
    interval, as the script computes it, is a double nearest to the exact
    product. *)
Lemma mul_nearest (w : Z) (c : number) :
  0 <= w < 2 ^ 53 ->
  Num.is_double c = true -> Num.in_unit c = true ->
  nearest (value c * inject_Z w) (Num.mul (Num.of_Z w) c).
Proof.
  intros Hw Hc Hu.
  destruct c as [sc|[|]| |sc mc ec]; try discriminate.
  { (* a zero *)
    assert (Hz : exists s', Num.mul (Num.of_Z w) (S754_zero sc) = S754_zero s').
    { destruct (Z.eq_dec w 0) as [->|Hnz]; [eexists; reflexivity|].
      rewrite of_Z_pos by lia. eexists; reflexivity. }
    destruct Hz as [s' ->]. apply nearest_zero. cbn [value]. ring. }
  destruct sc; [discriminate|].
  destruct (Z.eq_dec w 0) as [->|Hnz].
  { change (Num.mul (Num.of_Z 0) (S754_finite false mc ec))
      with (S754_zero false).
    apply nearest_zero. change (inject_Z 0) with 0%Q. ring. }
  assert (Hw' : 0 < w < 2 ^ 53) by lia.
  rewrite (of_Z_pos w Hw').
  set (d := Zdigits2 w).
  assert (Hd : 0 < d <= 53).
  { subst d. destruct w as [|p|p]; try lia. split; [apply digits_pos|].
    apply digits_le; lia. }
  set (mw := w * 2 ^ (53 - d)).
  assert (P53 : 0 < 2 ^ (53 - d)) by (apply Z.pow_pos_nonneg; lia).
  assert (Hmw : 2 ^ 52 <= mw < 2 ^ 53).
  { subst mw. apply digits_53; [nia|].
    rewrite digits_shift by lia. fold d. lia. }
  rewrite mul_finite. cbn [xorb].
  rewrite Z2Pos.id by lia. fold mw.
  (* the position is at most one *)
  apply andb_prop in Hu as [_ Hle]. rewrite one_eq in Hle.
  pose proof (leb_value mc 4503599627370496 ec (-52) Hc eq_refl Hle)
    as (Hec & Hmc & _).
  rewrite <- pow52 in Hmc. rewrite <- Z.pow_add_r in Hmc by lia.
  replace (52 + (-52 - ec)) with (- ec) in Hmc by lia.
  pose proof (canonical_bounds false mc ec Hc) as (_ & Hec' & _).
  set (M := mw * Zpos mc). set (E := d - 53 + ec).
  assert (HM : 0 < M) by (subst M; nia).
  assert (HdM : 53 <= Zdigits2 M).
  { assert (52 < Zdigits2 M); [|lia]. apply digits_gt; [|lia]. subst M. nia. }
  assert (HdE : Zdigits2 M + E <= 54).
  { assert (Zdigits2 M <= 53 - ec); [|subst E; lia].
    apply digits_le; [|lia]. split; [lia|].
    replace (53 - ec) with (53 + - ec) by lia. rewrite Z.pow_add_r by lia.
    assert (0 < 2 ^ (- ec)) by (apply Z.pow_pos_nonneg; lia).
    subst M. nia. }
  destruct (round_product M E HM HdM HdE)
    as (m2 & HEF & HF & Hm2 & Hnear & Hbelow & Hvalid & Hx).
  set (F := fexp Num.prec Num.emax (Zdigits2 M + E)) in *.
  set (x := binary_round_aux Num.prec Num.emax false M E loc_Exact) in *.
  assert (HE : -1126 <= E) by (unfold E; lia).
  split; [exact Hvalid|]. split.
  { destruct x; try contradiction; reflexivity. }
  intros y Hy _.
  assert (Eq : (value (S754_finite false mc ec) * inject_Z w
                == inject_Z (M * 2 ^ (E + 1126)) * 2 ^ (-1126))%Q).
  { rewrite value_scaled by lia.
    assert (Ez : M * 2 ^ (E + 1126) = 1 * Zpos mc * 2 ^ (ec + 1126) * w).
    { unfold M, E, mw.
      replace (ec + 1126) with ((53 - d) + (d - 53 + ec + 1126)) by lia.
      rewrite (Z.pow_add_r 2 (53 - d) (d - 53 + ec + 1126)) by lia. ring. }
    rewrite Ez, (inject_Z_mult _ w). ring. }
  assert (Ex : (value x == inject_Z (m2 * 2 ^ (F + 1126)) * 2 ^ (-1126))%Q).
  { destruct x as [s|s| |s p e]; try contradiction.
    - destruct Hx as [_ ->]. cbn [value]. rewrite Z.mul_0_l.
      change (inject_Z 0) with 0%Q. ring.
    - destruct Hx as (-> & He & Hp). rewrite value_scaled by lia.
      assert (Ez : 1 * Zpos p * 2 ^ (e + 1126) = m2 * 2 ^ (F + 1126)).
      { rewrite <- Hp.
        replace (e + 1126) with ((e - F) + (F + 1126)) by lia.
        rewrite Z.pow_add_r by lia. ring. }
      rewrite Ez. reflexivity. }
  rewrite Eq, Ex, (value_of_double y Hy).
  apply scaled_nearer; [reflexivity|].
  apply (nearer_than_double M E F m2 y); assumption.
Qed.

(** A nearest double is the number itself, when that is a double. *)
Lemma nearest_exact (q : Q) (x y : number) :
  nearest q x -> Num.is_double y = true -> Num.is_finite y = true ->
  (value y == q)%Q -> (value x == q)%Q.
Proof.
  intros (_ & _ & Hn) Hy Hf Hq. specialize (Hn y Hy Hf).
  rewrite Hq in Hn.
  setoid_replace (q - q)%Q with 0%Q using relation Qeq in Hn by ring.
  change (Qabs 0) with 0%Q in Hn.
  apply Qabs_Qle_condition in Hn as [H1 H2].
  change (- 0)%Q with 0%Q in H1.
  assert (Hz : (value x - q == 0)%Q) by (apply Qle_antisym; assumption).
  setoid_replace (value x) with ((value x - q) + q)%Q using relation Qeq
    by ring.
  rewrite Hz. ring.
Qed.

End Anchor.

(** C5 (as amended): for a relative position that lies in the unit
    square and an image less than [2^53] wide and high, the text is
    drawn at the doubles nearest to the exact products [fx * width] and
    [fy * height]: at the products themselves where these are doubles,
    and where they are not, at a double no other double is nearer
    than. *)
Theorem C5_anchor_is_product
        (raw : string) (sz : ImageSize) (s : Settings) :
  Num.is_double (fst (coordinates s)) = true ->
  Num.is_double (snd (coordinates s)) = true ->
  in_unit_square (coordinates s) = true ->
  (width sz < 2 ^ 53)%N -> (height sz < 2 ^ 53)%N ->
  let at_ := card_at (generateInvitationCard raw sz s) in
  let exact := Claimed.anchor sz (coordinates s) in
  nearest (fst exact) (fst at_) /\ nearest (snd exact) (snd at_)
  /\ (forall y, Num.is_double y = true -> Num.is_finite y = true ->
                (value y == fst exact)%Q -> (value (fst at_) == fst exact)%Q)
  /\ (forall y, Num.is_double y = true -> Num.is_finite y = true ->
                (value y == snd exact)%Q -> (value (snd at_) == snd exact)%Q).
Proof.
  intros Hx Hy Hu Hw Hh at_ exact.
  apply andb_prop in Hu as [Hux Huy].
  assert (N1 : nearest (fst exact) (fst at_)).
  { apply mul_nearest; [|assumption..].
    change (2 ^ 53) with (Z.of_N (2 ^ 53)%N). lia. }
  assert (N2 : nearest (snd exact) (snd at_)).
  { apply mul_nearest; [|assumption..].
    change (2 ^ 53) with (Z.of_N (2 ^ 53)%N). lia. }
  split; [exact N1|]. split; [exact N2|]. split.
  - intros y. apply nearest_exact. exact N1.
  - intros y. apply nearest_exact. exact N2.
Qed.

(** C5, witness: the specification's scenario, 1000 by 800 and
    [0.5, 0.1]. *)
Lemma C5_anchor_is_product_witness :
  let at_ := card_at (generateInvitationCard EmptyString Sample.photo
                                               Sample.jane) in
  let exact := Claimed.anchor Sample.photo (coordinates Sample.jane) in
  nearest (fst exact) (fst at_) /\ nearest (snd exact) (snd at_)
  /\ (forall y, Num.is_double y = true -> Num.is_finite y = true ->
                (value y == fst exact)%Q -> (value (fst at_) == fst exact)%Q)
  /\ (forall y, Num.is_double y = true -> Num.is_finite y = true ->
                (value y == snd exact)%Q -> (value (snd at_) == snd exact)%Q).
Proof.
  apply (C5_anchor_is_product EmptyString Sample.photo Sample.jane);
    reflexivity.
Defined.

(** C5, counterexample to the claim as stated: a tenth of the width of an
    image three pixels wide.  The product of the double next to [0.1] and
    [3] is no double, and the text is drawn next to it. *)
Lemma C5_product_is_rounded :
  ~ (value (fst (card_at (generateInvitationCard
                            EmptyString {| width := 3; height := 3 |}
                            Sample.tenth)))
     == fst (Claimed.anchor {| width := 3; height := 3 |} (coordinates Sample.tenth)))%Q.
Proof.
  intros H. apply Qeq_bool_iff in H. vm_compute in H. discriminate.
Qed.

(** The specification's scenario: 1000 by 800, [0.5, 0.1], size 30. *)
Lemma scenario_anchor_and_size :
  card_at (generateInvitationCard EmptyString Sample.photo Sample.jane)
  = (Num.of_Z 500, Num.of_Z 80)
  /\ effectiveSize (fontSize Sample.jane) Sample.photo = Num.of_Z 40.
Proof. split; vm_compute; reflexivity. Qed.

Lemma effectiveSize_eq (fs : string) (sz : ImageSize) :
  effectiveSize fs sz =
  Num.mul (Num.div (sizePt fs) (Num.of_Z 600)) (Num.of_N (height sz)).
Proof.
  unfold effectiveSize, sizePt, Num.or_else, Num.truthy.
  destruct (parseFloat fs); reflexivity.
Qed.

(** White space before the digits is no part of the font size, the
    no-break space U+00A0 like the others. *)
Lemma no_break_space_is_trimmed :
  parseFloat (String "194" (String "160" "12")) = Num.of_Z 12.
Proof. vm_compute. reflexivity. Qed.

(** C6 (as amended): the effective size is [sizePt / 600 * height], where
    [sizePt] is the parsed font size, or 14 when the font size does not
    parse or parses to zero; and for image heights below [2^52] doubling
    the height doubles the effective size. *)
Theorem C6_effective_size (fs : string) (w h : N) :
  effectiveSize fs {| width := w; height := h |}
  = Num.mul (Num.div (sizePt fs) (Num.of_Z 600)) (Num.of_N h)
  /\ ((h < 2 ^ 52)%N ->
      effectiveSize fs {| width := w; height := 2 * h |}
      = Num.mul Num.two (effectiveSize fs {| width := w; height := h |})).
Proof.
  rewrite !effectiveSize_eq. cbn [height]. split; [reflexivity|].
  intros Hh. unfold Num.of_N. rewrite N2Z.inj_mul. change (Z.of_N 2) with 2.
  apply mul_doubles.
  - intros s p f. apply div_exponent.
  - split; [lia|]. change (2 ^ 52) with (Z.of_N (2 ^ 52)%N). lia.
Qed.

(** C6, witness: size 30 on an image 800 high, and on one 1600 high. *)
Lemma C6_effective_size_witness :
  effectiveSize "30" {| width := 1000; height := 800 |}
  = Num.mul (Num.div (sizePt "30") (Num.of_Z 600)) (Num.of_N 800)
  /\ effectiveSize "30" {| width := 1000; height := 2 * 800 |}
     = Num.mul Num.two (effectiveSize "30" {| width := 1000; height := 800 |}).
Proof.
  destruct (C6_effective_size "30" 1000 800) as [H1 H2].
  split; [exact H1 | apply H2; reflexivity].
Defined.

(** C6, counterexample to the claim as stated: the font size 0 parses, to
    zero, and the renderer uses 14 all the same. *)
Lemma C6_zero_is_replaced_by_14 :
  parseFloat "0" = Num.zero
  /\ effectiveSize "0" Sample.photo <> Claimed.effectiveSize "0" Sample.photo.
Proof. split; [reflexivity|]. vm_compute. discriminate. Qed.

(** ** Coordinates *)

Lemma within_in_unit (offset client : number) :
  within offset client = true -> Num.in_unit (Num.div offset client) = true.
Proof.
  unfold within. intros H.
  repeat (apply andb_prop in H as [H ?]).
  apply div_in_unit; assumption.
Qed.

Lemma handleFontLoadingCode_settings (st : App) :
  settings (handleFontLoadingCode st) = settings st.
Proof.
  unfold handleFontLoadingCode.
  destruct (is_empty _); [reflexivity|].
  destruct (bool_decide _); reflexivity.
Qed.

Lemma step_in_unit_square (st : App) (e : event) :
  match e with
  | ClickPreview evt => click_inside evt = true
  | _ => True
  end ->
  in_unit_square (coordinates (settings st)) = true ->
  in_unit_square (coordinates (settings (step st e))) = true.
Proof.
  intros He Hin. destruct e; simpl; try exact Hin.
  - rewrite handleFontLoadingCode_settings. exact Hin.
  - unfold click_inside in He. apply andb_prop in He as [Hx Hy].
    unfold in_unit_square. simpl.
    rewrite (within_in_unit _ _ Hx), (within_in_unit _ _ Hy). reflexivity.
  - destruct (polling st); exact Hin.
Qed.

Lemma run_in_unit_square (es : list event) :
  forall st,
    clicks_inside es ->
    in_unit_square (coordinates (settings st)) = true ->
    in_unit_square (coordinates (settings (run st es))) = true.
Proof.
  induction es as [|e es IH]; intros st Hes Hin; [exact Hin|].
  inversion Hes as [|? ? He Hrest]; subst.
  simpl. apply IH; [exact Hrest|]. apply step_in_unit_square; assumption.
Qed.

Lemma mount_settings (s : Settings) : settings (mount s) = s.
Proof.
  unfold mount. destruct (is_empty (fontLoadingCode s)); [reflexivity|].
  apply handleFontLoadingCode_settings.
Qed.

Lemma loadSettings_default_coordinates (url : SearchParams.t) (s : Settings) :
  SearchParams.get "coordinates" url = None ->
  loadSettings url = Started s ->
  coordinates s = default_coordinates.
Proof.
  intros Hg. unfold loadSettings, loadObjectParam. rewrite Hg.
  intros H. injection H as <-. reflexivity.
Qed.

(** C8 (as amended): the coordinates loaded from the address are not
    checked.  When the address carries none (they are then one half each)
    or carries a pair inside the unit square, and every click falls inside
    the preview image, with offsets between zero and the positive client
    size, both coordinates lie in [0, 1] in every state the component
    reaches. *)
Theorem C8_coordinates_in_unit_square
        (url : SearchParams.t) (s : Settings) (es : list event) :
  loadSettings url = Started s ->
  SearchParams.get "coordinates" url = None
  \/ in_unit_square (coordinates s) = true ->
  clicks_inside es ->
  in_unit_square (coordinates (settings (run (mount s) es))) = true.
Proof.
  intros Hload Hstart Hes.
  apply run_in_unit_square; [exact Hes|].
  rewrite mount_settings.
  destruct Hstart as [Hnone|Hin]; [|exact Hin].
  rewrite (loadSettings_default_coordinates url s Hnone Hload). reflexivity.
Qed.

(** C8, witness: an address with no coordinates, an edit and a click. *)
Lemma C8_coordinates_in_unit_square_witness :
  in_unit_square
    (coordinates
       (settings (run (mount (with_name "Tan" Sample.jane))
                      [InputFontSize "20"; ClickPreview Sample.inside])))
  = true.
Proof.
  apply (C8_coordinates_in_unit_square
           [("name", "Tan"); ("fontSize", "30"); ("isBold", "1");
            ("coordinates", "[0.5,0.1]")]).
  - vm_compute. reflexivity.
  - right. vm_compute. reflexivity.
  - repeat constructor.
Defined.

(** C8, counterexample to the claim as stated: the address supplies the
    pair [5, 7], and that is what the component starts from. *)
Lemma C8_address_outside_unit_square :
  match loadSettings [("coordinates", "[5,7]")] with
  | Started s =>
      coordinates s = (Num.of_Z 5, Num.of_Z 7)
      /\ in_unit_square (coordinates s) = false
  | _ => False
  end.
Proof. vm_compute. split; reflexivity. Qed.

(** * Further properties of the script *)

(** ** Saving, pair by pair *)

Section Saving.
Import SearchParams.

Lemma saveSettings_set_all (s : Settings) (url : t) :
  saveSettings s url = set_all (saved_texts s) url.
Proof. reflexivity. Qed.

Lemma saved_texts_keys (s : Settings) : map fst (saved_texts s) = saved_keys.
Proof. reflexivity. Qed.

Lemma filter_remove (f : string * string -> bool) (k : string) (ps : t) :
  (forall v, f (k, v) = false) ->
  List.filter f (remove k ps) = List.filter f ps.
Proof.
  intros Hk. induction ps as [|[a v] r IH]; simpl; [reflexivity|].
  destruct (String.eqb a k) eqn:Ha.
  - apply String.eqb_eq in Ha. subst a. rewrite Hk. exact IH.
  - simpl. rewrite IH. reflexivity.
Qed.

Lemma filter_set (f : string * string -> bool) (k v : string) (ps : t) :
  (forall w, f (k, w) = false) ->
  List.filter f (set k v ps) = List.filter f ps.
Proof.
  intros Hk. induction ps as [|[a w] r IH]; simpl.
  - rewrite Hk. reflexivity.
  - destruct (String.eqb a k) eqn:Ha; simpl.
    + apply String.eqb_eq in Ha. subst a. rewrite !Hk.
      apply filter_remove. exact Hk.
    + rewrite IH. reflexivity.
Qed.

Lemma filter_set_all (f : string * string -> bool)
      (kvs : list (string * string)) :
  (forall k v, k ∈ map fst kvs -> f (k, v) = false) ->
  forall ps, List.filter f (set_all kvs ps) = List.filter f ps.
Proof.
  induction kvs as [|[k v] r IH]; intros Hf ps; [reflexivity|].
  unfold set_all. simpl. fold (set_all r (set k v ps)).
  rewrite IH by (intros; apply Hf; simpl; apply elem_of_cons; right; assumption).
  apply filter_set. intros w. apply Hf. simpl. apply elem_of_cons. left.
  reflexivity.
Qed.

Lemma is_saved_key_In (k : string) :
  k ∈ saved_keys -> is_saved_key k = true.
Proof.
  intros H. unfold is_saved_key. apply existsb_exists.
  exists k. split; [apply list_elem_of_In; exact H | apply String.eqb_refl].
Qed.

(** X1: [saveSettings] leaves the parameters it does not own as they
    are: the pairs of the address under other names are the same, in the
    same order, before and after. *)
Theorem X1_save_keeps_foreign_parameters (s : Settings) (url : SearchParams.t) :
  foreign (saveSettings s url) = foreign url.
Proof.
  rewrite saveSettings_set_all. unfold foreign.
  apply filter_set_all. intros k v Hk. simpl.
  rewrite saved_texts_keys in Hk.
  rewrite (is_saved_key_In k Hk). reflexivity.
Qed.

Lemma occurrences_remove_same (k : string) (ps : t) :
  occurrences k (remove k ps) = 0%nat.
Proof.
  unfold occurrences. induction ps as [|[a v] r IH]; simpl; [reflexivity|].
  destruct (String.eqb a k) eqn:Ha; [exact IH|].
  simpl. rewrite Ha. exact IH.
Qed.

Lemma occurrences_set_same (k v : string) (ps : t) :
  occurrences k (set k v ps) = 1%nat.
Proof.
  induction ps as [|[a w] r IH]; unfold occurrences in *; simpl.
  - rewrite String.eqb_refl. reflexivity.
  - destruct (String.eqb a k) eqn:Ha; simpl.
    + rewrite String.eqb_refl. simpl. f_equal.
      apply occurrences_remove_same.
    + rewrite Ha. exact IH.
Qed.

Lemma occurrences_set_other (k k' v : string) (ps : t) :
  k <> k' -> occurrences k (set k' v ps) = occurrences k ps.
Proof.
  intros Hne. unfold occurrences. f_equal. apply filter_set.
  intros w. simpl. apply String.eqb_neq. congruence.
Qed.

Lemma occurrences_set_all (k : string) (kvs : list (string * string)) :
  NoDup (map fst kvs) -> k ∈ map fst kvs ->
  forall ps, occurrences k (set_all kvs ps) = 1%nat.
Proof.
  induction kvs as [|[a v] r IH]; intros Hnd Hin ps;
    [apply elem_of_nil in Hin; destruct Hin|].
  simpl in Hnd, Hin. apply NoDup_cons in Hnd as [Hnotin Hnd'].
  unfold set_all. simpl. fold (set_all r (set a v ps)).
  destruct (decide (k ∈ map fst r)) as [Hr|Hr].
  - apply IH; assumption.
  - apply elem_of_cons in Hin as [Hin|Hin]; [subst a|contradiction].
    unfold occurrences.
    rewrite filter_set_all.
    + apply (occurrences_set_same k v ps).
    + intros k' w Hk'. simpl. apply String.eqb_neq. congruence.
Qed.

Lemma saved_keys_NoDup : NoDup saved_keys.
Proof.
  apply (bool_decide_unpack _). vm_compute. reflexivity.
Qed.

(** X2: after [saveSettings] every name it writes stands in the address
    exactly once, however often it stood there before. *)
Theorem X2_saved_names_stand_once (s : Settings) (url : SearchParams.t) :
  Forall (fun k => occurrences k (saveSettings s url) = 1%nat) saved_keys.
Proof.
  apply Forall_forall. intros k Hk.
  rewrite saveSettings_set_all. apply occurrences_set_all.
  - rewrite saved_texts_keys. exact saved_keys_NoDup.
  - rewrite saved_texts_keys. exact Hk.
Qed.

Lemma remove_remove (k k' : string) (ps : t) :
  remove k (remove k' ps) = remove k' (remove k ps).
Proof.
  induction ps as [|[a v] r IH]; simpl; [reflexivity|].
  destruct (String.eqb a k') eqn:H1, (String.eqb a k) eqn:H2; simpl;
    rewrite ?H1, ?H2; congruence.
Qed.

Lemma remove_idem (k : string) (ps : t) : remove k (remove k ps) = remove k ps.
Proof.
  induction ps as [|[a v] r IH]; simpl; [reflexivity|].
  destruct (String.eqb a k) eqn:H1; simpl; rewrite ?H1; congruence.
Qed.

Lemma set_set_same (k a b : string) (ps : t) :
  set k a (set k b ps) = set k a ps.
Proof.
  induction ps as [|[c w] r IH]; simpl.
  - rewrite String.eqb_refl. reflexivity.
  - destruct (String.eqb c k) eqn:Hc; simpl.
    + rewrite String.eqb_refl. rewrite remove_idem. reflexivity.
    + rewrite Hc. rewrite IH. reflexivity.
Qed.

Lemma remove_set_other (k k' v : string) (ps : t) :
  k <> k' -> remove k (set k' v ps) = set k' v (remove k ps).
Proof.
  intros Hne. induction ps as [|[c w] r IH]; simpl.
  - destruct (String.eqb k' k) eqn:H; [|reflexivity].
    apply String.eqb_eq in H. congruence.
  - destruct (String.eqb c k') eqn:H1.
    + apply String.eqb_eq in H1. subst c.
      destruct (String.eqb k' k) eqn:H2.
      { apply String.eqb_eq in H2. congruence. }
      simpl. rewrite H2, String.eqb_refl. rewrite remove_remove. reflexivity.
    + destruct (String.eqb c k) eqn:H2; simpl; rewrite ?H1, ?H2.
      * exact IH.
      * rewrite IH. reflexivity.
Qed.

(** Two [set]s under different names commute once the first name is in
    the address: neither then appends before the other. *)
Lemma set_set_other (k k' a b : string) (ps : t) :
  k <> k' -> get k ps <> None ->
  set k a (set k' b ps) = set k' b (set k a ps).
Proof.
  intros Hne. induction ps as [|[c w] r IH]; simpl; [congruence|].
  intros Hg.
  destruct (String.eqb c k) eqn:H1.
  - apply String.eqb_eq in H1. subst c.
    destruct (String.eqb k k') eqn:H2.
    { apply String.eqb_eq in H2. congruence. }
    simpl. rewrite String.eqb_refl, H2.
    rewrite remove_set_other by exact Hne. reflexivity.
  - destruct (String.eqb c k') eqn:H2; simpl; rewrite ?H1, ?H2.
    + apply String.eqb_eq in H2. subst c.
      rewrite H1. f_equal.
      symmetry. apply remove_set_other. congruence.
    + rewrite IH by exact Hg. reflexivity.
Qed.

Lemma set_set_all (k b : string) (kvs : list (string * string)) :
  k ∉ map fst kvs ->
  forall ps, get k ps <> None ->
             set k b (set_all kvs ps) = set_all kvs (set k b ps).
Proof.
  induction kvs as [|[a v] r IH]; intros Hk ps Hg; [reflexivity|].
  unfold set_all. simpl. fold (set_all r (set a v ps)).
  fold (set_all r (set a v (set k b ps))).
  simpl in Hk.
  apply not_elem_of_cons in Hk as [Hka Hkr].
  rewrite IH.
  - rewrite set_set_other; [reflexivity | exact Hka | exact Hg].
  - exact Hkr.
  - rewrite get_set_other by exact Hka. exact Hg.
Qed.

Lemma set_all_twice (kvs1 : list (string * string)) :
  forall kvs2 ps,
    map fst kvs1 = map fst kvs2 -> NoDup (map fst kvs1) ->
    set_all kvs2 (set_all kvs1 ps) = set_all kvs2 ps.
Proof.
  induction kvs1 as [|[k a] r1 IH]; intros [|[k' b] r2] ps Hk Hnd;
    try discriminate; [reflexivity|].
  simpl in Hk. injection Hk as <- Hk.
  simpl in Hnd. apply NoDup_cons in Hnd as [Hnotin Hnd'].
  unfold set_all. simpl.
  fold (set_all r1 (set k a ps)).
  fold (set_all r2 (set k b (set_all r1 (set k a ps)))).
  fold (set_all r2 (set k b ps)).
  rewrite set_set_all; [| exact Hnotin |].
  - rewrite set_set_same. apply IH; assumption.
  - rewrite get_set_same. discriminate.
Qed.

(** X3: the last save wins.  Saving settings over an address that an
    earlier save wrote gives the address that saving them at once gives;
    in particular a repeated save changes nothing. *)
Theorem X3_last_save_wins (s1 s2 : Settings) (url : SearchParams.t) :
  saveSettings s2 (saveSettings s1 url) = saveSettings s2 url.
Proof.
  rewrite !saveSettings_set_all. apply set_all_twice.
  - rewrite !saved_texts_keys. reflexivity.
  - rewrite saved_texts_keys. exact saved_keys_NoDup.
Qed.

End Saving.

(** ** Defaults at startup *)

Lemma string_or_default_nonempty (a : option string) (d : string) :
  is_empty d = false -> is_empty (string_or a d) = false.
Proof.
  intros Hd. unfold string_or. destruct a as [v|]; [|exact Hd].
  destruct (is_empty v) eqn:Hv; [exact Hd | exact Hv].
Qed.

(** X4: the script's top level never leaves [name], [fontFamily],
    [fontColor] or [fontSize] empty: a missing or empty parameter is
    replaced by its default. *)
Theorem X4_startup_fields_not_empty (url : SearchParams.t) (s : Settings) :
  loadSettings url = Started s ->
  is_empty (name s) = false /\ is_empty (fontFamily s) = false
  /\ is_empty (fontColor s) = false /\ is_empty (fontSize s) = false.
Proof.
  unfold loadSettings.
  destruct (loadObjectParam url "coordinates") as [v|]; [|discriminate].
  destruct (json_or v (pair_json default_coordinates))
    as [| | | |[|[| | x| | |] [|[| | y| | |] [|]]]|]; try discriminate.
  intros H. injection H as <-. cbn [name fontFamily fontColor fontSize].
  repeat split; apply string_or_default_nonempty; reflexivity.
Qed.

(** X4, witness: an address with an empty [name] and a font family. *)
Lemma X4_startup_fields_not_empty_witness :
  let s := {| name := "Tan Ah Kow"; fontLoadingCode := EmptyString;
              fontFamily := "serif"; isItalic := EmptyString;
              isBold := EmptyString; fontColor := "#000000";
              fontSize := "14"; coordinates := default_coordinates |} in
  loadSettings [("name", EmptyString); ("fontFamily", "serif")] = Started s
  /\ is_empty (name s) = false /\ is_empty (fontFamily s) = false
  /\ is_empty (fontColor s) = false /\ is_empty (fontSize s) = false.
Proof.
  intros s.
  assert (H : loadSettings [("name", EmptyString); ("fontFamily", "serif")]
              = Started s) by reflexivity.
  split; [exact H|].
  exact (X4_startup_fields_not_empty _ s H).
Defined.

(** X5: a [coordinates] parameter that is missing, empty, or JSON text
    of a falsy value does not stop the script: it starts at the default
    position, one half each way. *)
Theorem X5_no_position_gives_default (url : SearchParams.t) :
  no_position url ->
  exists s, loadSettings url = Started s
            /\ coordinates s = default_coordinates.
Proof.
  unfold no_position, loadSettings, loadObjectParam.
  destruct (SearchParams.get "coordinates" url) as [v|].
  - intros [He|(j & Hp & Ht)].
    + rewrite He. eexists. split; reflexivity.
    + destruct (is_empty v); [eexists; split; reflexivity|].
      rewrite Hp. unfold json_or. rewrite Ht.
      eexists. split; reflexivity.
  - intros _. eexists. split; reflexivity.
Qed.

(** X5, witness: the address says [coordinates=null]. *)
Lemma X5_no_position_gives_default_witness :
  JSON.parse "null" = Normal JNull
  /\ exists s, loadSettings [("coordinates", "null")] = Started s
               /\ coordinates s = default_coordinates.
Proof.
  split; [reflexivity|].
  apply (X5_no_position_gives_default [("coordinates", "null")]).
  right. exists JNull. split; reflexivity.
Defined.

(** ** The list of font faces *)

Section FontFaces.
Import Lodash.

Lemma units_ltb_asym (a b : list N) :
  units_ltb a b = true -> units_ltb b a = false.
Proof.
  revert b. induction a as [|x a IH]; intros [|y b]; simpl; try discriminate;
    try reflexivity.
  intros H. apply orb_prop in H.
  destruct (N.ltb_spec y x) as [Hyx|Hyx]; simpl.
  - destruct H as [H|H].
    + apply N.ltb_lt in H. lia.
    + apply andb_prop in H as [H _]. apply N.eqb_eq in H. lia.
  - destruct (N.eqb_spec y x) as [->|Hne]; simpl; [|reflexivity].
    destruct H as [H|H].
    + apply N.ltb_lt in H. lia.
    + apply andb_prop in H as [_ H]. exact (IH b H).
Qed.

Lemma ltb_asym (x y : string) : ltb x y = true -> ltb y x = false.
Proof. apply units_ltb_asym. Qed.

Lemma uniq_elem (x : string) (l : list string) : x ∈ uniq l <-> x ∈ l.
Proof.
  induction l as [|a l IH]; simpl; [reflexivity|].
  rewrite !elem_of_cons, <- IH.
  rewrite (list_elem_of_In (List.filter _ _)), filter_In, <- list_elem_of_In.
  destruct (String.eqb a x) eqn:Ha.
  - apply String.eqb_eq in Ha. subst a. simpl. intuition discriminate.
  - apply String.eqb_neq in Ha. simpl. intuition congruence.
Qed.

Lemma uniq_NoDup (l : list string) : NoDup (uniq l).
Proof.
  induction l as [|a l IH]; simpl; [apply NoDup_nil; exact I|].
  apply NoDup_cons. split.
  - rewrite list_elem_of_In, filter_In. intros [_ H].
    rewrite String.eqb_refl in H. discriminate.
  - apply NoDup_ListNoDup. apply List.NoDup_filter.
    apply NoDup_ListNoDup. exact IH.
Qed.

Lemma insert_sorted_perm (x : string) (l : list string) :
  insert_sorted x l ≡ₚ x :: l.
Proof.
  induction l as [|y r IH]; simpl; [reflexivity|].
  destruct (ltb x y); [reflexivity|].
  rewrite IH. apply Permutation_swap.
Qed.

Lemma fold_insert_perm (l : list string) :
  forall acc, fold_left (fun a x => insert_sorted x a) l acc ≡ₚ l ++ acc.
Proof.
  induction l as [|x l IH]; intros acc; simpl; [reflexivity|].
  rewrite IH, insert_sorted_perm. symmetry. apply Permutation_middle.
Qed.

Lemma sortBy_perm (l : list string) : sortBy l ≡ₚ l.
Proof.
  unfold sortBy. rewrite fold_insert_perm, app_nil_r. reflexivity.
Qed.

Lemma insert_sorted_head (x : string) (l : list string) :
  match insert_sorted x l with
  | h :: _ => h = x \/ exists r, l = h :: r
  | [] => False
  end.
Proof.
  destruct l as [|y r]; simpl; [left; reflexivity|].
  destruct (ltb x y); [left; reflexivity|].
  right. exists r. reflexivity.
Qed.

Lemma insert_sorted_ascending (x : string) (l : list string) :
  ascending l = true -> ascending (insert_sorted x l) = true.
Proof.
  induction l as [|y r IH]; intros Hl; [reflexivity|].
  cbn [insert_sorted].
  destruct (ltb x y) eqn:Hlt.
  - change (ascending (x :: y :: r))
      with (negb (ltb y x) && ascending (y :: r)).
    rewrite (ltb_asym x y Hlt), Hl. reflexivity.
  - assert (Hr : ascending r = true).
    { destruct r as [|z r]; [reflexivity|].
      change (ascending (y :: z :: r))
        with (negb (ltb z y) && ascending (z :: r)) in Hl.
      apply andb_prop in Hl. tauto. }
    specialize (IH Hr).
    pose proof (insert_sorted_head x r) as Hh.
    destruct (insert_sorted x r) as [|h t] eqn:Hi; [destruct Hh|].
    change (ascending (y :: h :: t))
      with (negb (ltb h y) && ascending (h :: t)).
    rewrite IH.
    destruct Hh as [->|(r' & ->)].
    + rewrite Hlt. reflexivity.
    + change (ascending (y :: h :: r'))
        with (negb (ltb h y) && ascending (h :: r')) in Hl.
      apply andb_prop in Hl as [Hyh _].
      rewrite Hyh. reflexivity.
Qed.

Lemma fold_insert_ascending (l : list string) :
  forall acc,
    ascending acc = true ->
    ascending (fold_left (fun a x => insert_sorted x a) l acc) = true.
Proof.
  induction l as [|x l IH]; intros acc Hacc; [exact Hacc|].
  simpl. apply IH. apply insert_sorted_ascending. exact Hacc.
Qed.

(** A family name outside the Basic Multilingual Plane is a pair of
    surrogates, which compare below the code units from U+E000 on: the
    smiling face U+1F600 comes before the fullwidth tilde U+FF5E. *)
Lemma surrogates_sort_first :
  sortBy [String "239" (String "189" (String "158" "Wide"));
          String "240" (String "159" (String "152" (String "128" "Smile")));
          "Plain"]
  = ["Plain";
     String "240" (String "159" (String "152" (String "128" "Smile")));
     String "239" (String "189" (String "158" "Wide"))].
Proof. vm_compute. reflexivity. Qed.

(** X6: when a polling loop ends, the faces offered for selection are
    the families of the loaded fonts, each of them once, in ascending order
    of their UTF-16 code units. *)
Theorem X6_font_faces_sorted_once (families : list string) (st : App) :
  let faces := availableFontFaces (syncFonts families st) in
  ascending faces = true
  /\ NoDup faces
  /\ forall f, f ∈ faces <-> f ∈ families.
Proof.
  cbn [syncFonts availableFontFaces]. repeat split.
  - unfold sortBy. apply fold_insert_ascending. reflexivity.
  - rewrite sortBy_perm. apply uniq_NoDup.
  - rewrite sortBy_perm. apply uniq_elem.
  - rewrite sortBy_perm. apply uniq_elem.
Qed.

End FontFaces.

(** ** The polling loop, pass by pass *)

Section PollingPasses.

Variable size : nat -> N.

Lemma loop_state_start : loop_state size 0 (-1) LIVES.
Proof.
  unfold loop_state, LIVES. split; [lia|]. split; [reflexivity|].
  split; [intros m Hm; lia|]. left. split; reflexivity.
Qed.

(** With lives left the loop cannot stop at this pass. *)
Lemma loop_state_not_steady (i : nat) (last lives : Z) :
  loop_state size i last lives -> 0 < lives -> ~ steady_before size i.
Proof.
  unfold LIVES. intros (Hl & _ & _ & [[-> _]|(j & Hi & Hc & _)]) Hpos [H6 Hs].
  - lia.
  - unfold LIVES in *. destruct j as [|j].
    + lia.
    + simpl in Hc. apply Hc.
      replace j with (S j - 1)%nat at 2 by lia. apply Hs. lia.
Qed.

(** Out of lives, the six reads before this pass found the same size. *)
Lemma loop_state_steady (i : nat) (last : Z) :
  loop_state size i last 0 -> steady_before size i.
Proof.
  unfold LIVES. intros (_ & _ & _ & [[_ H]|(j & Hi & _ & Hs)]).
  - discriminate.
  - unfold LIVES in *. split; [lia|]. intros t Ht. apply Hs. lia.
Qed.

(** One pass keeps the variables in step. *)
Lemma loop_state_pass (i : nat) (last lives : Z) :
  loop_state size i last lives -> 0 < lives ->
  if Z.of_N (size i) =? last
  then loop_state size (S i) last (lives - 1)
  else loop_state size (S i) (Z.of_N (size i)) LIVES.
Proof.
  intros Hst Hpos.
  pose proof (loop_state_not_steady i last lives Hst Hpos) as Hns.
  destruct Hst as (Hl & Hlast & Hmin & Hj).
  assert (Hmin' : forall m, (m < S i)%nat -> ~ steady_before size m).
  { intros m Hm. destruct (decide (m = i)) as [->|Hne]; [exact Hns|].
    apply Hmin. lia. }
  destruct (Z.of_N (size i) =? last) eqn:He.
  - apply Z.eqb_eq in He.
    destruct i as [|k]; [lia|].
    assert (Hsame : size (S k) = size k) by (apply N2Z.inj; lia).
    split; [lia|]. split; [lia|]. split; [exact Hmin'|].
    right. destruct Hj as [[Hi _]|(j & Hi & Hc & Hs)]; [discriminate|].
    exists j. split; [lia|]. split; [exact Hc|].
    intros t Ht. destruct (decide (t = S k)) as [->|Hne].
    + replace (S k - 1)%nat with k by lia. exact Hsame.
    + apply Hs. lia.
  - apply Z.eqb_neq in He.
    split; [unfold LIVES; lia|]. split; [reflexivity|].
    split; [exact Hmin'|].
    right. exists i. split; [lia|]. split.
    + destruct i as [|k]; [exact I|]. simpl. intros H. apply He.
      rewrite Hlast, H. reflexivity.
    + intros t Ht. lia.
Qed.

Lemma poll_sound (fuel : nat) :
  forall i last lives n,
    loop_state size i last lives ->
    poll fuel size i last lives = Some n ->
    steady_before size n /\ forall m, (m < n)%nat -> ~ steady_before size m.
Proof.
  induction fuel as [|f IH]; intros i last lives n Hst.
  - simpl. destruct (0 <? lives) eqn:Hl; [discriminate|].
    intros H. injection H as <-.
    apply Z.ltb_ge in Hl.
    assert (lives = 0) by (destruct Hst as (? & _); lia). subst lives.
    split; [exact (loop_state_steady i last Hst)|].
    destruct Hst as (_ & _ & Hmin & _). exact Hmin.
  - simpl. destruct (0 <? lives) eqn:Hl.
    + apply Z.ltb_lt in Hl.
      pose proof (loop_state_pass i last lives Hst Hl) as Hnext.
      destruct (Z.of_N (size i) =? last); apply IH; exact Hnext.
    + intros H. injection H as <-.
      apply Z.ltb_ge in Hl.
      assert (lives = 0) by (destruct Hst as (? & _); lia). subst lives.
      split; [exact (loop_state_steady i last Hst)|].
      destruct Hst as (_ & _ & Hmin & _). exact Hmin.
Qed.

Lemma poll_ends (fuel : nat) :
  forall i last lives n,
    loop_state size i last lives ->
    steady_before size n -> (i <= n)%nat -> (n - i <= fuel)%nat ->
    exists n', poll fuel size i last lives = Some n'.
Proof.
  induction fuel as [|f IH]; intros i last lives n Hst Hn Hi Hf.
  - simpl. destruct (0 <? lives) eqn:Hl; [|eexists; reflexivity].
    apply Z.ltb_lt in Hl. exfalso.
    assert (i = n) by lia. subst i.
    exact (loop_state_not_steady n last lives Hst Hl Hn).
  - simpl. destruct (0 <? lives) eqn:Hl; [|eexists; reflexivity].
    apply Z.ltb_lt in Hl.
    assert (Hlt : (i < n)%nat).
    { destruct (decide (i = n)) as [->|Hne]; [|lia].
      exfalso. exact (loop_state_not_steady n last lives Hst Hl Hn). }
    pose proof (loop_state_pass i last lives Hst Hl) as Hnext.
    destruct (Z.of_N (size i) =? last);
      apply (IH _ _ _ n Hnext Hn); lia.
Qed.

(** X7: when the polling loop stops after [n] passes, the six reads
    before, the passes [n - 6] to [n - 1], found the same size, and no
    earlier pass had six such reads behind it: the loop never stops
    sooner, and never makes fewer than six passes. *)
Theorem X7_polling_stops_at_first_steady_pass (fuel n : nat) :
  polling_passes fuel size = Some n ->
  steady_before size n
  /\ (forall m, (m < n)%nat -> ~ steady_before size m)
  /\ (6 <= n)%nat.
Proof.
  intros H.
  destruct (poll_sound fuel 0 (-1) LIVES n loop_state_start H) as [Hs Hm].
  split; [exact Hs|]. split; [exact Hm|]. destruct Hs as [H6 _]. exact H6.
Qed.

(** X8: the first pass with six equal reads behind it is where the loop
    stops, whatever the sizes read later. *)
Theorem X8_polling_reaches_first_steady_pass (n fuel : nat) :
  steady_before size n ->
  (forall m, (m < n)%nat -> ~ steady_before size m) ->
  (n <= fuel)%nat ->
  polling_passes fuel size = Some n.
Proof.
  intros Hn Hmin Hf. unfold polling_passes.
  destruct (poll_ends fuel 0 (-1) LIVES n loop_state_start Hn) as [n' Hp];
    [lia | lia |].
  rewrite Hp. f_equal.
  destruct (poll_sound fuel 0 (-1) LIVES n' loop_state_start Hp) as [Hs' Hm'].
  destruct (lt_eq_lt_dec n n') as [[Hlt|Heq]|Hgt].
  - exfalso. exact (Hm' n Hlt Hn).
  - symmetry. exact Heq.
  - exfalso. exact (Hmin n' Hgt Hs').
Qed.

(** X9: while the size keeps changing, so that no pass has six equal
    reads behind it, the loop does not stop. *)
Theorem X9_polling_goes_on_while_sizes_change :
  (forall n, ~ steady_before size n) ->
  forall fuel, polling_passes fuel size = None.
Proof.
  intros Hnever fuel.
  destruct (polling_passes fuel size) as [n|] eqn:Hp; [|reflexivity].
  exfalso. apply (Hnever n).
  exact (proj1 (poll_sound fuel 0 (-1) LIVES n loop_state_start Hp)).
Qed.

End PollingPasses.

(** X7, witness: four fonts arrive one per pass, then the set stays; the
    loop stops after ten passes. *)
Lemma X7_polling_stops_at_first_steady_pass_witness :
  let size := fun i : nat => if (i <? 4)%nat then N.of_nat i else 9%N in
  polling_passes 20 size = Some 10%nat
  /\ steady_before size 10
  /\ (forall m, (m < 10)%nat -> ~ steady_before size m)
  /\ (6 <= 10)%nat.
Proof.
  intros size.
  assert (H : polling_passes 20 size = Some 10%nat) by reflexivity.
  split; [exact H|].
  exact (X7_polling_stops_at_first_steady_pass size 20 10 H).
Defined.

(** X8, witness: the size never changes; the loop makes its six passes. *)
Lemma X8_polling_reaches_first_steady_pass_witness :
  polling_passes 6 (fun _ => 3%N) = Some 6%nat.
Proof.
  apply X8_polling_reaches_first_steady_pass.
  - split; [lia|]. intros; reflexivity.
  - intros m Hm [H6 _]. lia.
  - lia.
Defined.

(** X9, witness: a font arrives at every pass; a thousand passes do not
    end the loop. *)
Lemma X9_polling_goes_on_while_sizes_change_witness :
  polling_passes 1000 (fun i => N.of_nat i) = None.
Proof.
  apply (X9_polling_goes_on_while_sizes_change (fun i => N.of_nat i)).
  intros n [H6 Hs]. specialize (Hs (n - 1)%nat). lia.
Defined.

(** ** The sync controller, event by event *)

Lemma advance_rendering_only (s : Settings) (now : Z) (st : Sync.state) :
  rendering_only s st -> rendering_only s (Sync.advance now st).
Proof.
  intros (Hc & Hp & Hd). unfold Sync.advance.
  destruct (Sync.render_due st) as [t|].
  - destruct (t <=? now); simpl; rewrite Hp.
    + split; [exact Hc|]. split; [reflexivity|].
      simpl. apply Forall_app. split; [exact Hd|].
      apply Forall_cons. split; [exact Hc | apply Forall_nil; exact I].
    + split; [exact Hc|]. split; [exact Hp | exact Hd].
  - rewrite Hp. split; [exact Hc|]. split; [exact Hp | exact Hd].
Qed.

Lemma play_rendering_only (s : Settings) (ts : list Z) :
  forall st, rendering_only s st ->
             rendering_only s (Sync.play st (loadingdone_at ts)).
Proof.
  induction ts as [|t ts IH]; intros st Hst; [exact Hst|].
  simpl. apply IH. unfold Sync.occur.
  destruct (advance_rendering_only s t st Hst) as (Hc & Hp & Hd).
  split; [exact Hc|]. split; [exact Hp | exact Hd].
Qed.

Lemma settle_rendering_only (s : Settings) (st : Sync.state) :
  rendering_only s st -> rendering_only s (Sync.settle st).
Proof.
  intros (Hc & Hp & Hd). unfold Sync.settle.
  destruct (Sync.render_due st) as [t|]; simpl; rewrite Hp.
  - split; [exact Hc|]. split; [reflexivity|].
    simpl. apply Forall_app. split; [exact Hd|].
    apply Forall_cons. split; [exact Hc | apply Forall_nil; exact I].
  - split; [exact Hc|]. split; [exact Hp | exact Hd].
Qed.

(** Settles the comparisons of times in a goal, from the hypotheses. *)
Ltac settle_times :=
  unfold Sync.advance, Sync.WAIT in *;
  cbn [Sync.current Sync.render_due Sync.persist_due Sync.performed app];
  repeat (match goal with
          | |- context [?a <=? ?b] =>
              first [ replace (a <=? b) with true
                        by (symmetry; apply Z.leb_le; lia)
                    | replace (a <=? b) with false
                        by (symmetry; apply Z.leb_gt; lia) ]
          end;
          cbn [Sync.current Sync.render_due Sync.persist_due
               Sync.performed app]).

(** The first change finds no timer and starts both. *)
Lemma occur_idle (s0 s : Settings) (t : Z) :
  Sync.occur (Sync.idle s0) (t, Sync.Changed s) = waiting t s [].
Proof. reflexivity. Qed.

(** A [loadingdone] while both timers wait restarts the render timer. *)
Lemma loadingdone_while_waiting (t t' : Z) (s : Settings)
      (done : list Sync.action) :
  t' < t + Sync.WAIT ->
  Sync.occur (waiting t s done) (t', Sync.LoadingDone)
  = {| Sync.current := s; Sync.render_due := Some (t' + Sync.WAIT);
       Sync.persist_due := Some (t + Sync.WAIT); Sync.performed := done |}.
Proof.
  intros H. unfold Sync.occur, waiting. settle_times. reflexivity.
Qed.

(** An edit of the font loading code while both timers wait leaves them
    as they are. *)
Lemma edit_while_waiting (t t' : Z) (s s' : Settings)
      (done : list Sync.action) :
  t' < t + Sync.WAIT ->
  Sync.occur (waiting t s done) (t', Sync.Edited s') = waiting t s' done.
Proof.
  intros H. unfold Sync.occur, waiting. settle_times. reflexivity.
Qed.

(** A change after both timers were due finds their actions done. *)
Lemma change_after_waiting (t t' : Z) (s s' : Settings)
      (done : list Sync.action) :
  t + Sync.WAIT <= t' ->
  Sync.occur (waiting t s done) (t', Sync.Changed s')
  = waiting t' s' (done ++ [Sync.Render (t + Sync.WAIT) s;
                            Sync.Persist (t + Sync.WAIT) s])%list.
Proof.
  intros H. unfold Sync.occur, waiting. settle_times.
  rewrite <- app_assoc. reflexivity.
Qed.

Lemma settle_waiting (t : Z) (s : Settings) (done : list Sync.action) :
  Sync.performed (Sync.settle (waiting t s done))
  = (done ++ [Sync.Render (t + Sync.WAIT) s;
              Sync.Persist (t + Sync.WAIT) s])%list.
Proof.
  unfold Sync.settle, waiting. simpl. rewrite <- app_assoc. reflexivity.
Qed.

(** X10: the [loadingdone] listener only draws.  Whatever the times at
    which fonts finish loading, everything the sync controller then does
    is a render of the settings as they are; the address is never
    written. *)
Theorem X10_loadingdone_never_persists (s : Settings) (ts : list Z) :
  Forall (is_render_of s)
         (Sync.performed
            (Sync.settle (Sync.play (Sync.idle s) (loadingdone_at ts)))).
Proof.
  apply settle_rendering_only, play_rendering_only.
  split; [reflexivity|]. split; [reflexivity|]. apply Forall_nil. exact I.
Qed.

(** X11: a [loadingdone] in the quiet period after a change puts off
    the render and not the persist: the address is written [WAIT] after
    the change, the card is drawn [WAIT] after the [loadingdone]. *)
Theorem X11_loadingdone_postpones_render_only
        (s0 s : Settings) (t0 t1 : Z) :
  t0 < t1 < t0 + Sync.WAIT ->
  Sync.performed
    (Sync.settle
       (Sync.advance (t0 + Sync.WAIT)
          (Sync.play (Sync.idle s0)
                     [(t0, Sync.Changed s); (t1, Sync.LoadingDone)])))
  = [Sync.Persist (t0 + Sync.WAIT) s; Sync.Render (t1 + Sync.WAIT) s].
Proof.
  intros Ht. unfold Sync.play. cbn [fold_left].
  rewrite occur_idle, loadingdone_while_waiting by lia.
  unfold Sync.settle. settle_times. reflexivity.
Qed.

(** X11, witness: a change at 0 and a [loadingdone] at 600. *)
Lemma X11_loadingdone_postpones_render_only_witness :
  Sync.performed
    (Sync.settle
       (Sync.advance (0 + Sync.WAIT)
          (Sync.play (Sync.idle Sample.jane)
                     [(0, Sync.Changed (with_name "Tan" Sample.jane));
                      (600, Sync.LoadingDone)])))
  = [Sync.Persist (0 + Sync.WAIT) (with_name "Tan" Sample.jane);
     Sync.Render (600 + Sync.WAIT) (with_name "Tan" Sample.jane)].
Proof.
  apply X11_loadingdone_postpones_render_only. unfold Sync.WAIT. lia.
Defined.

(** X12: an edit of the font loading code in the quiet period after a
    change restarts no timer, and both actions, [WAIT] after the change,
    find the settings with the edit in them. *)
Theorem X12_edit_rides_on_pending_actions
        (s0 s1 s2 : Settings) (t0 t1 : Z) :
  t0 <= t1 < t0 + Sync.WAIT ->
  Sync.performed
    (Sync.settle
       (Sync.play (Sync.idle s0)
                  [(t0, Sync.Changed s1); (t1, Sync.Edited s2)]))
  = [Sync.Render (t0 + Sync.WAIT) s2; Sync.Persist (t0 + Sync.WAIT) s2].
Proof.
  intros Ht. unfold Sync.play. cbn [fold_left].
  rewrite occur_idle, edit_while_waiting by lia.
  apply settle_waiting.
Qed.

(** X12, witness: a change of the name at 0, the font loading code pasted
    at 300. *)
Lemma X12_edit_rides_on_pending_actions_witness :
  Sync.performed
    (Sync.settle
       (Sync.play (Sync.idle Sample.jane)
          [(0, Sync.Changed (with_name "Tan" Sample.jane));
           (300, Sync.Edited (with_fontLoadingCode Sample.href_only
                                (with_name "Tan" Sample.jane)))]))
  = [Sync.Render (0 + Sync.WAIT)
       (with_fontLoadingCode Sample.href_only (with_name "Tan" Sample.jane));
     Sync.Persist (0 + Sync.WAIT)
       (with_fontLoadingCode Sample.href_only (with_name "Tan" Sample.jane))].
Proof.
  apply X12_edit_rides_on_pending_actions. unfold Sync.WAIT. lia.
Defined.

(** X13: two changes more than a quiet period apart are not coalesced:
    each is followed by its own write of the address, with the settings
    of that change, and by its own start of the renderer, a quiet period
    after the change. *)
Theorem X13_changes_apart_act_twice
        (s0 s1 s2 : Settings) (t0 t1 : Z) :
  t0 + Sync.WAIT < t1 ->
  let done :=
    Sync.performed
      (Sync.settle
         (Sync.play (Sync.idle s0)
                    [(t0, Sync.Changed s1); (t1, Sync.Changed s2)])) in
  persists done = [(t0 + Sync.WAIT, s1); (t1 + Sync.WAIT, s2)]
  /\ render_times done = [t0 + Sync.WAIT; t1 + Sync.WAIT].
Proof.
  intros Ht. unfold Sync.play. cbn [fold_left].
  rewrite occur_idle, change_after_waiting by lia.
  rewrite settle_waiting. split; reflexivity.
Qed.

(** X13, witness: two changes of the name, a second and a half apart. *)
Lemma X13_changes_apart_act_twice_witness :
  let done :=
    Sync.performed
      (Sync.settle
         (Sync.play (Sync.idle Sample.jane)
            [(0, Sync.Changed (with_name "T" Sample.jane));
             (1500, Sync.Changed (with_name "Tan" Sample.jane))])) in
  persists done = [(0 + Sync.WAIT, with_name "T" Sample.jane);
                   (1500 + Sync.WAIT, with_name "Tan" Sample.jane)]
  /\ render_times done = [0 + Sync.WAIT; 1500 + Sync.WAIT].
Proof.
  apply X13_changes_apart_act_twice. unfold Sync.WAIT. lia.
Defined.

(** ** Startup and the font loading code *)

(** X14: an address with no font loading code, or an empty one, starts
    no font loading: the script's top level leaves nothing requested, no
    link in the head, no error and no polling loop. *)
Theorem X14_no_font_code_no_font_loading (url : SearchParams.t) (s : Settings) :
  loadSettings url = Started s ->
  loadStringParam url "fontLoadingCode" = None ->
  mount s = unmounted s.
Proof.
  unfold loadSettings. intros H Hcode. rewrite Hcode in H.
  destruct (loadObjectParam url "coordinates") as [v|]; [|discriminate].
  destruct (json_or v (pair_json default_coordinates))
    as [| | | |[|[| | x| | |] [|[| | y| | |] [|]]]|]; try discriminate.
  injection H as <-. reflexivity.
Qed.

(** X14, witness: an address saved from settings without font loading
    code. *)
Lemma X14_no_font_code_no_font_loading_witness :
  mount (with_name "Tan" Sample.jane) = unmounted (with_name "Tan" Sample.jane).
Proof.
  apply (X14_no_font_code_no_font_loading
           (saveSettings (with_name "Tan" Sample.jane) []));
    vm_compute; reflexivity.
Defined.

Section Links.
Import Text.

Lemma well_formed_link_mono (st st' : App) (l : Link) :
  (forall u, loadedFonts st !! u = Some true ->
             loadedFonts st' !! u = Some true) ->
  well_formed_link st l -> well_formed_link st' l.
Proof.
  intros Hm (Hr & He & Hl). split; [exact Hr|]. split; [exact He|].
  apply Hm. exact Hl.
Qed.

Lemma handleFontLoadingCode_well_formed (st : App) :
  Forall (well_formed_link st) (head_links st) ->
  Forall (well_formed_link (handleFontLoadingCode st))
         (head_links (handleFontLoadingCode st)).
Proof.
  intros H. unfold handleFontLoadingCode.
  destruct (is_empty _) eqn:He; [exact H|].
  destruct (bool_decide _) eqn:Hd; [exact H|].
  apply bool_decide_eq_false in Hd.
  set (u := string_or _ _) in *.
  cbn [head_links]. apply Forall_app. split.
  - eapply Forall_impl; [exact H|]. intros l. apply well_formed_link_mono.
    intros v Hv. cbn [loadedFonts].
    destruct (decide (u = v)) as [->|Hne].
    + apply lookup_insert_eq.
    + rewrite lookup_insert_ne by exact Hne. exact Hv.
  - apply Forall_cons. split; [|apply Forall_nil; exact I].
    split; [reflexivity|]. split; [exact He|].
    cbn [loadedFonts href]. apply lookup_insert_eq.
Qed.

Lemma step_well_formed (st : App) (e : event) :
  Forall (well_formed_link st) (head_links st) ->
  Forall (well_formed_link (step st e)) (head_links (step st e)).
Proof.
  intros H. destruct e; simpl; try exact H.
  - apply handleFontLoadingCode_well_formed. exact H.
  - destruct (polling st); exact H.
Qed.

Lemma run_well_formed (es : list event) :
  forall st,
    Forall (well_formed_link st) (head_links st) ->
    Forall (well_formed_link (run st es)) (head_links (run st es)).
Proof.
  induction es as [|e es IH]; intros st H; [exact H|].
  simpl. apply IH. apply step_well_formed. exact H.
Qed.

(** X15: every link the script ever appends to the head is a stylesheet
    link whose address is not empty and is kept among the requested
    ones, in every state the component reaches. *)
Theorem X15_head_links_well_formed (s : Settings) (es : list event) :
  let st := run (mount s) es in
  Forall (well_formed_link st) (head_links st).
Proof.
  apply run_well_formed. unfold mount.
  destruct (is_empty (fontLoadingCode s)).
  - apply Forall_nil. exact I.
  - apply handleFontLoadingCode_well_formed. apply Forall_nil. exact I.
Qed.

Lemma match_here_no_lt (c : ascii) (r : string) :
  Ascii.eqb c "<" = false -> Pattern.match_here (String c r) = None.
Proof.
  intros Hc. unfold Pattern.match_here.
  destruct (strip_prefix Pattern.opening (String c r)) as [rest|] eqn:E;
    [|reflexivity].
  apply strip_prefix_spec in E. injection E as -> _. discriminate.
Qed.

Lemma match_link_href_skip (before s : string) :
  has_char "<" before = false ->
  Pattern.match_link_href (before ++ s) = Pattern.match_link_href s.
Proof.
  induction before as [|c r IH]; intros H; [reflexivity|].
  simpl in H. apply orb_false_elim in H as [Hc Hr].
  change ((String c r) ++ s) with (String c (r ++ s)).
  cbn [Pattern.match_link_href].
  rewrite (match_here_no_lt c _ Hc). apply IH. exact Hr.
Qed.

Lemma at_line_terminator_prefix (c : ascii) (u x : string) :
  Pattern.at_line_terminator (String c u) = false ->
  Pattern.at_line_terminator (String c (u ++ String dquote x)) = false.
Proof.
  unfold Pattern.at_line_terminator.
  intros H. apply orb_false_elim in H as [H1 H2]. rewrite H1. simpl.
  destruct u as [|a [|b u]]; simpl in *.
  - destruct c as [[|] [|] [|] [|] [|] [|] [|] [|]]; reflexivity.
  - destruct c as [[|] [|] [|] [|] [|] [|] [|] [|]]; try reflexivity.
    destruct a as [[|] [|] [|] [|] [|] [|] [|] [|]]; reflexivity.
  - exact H2.
Qed.

Lemma line_single (u x : string) :
  Pattern.line u = u ->
  Pattern.line (u ++ String dquote x) = u ++ String dquote (Pattern.line x).
Proof.
  induction u as [|c u IH]; intros H.
  - simpl. reflexivity.
  - change ((String c u) ++ String dquote x)
      with (String c (u ++ String dquote x)).
    cbn [Pattern.line] in *.
    destruct (Pattern.at_line_terminator (String c u)) eqn:Ht;
      [discriminate|].
    rewrite (at_line_terminator_prefix c u x Ht).
    injection H as H. rewrite (IH H). reflexivity.
Qed.

Lemma before_last_quote_app (a b : string) :
  Pattern.before_last_quote b = None ->
  Pattern.before_last_quote (a ++ String dquote b) = Some a.
Proof.
  intros Hb. induction a as [|c a IH]; simpl.
  - rewrite Hb. reflexivity.
  - rewrite IH. reflexivity.
Qed.

Lemma match_link_href_found (before url tail : string) :
  has_char "<" before = false ->
  single_line url = true ->
  ~ has_quote (Pattern.line tail) ->
  Pattern.match_link_href
    (before ++ Pattern.opening ++ url ++ String dquote tail) = Some url.
Proof.
  intros Hb Hu Ht.
  rewrite match_link_href_skip by exact Hb.
  apply String.eqb_eq in Hu.
  assert (Hm : Pattern.match_here
                 (Pattern.opening ++ url ++ String dquote tail) = Some url).
  { unfold Pattern.match_here.
    rewrite (proj2 (strip_prefix_spec Pattern.opening _ _) eq_refl).
    rewrite (line_single url tail Hu).
    apply before_last_quote_app. apply before_last_quote_none. exact Ht. }
  destruct (Pattern.opening ++ url ++ String dquote tail) eqn:E;
    cbn [Pattern.match_link_href]; rewrite Hm; reflexivity.
Qed.

(** X16: a link tag whose quoted [href] value comes right after the tag
    name and is the last quoted text on its line, with no other tag
    before it, has that value requested: one stylesheet link to it is
    appended, a polling loop starts, and no error is set.  The value
    runs to the last quotation mark of the line. *)
Theorem X16_link_href_is_requested
        (st : App) (before url tail : string) :
  fontLoadingCode (settings st)
  = before ++ Pattern.opening ++ url ++ String dquote tail ->
  has_char "<" before = false ->
  single_line url = true ->
  ~ has_quote (Pattern.line tail) ->
  is_empty url = false ->
  loadedFonts st !! url = None ->
  handleFontLoadingCode st = requested url st.
Proof.
  intros Hcode Hb Hu Ht He Hl. unfold handleFontLoadingCode.
  rewrite Hcode, (match_link_href_found before url tail Hb Hu Ht).
  rewrite (string_or_nonempty url _ He), He.
  rewrite bool_decide_eq_false_2; [reflexivity|].
  rewrite Hl. intros [x Hx]. discriminate.
Qed.

End Links.

(** X16, witness: a link tag with its [href] alone. *)
Lemma X16_link_href_is_requested_witness :
  handleFontLoadingCode (Sample.fresh Sample.href_only)
  = requested "https://fonts.example/css?family=Lobster"
              (Sample.fresh Sample.href_only).
Proof.
  apply (X16_link_href_is_requested
           (Sample.fresh Sample.href_only) EmptyString
           "https://fonts.example/css?family=Lobster" ">").
  - reflexivity.
  - reflexivity.
  - reflexivity.
  - intros (a & b & H). destruct a as [|c [|d a]]; discriminate.
  - reflexivity.
  - reflexivity.
Defined.

(** X17: a saved address brings its font back.  When the font loading
    code of the saved settings yields an address for the pattern, the
    script's top level, started from the saved address, requests that
    address at once: one stylesheet link, no error. *)
Theorem X17_saved_font_is_requested_at_startup
        (s s' : Settings) (url : SearchParams.t) (u : string) :
  loadSettings (saveSettings s url) = Started s' ->
  Pattern.match_link_href (fontLoadingCode s) = Some u ->
  is_empty u = false ->
  mount s' = requested u (unmounted s').
Proof.
  intros Hload Hm He.
  destruct (saved_text_comes_back s s' url Hload)
    as (_ & Hcode & _).
  unfold mount. rewrite Hcode.
  destruct (fontLoadingCode s) as [|c r] eqn:Hc; [discriminate|].
  cbn [is_empty]. unfold handleFontLoadingCode. cbn [settings].
  rewrite Hcode, Hm. rewrite (string_or_nonempty u _ He), He.
  reflexivity.
Qed.

(** X17, witness: settings saved with a link tag as font loading code. *)
Lemma X17_saved_font_is_requested_at_startup_witness :
  let s := with_fontLoadingCode Sample.href_only Sample.jane in
  mount s = requested "https://fonts.example/css?family=Lobster" (unmounted s).
Proof.
  intros s.
  apply (X17_saved_font_is_requested_at_startup s s []);
    vm_compute; reflexivity.
Defined.

(** ** The font size as text *)

Section FontSizeText.
Import Text.

Lemma read_digits_all (d : string) :
  forall tail acc cnt,
    all_digits d = true -> ends_number tail = true ->
    read_digits (d ++ tail) acc cnt
    = (fst (fst (read_digits d acc cnt)),
       snd (fst (read_digits d acc cnt)), tail).
Proof.
  induction d as [|c d IH]; intros tail acc cnt Hd Ht.
  - simpl. destruct tail as [|c r]; [reflexivity|].
    simpl in Ht. simpl.
    destruct (is_digit c); [discriminate | reflexivity].
  - simpl in Hd. apply andb_prop in Hd as [Hc Hd].
    simpl. rewrite Hc. apply IH; assumption.
Qed.

Lemma read_digits_rest (d : string) :
  forall acc cnt,
    all_digits d = true ->
    snd (read_digits d acc cnt) = EmptyString.
Proof.
  induction d as [|c d IH]; intros acc cnt Hd; [reflexivity|].
  simpl in Hd. apply andb_prop in Hd as [Hc Hd].
  simpl. rewrite Hc. apply IH. exact Hd.
Qed.

Lemma parseFloat_suffix (c : ascii) (d tail : string) :
  is_digit c = true -> all_digits d = true -> ends_number tail = true ->
  parseFloat (String c d ++ tail) = parseFloat (String c d).
Proof.
  intros Hc Hd Ht.
  assert (Hall : all_digits (String c d) = true)
    by (simpl; rewrite Hc; exact Hd).
  unfold parseFloat.
  assert (Htrim : forall r, ParseFloat.trim_start (String c r) = String c r).
  { intros r. unfold is_digit in Hc.
    apply andb_prop in Hc as [H1 H2].
    apply N.leb_le in H1. apply N.leb_le in H2.
    assert (H9 : (13 <? code c)%N = true) by (apply N.ltb_lt; lia).
    assert (E1 : ParseFloat.is_space c = false).
    { unfold ParseFloat.is_space. apply orb_false_intro.
      - apply andb_false_intro2. apply N.leb_gt. lia.
      - apply N.eqb_neq. lia. }
    assert (E2 : forall b, ParseFloat.is_space2 c b = false).
    { intros b. unfold ParseFloat.is_space2.
      replace (code c =? 194)%N with false
        by (symmetry; apply N.eqb_neq; lia).
      reflexivity. }
    assert (E3 : forall b c0, ParseFloat.is_space3 c b c0 = false).
    { intros b c0. unfold ParseFloat.is_space3.
      replace (code c =? 225)%N with false
        by (symmetry; apply N.eqb_neq; lia).
      replace (code c =? 226)%N with false
        by (symmetry; apply N.eqb_neq; lia).
      replace (code c =? 227)%N with false
        by (symmetry; apply N.eqb_neq; lia).
      replace (code c =? 239)%N with false
        by (symmetry; apply N.eqb_neq; lia).
      reflexivity. }
    cbn [ParseFloat.trim_start]. rewrite E1.
    destruct r as [|b [|c0 r2]]; rewrite ?E2, ?E3; reflexivity. }
  assert (Hsign : forall r, ParseFloat.read_sign (String c r)
                            = (false, String c r)).
  { intros r. unfold ParseFloat.read_sign.
    assert (Ascii.eqb c "-" = false /\ Ascii.eqb c "+" = false) as [-> ->].
    { split; apply Ascii.eqb_neq; intros ->; discriminate. }
    reflexivity. }
  assert (Hinf : forall r, strip_prefix "Infinity" (String c r) = None).
  { intros r.
    destruct (strip_prefix "Infinity" (String c r)) as [x|] eqn:E;
      [|reflexivity].
    apply strip_prefix_spec in E. injection E as -> _. discriminate. }
  change (String c d ++ tail) with (String c (d ++ tail)).
  rewrite !Htrim, !Hsign, !Hinf.
  change (String c (d ++ tail)) with (String c d ++ tail).
  rewrite (read_digits_all (String c d) tail 0%N 0%nat Hall Ht).
  pose proof (read_digits_rest (String c d) 0%N 0%nat Hall) as Hrest.
  destruct (read_digits (String c d) 0%N 0%nat) as [[ip ni] s1].
  cbn [fst snd] in *. subst s1.
  assert (Hfrac : match tail with
                  | String "." r => read_digits r ip 0%nat
                  | _ => (ip, 0%nat, tail)
                  end = (ip, 0%nat, tail)).
  { destruct tail as [|a r]; [reflexivity|].
    simpl in Ht. apply negb_true_iff in Ht.
    apply orb_false_elim in Ht as [Ht _].
    apply orb_false_elim in Ht as [Ht _].
    apply orb_false_elim in Ht as [_ Hdot].
    apply Ascii.eqb_neq in Hdot.
    destruct a as [[|] [|] [|] [|] [|] [|] [|] [|]]; try reflexivity.
    congruence. }
  rewrite Hfrac.
  destruct (ni + 0)%nat; [reflexivity|].
  assert (Hexp : fst (ParseFloat.read_exponent tail) = 0).
  { destruct tail as [|a r]; [reflexivity|].
    simpl in Ht. apply negb_true_iff in Ht.
    apply orb_false_elim in Ht as [Ht HE].
    apply orb_false_elim in Ht as [_ He].
    unfold ParseFloat.read_exponent. rewrite He, HE. reflexivity. }
  destruct (ParseFloat.read_exponent tail) as [ex r].
  simpl in Hexp. subst ex. reflexivity.
Qed.

(** X18: a font size written as digits with something after them that
    cannot continue a number, a unit such as [px] or a blank, is drawn as
    the digits alone are: the renderer reads the leading number and
    drops the rest. *)
Theorem X18_font_size_suffix_is_dropped
        (c : ascii) (d tail : string) (sz : ImageSize) :
  is_digit c = true -> all_digits d = true -> ends_number tail = true ->
  effectiveSize (String c d ++ tail) sz = effectiveSize (String c d) sz.
Proof.
  intros Hc Hd Ht. unfold effectiveSize.
  rewrite (parseFloat_suffix c d tail Hc Hd Ht). reflexivity.
Qed.

End FontSizeText.

(** X18, witness: [30px] is drawn as [30]. *)
Lemma X18_font_size_suffix_is_dropped_witness :
  effectiveSize "30px" Sample.photo = effectiveSize "30" Sample.photo.
Proof.
  apply (X18_font_size_suffix_is_dropped "3" "0" "px"); reflexivity.
Defined.

(** ** What a saved address loads as *)

(** A position that is a string is saved as it is, without quotation
    marks, and the next startup takes it for JSON text. *)
Lemma string_position_is_saved_raw :
  exists r, loadRefs [("coordinates", Text.quoted "abc")] = Normal r
            /\ ref_coordinates r = JStr "abc"
            /\ SearchParams.get "coordinates" (saveRefs r []) = Some "abc"
            /\ loadRefs (saveRefs r []) = Throw.
Proof. eexists. repeat split; vm_compute; reflexivity. Qed.

(** X19: while the script holds a pair of numbers as its position, an
    address written by [saveSettings] never stops the next startup: it
    loads every text reference as it was saved, or as its default where
    it was empty, and the position as it was saved, but for a negative
    zero, which comes back as [0], and for an infinity or [NaN], which
    comes back as [null]. *)
Theorem X19_saved_address_loads (r : Refs) (url : SearchParams.t)
        (x y : number) :
  ref_coordinates r = pair_json (x, y) ->
  Num.is_double x = true -> Num.is_double y = true ->
  loadRefs (saveRefs r url)
  = Normal (resaved r (JArr [reloaded x; reloaded y])).
Proof. exact (saved_refs_load r url x y). Qed.

(** X19, witness: saving over an address whose [coordinates] were cut
    short, with a position off the image to the right. *)
Lemma X19_saved_address_loads_witness :
  loadRefs
    (saveRefs (held (with_coordinates (S754_infinity false, Num.half)
                                      Sample.jane))
              [("coordinates", "[0.5,")])
  = Normal (resaved (held (with_coordinates (S754_infinity false, Num.half)
                                            Sample.jane))
                    (JArr [JNull; JNum Num.half])).
Proof.
  apply (X19_saved_address_loads _ _ (S754_infinity false) Num.half);
    reflexivity.
Defined.


(** ** Products with a factor in the unit interval *)

Section Products.

(** Rounding a mantissa whose value is at most that of a normal number
    gives at most that number. *)
Lemma round_below (m e : Z) (M : positive) (E : Z) :
  0 < m -> Zdigits2 (Zpos M) = 53 -> -1074 <= E <= 971 ->
  e <= fexp Num.prec Num.emax (Zdigits2 m + e) ->
  e <= E -> m <= Zpos M * 2 ^ (E - e) ->
  let r := binary_round_aux Num.prec Num.emax false m e loc_Exact in
  Num.leb Num.zero r = true /\ Num.leb r (S754_finite false M E) = true.
Proof.
  intros Hm HM HE Hsh HeE Hval r.
  pose proof (digits_53 (Zpos M) ltac:(lia) HM) as [HMlo HMhi].
  set (F := fexp Num.prec Num.emax (Zdigits2 m + e)) in *.
  assert (HF : F = Z.max (Zdigits2 m + e - 53) (-1074)) by apply fexp_eq.
  assert (Hp : 0 < 2 ^ (E - e)) by (apply Z.pow_pos_nonneg; lia).
  (* the first alignment stops at or below the exponent of the bound *)
  assert (Hdm : Zdigits2 m <= 53 + (E - e)).
  { apply digits_le; [|lia]. split; [lia|].
    rewrite Z.pow_add_r by lia. nia. }
  assert (HFE : F <= E) by lia.
  set (sh := F - e).
  assert (Hsh0 : 0 <= sh) by (unfold sh; lia).
  set (G := Zpos M * 2 ^ (E - F)).
  assert (Hk : 0 < 2 ^ sh) by (apply Z.pow_pos_nonneg; lia).
  assert (HG : Zpos M * 2 ^ (E - e) = G * 2 ^ sh).
  { unfold G, sh. rewrite <- Z.mul_assoc, <- Z.pow_add_r by lia.
    f_equal. f_equal. lia. }
  subst r. rewrite round_unfold, shr_fexp_exact_eq. fold F. fold sh.
  set (A := shr (exact_record m) e sh).
  destruct (shr_spec (exact_record m) e sh) as [HAm HAe];
    [cbn [exact_record shr_m]; lia|].
  fold A in HAm, HAe. cbn [exact_record shr_m] in HAm.
  replace (Z.max 0 sh) with sh in HAm, HAe by lia.
  assert (HAe' : snd A = F) by (rewrite HAe; unfold sh; lia).
  assert (Hm1 : 0 <= shr_m (fst A) <= G).
  { rewrite HAm. split; [apply Z.div_pos; lia|].
    apply Z.div_le_upper_bound; [exact Hk|]. rewrite Z.mul_comm. lia. }
  (* rounding to nearest stays at or below the bound *)
  set (m2 := round_nearest_even (shr_m (fst A)) (loc_of_shr_record (fst A))).
  assert (Hm2 : 0 <= m2 <= G).
  { pose proof (rne_bounds (shr_m (fst A)) (loc_of_shr_record (fst A)))
      as Hr. fold m2 in Hr. split; [lia|].
    destruct (Z.eq_dec (shr_m (fst A)) G) as [Heq|Hne]; [|lia].
    assert (Hmeq : m = G * 2 ^ sh).
    { pose proof (Z.mul_div_le m (2 ^ sh) Hk) as Hle.
      rewrite <- HAm, Heq in Hle. lia. }
    assert (Hfst : fst A = exact_record G).
    { unfold A. rewrite Hmeq. rewrite shr_exact; [reflexivity| |exact Hsh0].
      unfold G. apply Z.mul_nonneg_nonneg; [lia|].
      apply Z.pow_nonneg. lia. }
    unfold m2. rewrite Hfst. cbn. lia. }
  unfold second_alignment. fold m2. rewrite shr_fexp_exact_eq, HAe'.
  set (sh2 := fexp Num.prec Num.emax (Zdigits2 m2 + F) - F).
  set (B := shr (exact_record m2) F sh2).
  destruct (shr_spec (exact_record m2) F sh2) as [HBm HBe];
    [cbn [exact_record shr_m]; lia|].
  fold B in HBm, HBe. cbn [exact_record shr_m] in HBm.
  assert (Hk2 : 0 < 2 ^ Z.max 0 sh2) by (apply Z.pow_pos_nonneg; lia).
  assert (Hm3 : shr_m (fst B) * 2 ^ Z.max 0 sh2 <= G).
  { rewrite HBm. pose proof (Z.mul_div_le m2 (2 ^ Z.max 0 sh2) Hk2). lia. }
  unfold finish.
  destruct (shr_m (fst B)) as [|p|p] eqn:Ep.
  - split; reflexivity.
  - (* the exponent cannot pass that of the bound *)
    assert (HeB : snd B <= E).
    { destruct (Z.le_gt_cases sh2 0) as [H0|H0]; [lia|].
      replace (Z.max 0 sh2) with sh2 in * by lia.
      assert (H2 : fexp Num.prec Num.emax (Zdigits2 m2 + F)
                   = Z.max (Zdigits2 m2 + F - 53) (-1074)) by apply fexp_eq.
      assert (Hs2 : sh2 = Zdigits2 m2 - 53) by (unfold sh2; lia).
      assert (Hm2pos : 0 < m2).
      { destruct (Z.eq_dec m2 0) as [Hz|Hz]; [|lia].
        rewrite Hz in Hs2. simpl in Hs2. lia. }
      assert (Hd3 : Zdigits2 (m2 / 2 ^ sh2) = 53).
      { rewrite digits_div; [lia | exact Hm2pos | lia]. }
      rewrite <- HBm in Hd3.
      pose proof (digits_53 (Zpos p) ltac:(lia) Hd3) as [Hplo _].
      assert (Hlt : 2 ^ 52 * 2 ^ sh2 < 2 ^ 53 * 2 ^ (E - F)).
      { unfold G in Hm3.
        assert (0 < 2 ^ (E - F)) by (apply Z.pow_pos_nonneg; lia). nia. }
      rewrite <- !Z.pow_add_r in Hlt by lia.
      apply Z.pow_lt_mono_r_iff in Hlt; lia. }
    replace (snd B <=? Num.emax - Num.prec) with true
      by (symmetry; apply Z.leb_le; unfold Num.emax, Num.prec; lia).
    split; [reflexivity|]. apply leb_finite.
    destruct (Z.eq_dec (snd B) E) as [Heq|Hne]; [right|left; lia].
    split; [exact Heq|].
    assert (Hs2 : Z.max 0 sh2 = E - F) by lia.
    rewrite Hs2 in Hm3. unfold G in Hm3.
    assert (0 < 2 ^ (E - F)) by (apply Z.pow_pos_nonneg; lia). nia.
  - exfalso.
    assert (0 <= m2 / 2 ^ Z.max 0 sh2) by (apply Z.div_pos; lia). lia.
Qed.

Lemma one_double : Num.is_double Num.one = true.
Proof. reflexivity. Qed.

(** The number of an integer below [2^53] is that of a 53-digit
    mantissa. *)
Lemma of_Z_normal (n : Z) :
  0 < n < 2 ^ 53 ->
  exists M E, Num.of_Z n = S754_finite false M E
              /\ Zdigits2 (Zpos M) = 53 /\ -52 <= E <= 0.
Proof.
  intros Hn. rewrite (of_Z_pos n Hn).
  assert (Hd : 0 < Zdigits2 n <= 53).
  { split; [destruct n; simpl; lia | apply digits_le; lia]. }
  assert (Hpos : 0 < n * 2 ^ (53 - Zdigits2 n)).
  { apply Z.mul_pos_pos; [lia|]. apply Z.pow_pos_nonneg; lia. }
  eexists _, _. split; [reflexivity|]. split; [|lia].
  rewrite Z2Pos.id by exact Hpos.
  rewrite digits_shift by lia. lia.
Qed.

(** An integer times a factor between zero and one lies between zero and
    the integer. *)
Lemma mul_within (n : Z) (c : number) :
  0 <= n < 2 ^ 53 ->
  Num.is_double c = true -> Num.in_unit c = true ->
  Num.leb Num.zero (Num.mul (Num.of_Z n) c) = true
  /\ Num.leb (Num.mul (Num.of_Z n) c) (Num.of_Z n) = true.
Proof.
  intros Hn Hc Hu. unfold Num.in_unit in Hu.
  apply andb_prop in Hu as [H0 H1].
  destruct (Z.eq_dec n 0) as [->|Hne].
  - change (Num.of_Z 0) with (S754_zero false).
    destruct c as [s|[|]| |[|] mc ec]; try discriminate;
      try (destruct s; split; reflexivity).
    split; reflexivity.
  - destruct (of_Z_normal n ltac:(lia)) as (M & E & HW & HM & HE).
    rewrite HW.
    destruct c as [s|[|]| |[|] mc ec]; try discriminate.
    + destruct s; split; reflexivity.
    + rewrite one_eq in H1.
      destruct (leb_value mc 4503599627370496 ec (-52) Hc eq_refl H1)
        as (Hec & Hmc & _).
      rewrite mul_finite. cbn [xorb].
      pose proof (digits_53 (Zpos M) ltac:(lia) HM) as [HMlo HMhi].
      apply round_below; try lia.
      * rewrite fexp_eq.
        assert (52 < Zdigits2 (Zpos M * Zpos mc)).
        { apply digits_gt; [|lia]. nia. }
        lia.
      * replace (E - (E + ec)) with (- ec) by lia.
        rewrite <- pow52 in Hmc.
        rewrite <- Z.pow_add_r in Hmc by lia.
        replace (52 + (-52 - ec)) with (- ec) in Hmc by lia.
        apply Z.mul_le_mono_nonneg_l; lia.
Qed.

End Products.

(** X20: a position inside the unit square puts the text inside the
    image: both components of the anchor lie between zero and the width,
    and the height, of the image. *)
Theorem X20_anchor_inside_image (sz : ImageSize) (c : number * number) :
  (width sz < 2 ^ 53)%N -> (height sz < 2 ^ 53)%N ->
  Num.is_double (fst c) = true -> Num.is_double (snd c) = true ->
  in_unit_square c = true ->
  inside_image sz (anchor sz c) = true.
Proof.
  intros Hw Hh Hx Hy Hu. unfold in_unit_square in Hu.
  apply andb_prop in Hu as [Hux Huy].
  unfold inside_image, anchor, Num.of_N. cbn [fst snd].
  destruct (mul_within (Z.of_N (width sz)) (fst c)) as [H1 H2];
    [lia | exact Hx | exact Hux |].
  destruct (mul_within (Z.of_N (height sz)) (snd c)) as [H3 H4];
    [lia | exact Hy | exact Huy |].
  rewrite H1, H2, H3, H4. reflexivity.
Qed.

(** X20, witness: the position [0.5, 0.1] on an image 1000 by 800. *)
Lemma X20_anchor_inside_image_witness :
  inside_image Sample.photo (anchor Sample.photo (coordinates Sample.jane))
  = true.
Proof.
  apply X20_anchor_inside_image; reflexivity.
Defined.

(** ** Loading what was loaded *)

(** X21: references that came from an address go back into it unchanged.
    If the script started from an address with a position that is a pair
    of finite numbers, neither of them the negative zero, then saving and
    loading again gives the same references: what the defaults filled in
    is saved with the defaults. *)
Theorem X21_load_save_load (url url' : SearchParams.t) (r : Refs)
        (x y : number) :
  loadRefs url = Normal r ->
  ref_coordinates r = pair_json (x, y) ->
  Num.is_double x = true -> Num.is_double y = true ->
  comes_back x = true -> comes_back y = true ->
  loadRefs (saveRefs r url') = Normal r.
Proof.
  intros Hload Hc Hx Hy Cx Cy.
  rewrite (saved_refs_load r url' x y Hc Hx Hy).
  apply comes_back_reloaded in Cx, Cy. rewrite Cx, Cy.
  unfold loadRefs in Hload.
  destruct (loadObjectParam url "coordinates") as [v|]; [|discriminate].
  injection Hload as <-. unfold resaved.
  cbn [ref_name ref_fontLoadingCode ref_fontFamily ref_isItalic ref_isBold
       ref_fontColor ref_fontSize ref_coordinates] in *.
  rewrite !string_or_idem, Hc. reflexivity.
Qed.

(** X21, witness: references loaded from an address with an empty [name],
    saved into another address. *)
Lemma X21_load_save_load_witness :
  loadRefs
    (saveRefs
       {| ref_name := "Tan Ah Kow"; ref_fontLoadingCode := EmptyString;
          ref_fontFamily := "serif"; ref_isItalic := EmptyString;
          ref_isBold := EmptyString; ref_fontColor := "#000000";
          ref_fontSize := "14";
          ref_coordinates := pair_json default_coordinates |}
       [("utm", "x")])
  = Normal
      {| ref_name := "Tan Ah Kow"; ref_fontLoadingCode := EmptyString;
         ref_fontFamily := "serif"; ref_isItalic := EmptyString;
         ref_isBold := EmptyString; ref_fontColor := "#000000";
         ref_fontSize := "14";
         ref_coordinates := pair_json default_coordinates |}.
Proof.
  apply (X21_load_save_load [("name", EmptyString); ("fontFamily", "serif")]
           _ _ Num.half Num.half);
    vm_compute; reflexivity.
Defined.

(** ** Edits of the font loading code *)

Lemma edits_untouched (evs : list (Z * Settings)) :
  forall st, untouched st -> untouched (Sync.play st (as_edits evs)).
Proof.
  induction evs as [|[t s] evs IH]; intros st Hst; [exact Hst|].
  simpl. apply IH. destruct Hst as (Hr & Hp & Hd).
  unfold Sync.occur, Sync.advance. cbn [fst snd]. rewrite Hr, Hp.
  unfold untouched. cbn. rewrite Hr, Hp, Hd. repeat split.
Qed.

(** X22: edits of the font loading code alone, however many and
    whenever, start nothing: no card is drawn and the address is not
    written, since the font loading code is not among the watched
    references. *)
Theorem X22_edits_alone_start_nothing
        (s0 : Settings) (evs : list (Z * Settings)) :
  Sync.performed (Sync.settle (Sync.play (Sync.idle s0) (as_edits evs))) = [].
Proof.
  destruct (edits_untouched evs (Sync.idle s0)) as (Hr & Hp & Hd).
  { repeat split. }
  unfold Sync.settle. rewrite Hr, Hp. exact Hd.
Qed.
